(** * The export table of the BEAM emulator (erts/emulator/beam/export.c)

    A shallow embedding of the export table: one [IndexTable] per code
    index, whose entries live, [ERTS_NUM_CODE_IX] at a time, inside one
    [export_blob] together with the [Export] record they all point to.

    Memory is explicit: the blobs handed out by [erts_alloc] form a finite
    map from block numbers to blob contents, pointers into a blob are a
    block number (and an index into [entryv]), and a pointer to a template
    on the C stack is represented by the value it points to, since a
    template is never written after [init_template].  Every C function
    threads the state and may fault; undefined behaviour (a read through a
    dangling pointer, a read past the end of [entryv]) is a [Fault].

    The code is taken as a release build has it: [ASSERT] and [IF_DEBUG]
    expand to nothing, and what the assertions say is proved instead.  The
    one exception is [debug_export_load_ix], which is kept as the record
    of whether a staging session is open. *)

From stdpp Require Import base decidable option list gmap.
From Stdlib Require Import ZArith Lia.

Local Open Scope Z_scope.

(** ** Faults and the state-and-error monad *)

Inductive fault : Type :=
  | OutOfBounds      (* an array read or write outside the array *)
  | InvalidPointer   (* a dereference of memory that is not a live object *)
  | Deadlock         (* the staging mutex locked twice, or unlocked when free *)
  | OutOfFuel        (* the modelled loop was cut before it finished *)
  | Fatal.           (* erts_exit: the emulator is taken down *)

Inductive result (A : Type) : Type :=
  | Ok (a : A)
  | Fault (f : fault).

Arguments Ok {A} a.
Arguments Fault {A} f.

Definition rbind {A B : Type} (r : result A) (k : A -> result B) : result B :=
  match r with
  | Ok a => k a
  | Fault f => Fault f
  end.

Notation "'do' x <- r ; k" := (rbind r (fun x => k))
  (at level 10, x pattern, r at level 100, k at level 200, only parsing).

Definition of_option {A : Type} (f : fault) (o : option A) : result A :=
  match o with
  | Some a => Ok a
  | None => Fault f
  end.

(** Run the head of a computation whose value is known, keeping the rest
    folded. *)
Ltac rstep := cbn [rbind of_option].

(** ** Machine words *)

(** [Eterm], [Uint] and [HashValue] are 64-bit unsigned words, and
    [erts_aint_t] a 64-bit signed one. *)
Definition Uint_wrap (z : Z) : Z := z mod 2 ^ 64.
Definition aint_wrap (z : Z) : Z := (z + 2 ^ 63) mod 2 ^ 64 - 2 ^ 63.

(** [int] is a 32-bit signed word; a wider value converted to it keeps
    its low 32 bits, as the compilers the emulator is built with do. *)
Definition int_wrap (z : Z) : Z := (z + 2 ^ 31) mod 2 ^ 32 - 2 ^ 31.

(** ** Data model *)

Record ErtsCodeMFA : Type := MkMFA {
  mfa_module : Z;
  mfa_function : Z;
  mfa_arity : Z
}.

Record Export : Type := MkExport {
  addresses : list Z;          (* dispatch.addresses[ERTS_ADDRESSV_SIZE] *)
  bif_number : Z;
  is_bif_traced : Z;
  info_op : Z;                 (* info.op *)
  info_gen_bp : Z;             (* info.u.gen_bp, NULL is 0 *)
  info_mfa : ErtsCodeMFA;      (* info.mfa *)
  trampoline_op : Z;           (* trampoline.common.op *)
  trampoline_arg : Z           (* the second word of the trampoline union *)
}.

(** A pointer to an [Export]: null, the one inside blob [b], or the one
    inside a template on the stack. *)
Inductive export_ptr : Type :=
  | NULL
  | in_blob (b : nat)
  | on_stack (x : Export).

Record export_entry : Type := MkEntry {
  slot_index : Z;              (* slot.index *)
  ep : export_ptr
}.

Record export_blob : Type := MkBlob {
  exp : Export;
  entryv : list export_entry
}.

(** A pointer to an [export_entry]: [&blob->entryv[i]] or the entry of a
    stack object. *)
Inductive entry_ptr : Type :=
  | blob_entry (b : nat) (i : nat)
  | stack_entry (e : export_entry).

Global Instance ErtsCodeMFA_eq_dec : EqDecision ErtsCodeMFA.
Proof. solve_decision. Defined.
Global Instance Export_eq_dec : EqDecision Export.
Proof. solve_decision. Defined.
Global Instance export_ptr_eq_dec : EqDecision export_ptr.
Proof. solve_decision. Defined.
Global Instance export_entry_eq_dec : EqDecision export_entry.
Proof. solve_decision. Defined.
Global Instance entry_ptr_eq_dec : EqDecision entry_ptr.
Proof. solve_decision. Defined.

(** What export.c takes from headers that are not part of this file. *)
Class Platform : Type := MkPlatform {
  (* code_ix.h *)
  ERTS_NUM_CODE_IX : nat;
  (* whether the emulator is built with the JIT *)
  BEAMASM : bool;
  beam_save_calls_export : Z;
  (* the address [erts_activate_export_trampoline] installs for a record:
     the global [beam_export_trampoline] with the JIT, the record's own
     [trampoline] words without *)
  trampoline_address : export_ptr -> Z;
  BeamOpsAreInitialized : bool;
  (* BeamOpCodeAddr(op_call_error_handler), BeamOpCodeAddr(op_i_generic_breakpoint) *)
  op_call_error_handler : Z;
  op_i_generic_breakpoint : Z;
  (* atom_val, erl_term.h *)
  atom_val : Z -> Z;
  (* sizeof(struct export_blob) *)
  sizeof_export_blob : Z;
  (* what a word of a block fresh from erts_alloc holds *)
  uninitialized : Z
}.

Record state : Type := MkState {
  heap : gmap nat export_blob;              (* live ERTS_ALC_T_EXPORT blocks *)
  export_tables : list (list entry_ptr);    (* export_tables[ERTS_NUM_CODE_IX] *)
  total_entries_bytes : Z;
  export_staging_mtx : bool;                (* the staging lock: held or not *)
  the_active_code_index : nat;
  the_staging_code_index : nat;
  debug_export_load_ix : option nat         (* ~0 is None *)
}.

Definition set_heap (h : gmap nat export_blob) (st : state) : state :=
  MkState h (export_tables st) (total_entries_bytes st) (export_staging_mtx st)
    (the_active_code_index st) (the_staging_code_index st) (debug_export_load_ix st).

Definition set_export_tables (ts : list (list entry_ptr)) (st : state) : state :=
  MkState (heap st) ts (total_entries_bytes st) (export_staging_mtx st)
    (the_active_code_index st) (the_staging_code_index st) (debug_export_load_ix st).

Definition set_total_entries_bytes (n : Z) (st : state) : state :=
  MkState (heap st) (export_tables st) n (export_staging_mtx st)
    (the_active_code_index st) (the_staging_code_index st) (debug_export_load_ix st).

Definition set_export_staging_mtx (l : bool) (st : state) : state :=
  MkState (heap st) (export_tables st) (total_entries_bytes st) l
    (the_active_code_index st) (the_staging_code_index st) (debug_export_load_ix st).

Definition set_code_indices (a s : nat) (st : state) : state :=
  MkState (heap st) (export_tables st) (total_entries_bytes st) (export_staging_mtx st)
    a s (debug_export_load_ix st).

Definition set_debug_export_load_ix (d : option nat) (st : state) : state :=
  MkState (heap st) (export_tables st) (total_entries_bytes st) (export_staging_mtx st)
    (the_active_code_index st) (the_staging_code_index st) d.

Definition set_addresses (l : list Z) (x : Export) : Export :=
  MkExport l (bif_number x) (is_bif_traced x) (info_op x) (info_gen_bp x)
    (info_mfa x) (trampoline_op x) (trampoline_arg x).

Definition set_exp (x : Export) (bl : export_blob) : export_blob :=
  MkBlob x (entryv bl).

Definition set_entryv (l : list export_entry) (bl : export_blob) : export_blob :=
  MkBlob (exp bl) l.

(** ** Loads and stores *)

Definition load_blob (st : state) (b : nat) : result export_blob :=
  of_option InvalidPointer (heap st !! b).

Definition load_export (st : state) (p : export_ptr) : result Export :=
  match p with
  | NULL => Fault InvalidPointer
  | in_blob b => do bl <- load_blob st b; Ok (exp bl)
  | on_stack x => Ok x
  end.

Definition load_entry (st : state) (p : entry_ptr) : result export_entry :=
  match p with
  | blob_entry b i =>
      do bl <- load_blob st b;
      of_option OutOfBounds (entryv bl !! i)
  | stack_entry e => Ok e
  end.

(** Stores go to blobs only: no function of export.c writes to a stack
    object once it has been set up. *)
Definition store_export (st : state) (p : export_ptr) (x : Export) : result state :=
  match p with
  | in_blob b =>
      do bl <- load_blob st b;
      Ok (set_heap (<[b := set_exp x bl]> (heap st)) st)
  | _ => Fault InvalidPointer
  end.

Definition store_entry (st : state) (p : entry_ptr) (e : export_entry) : result state :=
  match p with
  | blob_entry b i =>
      do bl <- load_blob st b;
      if decide (i < length (entryv bl))%nat
      then Ok (set_heap (<[b := set_entryv (<[i := e]> (entryv bl)) bl]> (heap st)) st)
      else Fault OutOfBounds
  | stack_entry _ => Fault InvalidPointer
  end.

(** [addresses[ix] = a] through a pointer to the record. *)
Definition store_address (st : state) (p : export_ptr) (ix : nat) (a : Z) : result state :=
  do x <- load_export st p;
  if decide (ix < length (addresses x))%nat
  then store_export st p (set_addresses (<[ix := a]> (addresses x)) x)
  else Fault OutOfBounds.

Definition erts_atomic_add_nob (counter v : Z) : Z := aint_wrap (counter + v).

(** ** The functions of export.c *)

Section export.
Context {platform : Platform}.

(** From code_ix.h, which is not part of this file: the dispatch array
    has a slot per code index and, with the JIT, one more after them, at
    [ERTS_SAVE_CALLS_CODE_IX]. *)
Definition ERTS_ADDRESSV_SIZE : nat :=
  if BEAMASM then S ERTS_NUM_CODE_IX else ERTS_NUM_CODE_IX.
Definition ERTS_SAVE_CALLS_CODE_IX : nat := ERTS_NUM_CODE_IX.

(** The most entries a table can get: [init_export_table] hands
    [EXPORT_LIMIT] to [erts_index_init] as the limit of every table. *)
Definition EXPORT_LIMIT : Z := 512 * 1024.

Definition EXPORT_HASH (m f a : Z) : Z :=
  Z.lxor (Uint_wrap (atom_val m * atom_val f)) a.

(** [ErtsContainerStruct(ee->ep, struct export_blob, exp)]: only a record
    that sits in a blob has a blob around it. *)
Definition entry_to_blob (st : state) (ee : entry_ptr) : result nat :=
  do e <- load_entry st ee;
  match ep e with
  | in_blob b => Ok b
  | _ => Fault InvalidPointer
  end.

Definition export_hash (st : state) (ee : entry_ptr) : result Z :=
  do e <- load_entry st ee;
  do x <- load_export st (ep e);
  Ok (EXPORT_HASH (mfa_module (info_mfa x)) (mfa_function (info_mfa x))
        (mfa_arity (info_mfa x))).

Definition export_cmp (st : state) (tmpl_e obj_e : entry_ptr) : result Z :=
  do te <- load_entry st tmpl_e;
  do oe <- load_entry st obj_e;
  do tmpl <- load_export st (ep te);
  do obj <- load_export st (ep oe);
  Ok (if (mfa_module (info_mfa tmpl) =? mfa_module (info_mfa obj))
         && (mfa_function (info_mfa tmpl) =? mfa_function (info_mfa obj))
         && (mfa_arity (info_mfa tmpl) =? mfa_arity (info_mfa obj))
      then 0 else 1).

(** Modelled from the spec: [erts_activate_export_trampoline] and
    [erts_is_export_trampoline_active] are inline functions of export.h;
    the first sets a generation's dispatch address to the trampoline's
    address, the second tests whether it is equal to it. *)
Definition erts_activate_export_trampoline
    (p : export_ptr) (x : Export) (code_ix : nat) : Export :=
  set_addresses (<[code_ix := trampoline_address p]> (addresses x)) x.

Definition erts_is_export_trampoline_active
    (st : state) (p : export_ptr) (code_ix : nat) : result bool :=
  do x <- load_export st p;
  do a <- of_option OutOfBounds (addresses x !! code_ix);
  Ok (a =? trampoline_address p).

(** Modelled from the spec: [BeamIsOpCode] is a macro of the emulator's
    headers; the trampoline is in the installed-breakpoint shape when its
    first word is the address of [op_i_generic_breakpoint]. *)
Definition BeamIsOpCode (instr op : Z) : bool := instr =? op.

(** The block [erts_alloc] returns: a new address, contents arbitrary. *)
Definition erts_alloc (st : state) : nat := fresh (dom (heap st)).

Definition fresh_block : export_blob :=
  MkBlob
    (MkExport (replicate ERTS_ADDRESSV_SIZE uninitialized)
       uninitialized uninitialized uninitialized uninitialized
       (MkMFA uninitialized uninitialized uninitialized)
       uninitialized uninitialized)
    (replicate ERTS_NUM_CODE_IX (MkEntry uninitialized NULL)).

(** One turn of the loop that closes the template branch of [export_alloc]. *)
Definition export_alloc_init_ix (b : nat) (blob : export_blob) (ix : nat) : export_blob :=
  MkBlob (erts_activate_export_trampoline (in_blob b) (exp blob) ix)
         (<[ix := MkEntry (-1) (in_blob b)]> (entryv blob)).

(** The scan of the other branch:
    [for (ix = 0; blob->entryv[ix].slot.index >= 0; ix++)].
    Nothing bounds [ix]: the test reads [entryv[ix]] before the body, so
    the run over a fully assigned array reads [entryv[ERTS_NUM_CODE_IX]],
    which is outside the array, before the assertion in the body could
    see that index. *)
Fixpoint export_alloc_scan (l : list export_entry) (ix : nat) : result nat :=
  match l with
  | [] => Fault OutOfBounds
  | e :: l' => if 0 <=? slot_index e then export_alloc_scan l' (S ix) else Ok ix
  end.

Definition export_alloc (st : state) (tmpl_e : entry_ptr) : result (entry_ptr * state) :=
  do te <- load_entry st tmpl_e;
  if slot_index te =? -1 then
    do tmpl <- load_export st (ep te);
    let b := erts_alloc st in
    let obj :=
      MkExport (addresses (exp fresh_block))
        (-1)                                    (* bif_number *)
        0                                       (* is_bif_traced *)
        0                                       (* info.op *)
        0                                       (* info.u.gen_bp *)
        (MkMFA (mfa_module (info_mfa tmpl)) (mfa_function (info_mfa tmpl))
               (mfa_arity (info_mfa tmpl)))
        (if BeamOpsAreInitialized then op_call_error_handler else 0)
        0 in
    let blob :=
      foldl (export_alloc_init_ix b) (MkBlob obj (entryv fresh_block))
        (seq 0 ERTS_NUM_CODE_IX) in
    Ok (blob_entry b 0,
        set_total_entries_bytes
          (erts_atomic_add_nob (total_entries_bytes st) (aint_wrap sizeof_export_blob))
          (set_heap (<[b := blob]> (heap st)) st))
  else
    do b <- entry_to_blob st tmpl_e;
    do blob <- load_blob st b;
    do ix <- export_alloc_scan (entryv blob) 0;
    Ok (blob_entry b ix, st).

(** The loop of [export_free]: is one of [entryv[i..i+n)] assigned? *)
Fixpoint export_free_scan (l : list export_entry) (i n : nat) : result bool :=
  match n with
  | O => Ok false
  | S n' =>
      do e <- of_option OutOfBounds (l !! i);
      if 0 <=? slot_index e then Ok true else export_free_scan l (S i) n'
  end.

Definition erts_free (st : state) (b : nat) : result state :=
  do _ <- load_blob st b;
  Ok (set_heap (delete b (heap st)) st).

Definition export_free (st : state) (obj : entry_ptr) : result state :=
  do b <- entry_to_blob st obj;
  do e <- load_entry st obj;
  do st <- store_entry st obj (MkEntry (-1) (ep e));
  do blob <- load_blob st b;
  do assigned <- export_free_scan (entryv blob) 0 ERTS_NUM_CODE_IX;
  if assigned : bool then Ok st
  else
    do st <- erts_free st b;
    Ok (set_total_entries_bytes
          (erts_atomic_add_nob (total_entries_bytes st)
             (aint_wrap (Uint_wrap (- sizeof_export_blob))))
          st).

Definition init_template (m f a : Z) : entry_ptr :=
  stack_entry
    (MkEntry (-1)
       (on_stack (MkExport (replicate ERTS_ADDRESSV_SIZE uninitialized) (-1) 0
                    uninitialized uninitialized (MkMFA m f a)
                    uninitialized uninitialized))).

(** *** The index table

    Modelled from the spec: hash.c and index.c are not part of this file.
    A generation table maps a key to an entry, found with the hash and
    equality functions supplied by [init_export_table], upserts with the
    allocate hook on a miss, and numbers its entries in insertion order;
    the table of code index [c] is the list of its entries in that order.
    A lookup walks the entries and takes the first whose hash value and
    key are those of the template.  A table does not grow beyond the
    limit it was created with, which is [EXPORT_LIMIT] for every table
    of export.c: an upsert that needs one more entry than that ends the
    emulator. *)

Fixpoint hash_get_from (st : state) (l : list entry_ptr) (tmpl : entry_ptr) (hval : Z)
    : result (option entry_ptr) :=
  match l with
  | [] => Ok None
  | b :: l' =>
      do hb <- export_hash st b;
      if hb =? hval then
        do c <- export_cmp st tmpl b;
        if c =? 0 then Ok (Some b) else hash_get_from st l' tmpl hval
      else hash_get_from st l' tmpl hval
  end.

Definition index_table (st : state) (code_ix : nat) : result (list entry_ptr) :=
  of_option OutOfBounds (export_tables st !! code_ix).

Definition hash_get (st : state) (code_ix : nat) (tmpl : entry_ptr)
    : result (option entry_ptr) :=
  do t <- index_table st code_ix;
  do hval <- export_hash st tmpl;
  hash_get_from st t tmpl hval.

Definition hash_fetch := hash_get.

Definition erts_index_lookup (st : state) (code_ix : nat) (i : nat) : result entry_ptr :=
  do t <- index_table st code_ix;
  of_option OutOfBounds (t !! i).

Definition erts_index_num_entries (st : state) (code_ix : nat) : result nat :=
  do t <- index_table st code_ix;
  Ok (length t).

(** The upsert: the entry found, or else the one [export_alloc] returns,
    which gets the next index of the table unless it has an index.  The
    allocate hook has run when the table turns out to be full. *)
Definition index_put_entry (st : state) (code_ix : nat) (tmpl : entry_ptr)
    : result (entry_ptr * state) :=
  do t <- index_table st code_ix;
  do found <- hash_get st code_ix tmpl;
  do (p, st) <- match found with
                | Some p => Ok (p, st)
                | None => export_alloc st tmpl
                end;
  do e <- load_entry st p;
  if 0 <=? slot_index e then Ok (p, st)
  else if EXPORT_LIMIT <=? Z.of_nat (length t) then Fault Fatal
  else
    do st <- store_entry st p (MkEntry (Z.of_nat (length t)) (ep e));
    Ok (p, set_export_tables (<[code_ix := t ++ [p]]> (export_tables st)) st).

(** *** The staging lock and the code indices *)

Definition export_staging_lock (st : state) : result state :=
  if export_staging_mtx st then Fault Deadlock
  else Ok (set_export_staging_mtx true st).

Definition export_staging_unlock (st : state) : result state :=
  if export_staging_mtx st then Ok (set_export_staging_mtx false st)
  else Fault Deadlock.

Definition erts_active_code_ix (st : state) : nat := the_active_code_index st.
Definition erts_staging_code_ix (st : state) : nat := the_staging_code_index st.

(** *** Lookups *)

Definition erts_find_export_entry (st : state) (m f a : Z) (code_ix : nat)
    : result export_ptr :=
  do ee <- hash_fetch st code_ix (init_template m f a);
  match ee with
  | Some ee => do e <- load_entry st ee; Ok (ep e)
  | None => Ok NULL
  end.

Definition erts_find_function (st : state) (m f a : Z) (code_ix : nat)
    : result export_ptr :=
  do ee <- hash_get st code_ix (init_template m f a);
  match ee with
  | None => Ok NULL
  | Some ee =>
      do e <- load_entry st ee;
      do active <- erts_is_export_trampoline_active st (ep e) code_ix;
      if active : bool then
        do x <- load_export st (ep e);
        if negb (BeamIsOpCode (trampoline_op x) op_i_generic_breakpoint)
        then Ok NULL
        else Ok (ep e)
      else Ok (ep e)
  end.

(** With the JIT, [res->dispatch.addresses[ERTS_SAVE_CALLS_CODE_IX] =
    beam_save_calls_export]. *)
Definition set_save_calls (st : state) (res : export_ptr) : result state :=
  if BEAMASM
  then store_address st res ERTS_SAVE_CALLS_CODE_IX beam_save_calls_export
  else Ok st.

Definition erts_export_put (st : state) (mod_ func arity : Z)
    : result (export_ptr * state) :=
  let code_ix := erts_staging_code_ix st in
  do st <- export_staging_lock st;
  do (ee, st) <- index_put_entry st code_ix (init_template mod_ func arity);
  do st <- export_staging_unlock st;
  do e <- load_entry st ee;
  let res := ep e in
  do st <- set_save_calls st res;
  Ok (res, st).

Definition export_list (st : state) (i : nat) (code_ix : nat) : result export_ptr :=
  do ee <- erts_index_lookup st code_ix i;
  do e <- load_entry st ee;
  Ok (ep e).

Definition export_list_size (st : state) (code_ix : nat) : result nat :=
  erts_index_num_entries st code_ix.

(** The counter is an [erts_aint_t] and the function returns [int]. *)
Definition export_entries_sz (st : state) : Z := int_wrap (total_entries_bytes st).

(** [ee.ep = e] with [ee.slot] left as the stack had it. *)
Definition export_get (st : state) (e : export_ptr) : result export_ptr :=
  let ee := stack_entry (MkEntry uninitialized e) in
  do entry <- hash_get st (erts_active_code_ix st) ee;
  match entry with
  | Some entry => do x <- load_entry st entry; Ok (ep x)
  | None => Ok NULL
  end.

(** *** Stubs

    [erts_export_get_or_make_stub] reads the active code index without the
    lock and again with it.  What other threads do in between is the
    [interfere] of the head of [sched]; with [sched] used up, nothing runs
    in between.  [fuel] bounds the turns of the do-while loop. *)

Section stub.
Context {E : Type} (interfere : E -> state -> result state).

Fixpoint erts_export_get_or_make_stub_loop (fuel : nat) (sched : list E)
    (st : state) (mod_ func arity : Z) : result (export_ptr * state) :=
  match fuel with
  | O => Fault OutOfFuel
  | S fuel' =>
      let code_ix := erts_active_code_ix st in
      do found <- erts_find_export_entry st mod_ func arity code_ix;
      do (res, st) <-
        match found with
        | NULL =>
            do st <- match sched with
                     | [] => Ok st
                     | ev :: _ => interfere ev st
                     end;
            do st <- export_staging_lock st;
            do (res, st) <-
              if decide (erts_active_code_ix st = code_ix) then
                do (entry, st) <- index_put_entry st (erts_staging_code_ix st)
                                    (init_template mod_ func arity);
                do e <- load_entry st entry;
                do st <- set_save_calls st (ep e);
                Ok (ep e, st)
              else Ok (NULL, st);   (* race *)
            do st <- export_staging_unlock st;
            Ok (res, st)
        | _ => Ok (found, st)
        end;
      match res with
      | NULL => erts_export_get_or_make_stub_loop fuel' (tail sched) st mod_ func arity
      | _ => Ok (res, st)
      end
  end.

End stub.

(** The call with no other thread running. *)
Definition erts_export_get_or_make_stub (fuel : nat) (st : state) (mod_ func arity : Z)
    : result (export_ptr * state) :=
  erts_export_get_or_make_stub_loop (fun (_ : Empty_set) st => Ok st) fuel [] st
    mod_ func arity.

(** *** Staging *)

Fixpoint export_start_staging_loop (fuel : nat) (i : nat) (src_ix dst_ix : nat)
    (st : state) : result state :=
  match fuel with
  | O => Fault OutOfFuel
  | S fuel' =>
      do entries <- erts_index_num_entries st src_ix;
      if decide (i < entries)%nat then
        do src_entry <- erts_index_lookup st src_ix i;
        do e <- load_entry st src_entry;
        do x <- load_export st (ep e);
        do a <- of_option OutOfBounds (addresses x !! src_ix);
        do st <- store_address st (ep e) dst_ix a;
        do (_, st) <- index_put_entry st dst_ix src_entry;
        export_start_staging_loop fuel' (S i) src_ix dst_ix st
      else Ok st
  end.

(** [debug_export_load_ix] exists in debug builds only and is written by
    nothing else; it is kept here as the record of a staging session. *)
Definition export_start_staging (fuel : nat) (st : state) : result state :=
  let dst_ix := erts_staging_code_ix st in
  let src_ix := erts_active_code_ix st in
  do st <- export_staging_lock st;
  do st <- export_start_staging_loop fuel 0 src_ix dst_ix st;
  do st <- export_staging_unlock st;
  Ok (set_debug_export_load_ix (Some dst_ix) st).

Definition export_end_staging (st : state) (commit : bool) : state :=
  set_debug_export_load_ix None st.

(** *** Start-up *)

(** The tables are empty, each with the limit [EXPORT_LIMIT], the
    counter is zero and the lock is free.  The code indices are the
    manager's: both are zero at start-up, which is what the initial value
    0 of [debug_export_load_ix], a staging session open on index zero,
    stands for. *)
Definition init_export_table : state :=
  MkState ∅ (replicate ERTS_NUM_CODE_IX []) 0 false 0 0 (Some 0%nat).

(** *** The code index manager

    Modelled from the spec: code_ix.c is not part of this file.  The
    manager alone changes which generation is active; it runs
    [export_start_staging], lets the loader call [erts_export_put], runs
    [export_end_staging] and then either commits, which makes the staging
    generation the active one and picks another generation for staging,
    or aborts.  Code loading is serialised: a request that does not fit
    the session in progress is not served. *)
Definition erts_commit_staging_code_ix (st : state) (next : nat) : result state :=
  do st <- export_staging_lock st;
  let st := set_code_indices (erts_staging_code_ix st) next st in
  export_staging_unlock st.

Inductive api_call : Type :=
  | call_export_put (m f a : Z)
  | call_get_or_make_stub (m f a : Z)
  | call_start_staging
  | call_end_staging (commit : bool) (next : nat).

Definition step (st : state) (c : api_call) : result state :=
  match c with
  | call_export_put m f a =>
      match debug_export_load_ix st with
      | Some _ => do (_, st) <- erts_export_put st m f a; Ok st
      | None => Ok st
      end
  | call_get_or_make_stub m f a =>
      do (_, st) <- erts_export_get_or_make_stub 1 st m f a; Ok st
  | call_start_staging =>
      match debug_export_load_ix st with
      | Some _ => Ok st
      | None =>
          if decide (erts_staging_code_ix st = erts_active_code_ix st) then Ok st
          else
            do n <- erts_index_num_entries st (erts_active_code_ix st);
            export_start_staging (S n) st
      end
  | call_end_staging commit next =>
      match debug_export_load_ix st with
      | None => Ok st
      | Some _ =>
          if commit then
            if decide (next < ERTS_NUM_CODE_IX ∧ next ≠ erts_staging_code_ix st)%nat
            then erts_commit_staging_code_ix (export_end_staging st true) next
            else Ok st
          else Ok (export_end_staging st false)
      end
  end.

Fixpoint run (st : state) (cs : list api_call) : result state :=
  match cs with
  | [] => Ok st
  | c :: cs' => do st <- step st c; run st cs'
  end.

(** The stub call with other threads around: each element of the
    schedule is what they do while this thread waits for the lock. *)
Definition erts_export_get_or_make_stub_conc :=
  erts_export_get_or_make_stub_loop (fun cs st => run st cs).

(** The discipline of the callers, which [step] presumes: the loader
    puts between [export_start_staging] and [export_end_staging] only;
    the manager starts a session when none is open and the staging
    generation is not the active one, ends a session that is open, and
    commits with a next staging generation that exists and is not the
    one it commits. *)
Definition disciplined (st : state) (c : api_call) : bool :=
  match c with
  | call_export_put _ _ _ =>
      match debug_export_load_ix st with Some _ => true | None => false end
  | call_get_or_make_stub _ _ _ => true
  | call_start_staging =>
      match debug_export_load_ix st with
      | Some _ => false
      | None => bool_decide (erts_staging_code_ix st ≠ erts_active_code_ix st)
      end
  | call_end_staging commit next =>
      match debug_export_load_ix st with
      | None => false
      | Some _ =>
          if commit
          then bool_decide (next < ERTS_NUM_CODE_IX ∧ next ≠ erts_staging_code_ix st)%nat
          else true
      end
  end.

Definition commits (c : api_call) : bool :=
  match c with
  | call_end_staging true _ => true
  | _ => false
  end.

(** Every request of [cs] keeps the discipline in the state in which it
    is served. *)
Fixpoint disciplined_run (st : state) (cs : list api_call) : bool :=
  match cs with
  | [] => true
  | c :: cs' =>
      disciplined st c &&
      match step st c with
      | Ok st' => disciplined_run st' cs'
      | Fault _ => false
      end
  end.

(** The waits of a stub call in which every commit served is one the
    call sees: a wait that leaves the active code index as the call read
    it has served no commit, and after a wait that leaves another one
    the same holds of the waits of the turns to come. *)
Fixpoint commits_seen (sched : list (list api_call)) (st : state) : bool :=
  match sched with
  | [] => true
  | cs :: sched' =>
      match run st cs with
      | Ok st0 =>
          if decide (erts_active_code_ix st0 = erts_active_code_ix st)
          then forallb (fun c => negb (commits c)) cs
          else commits_seen sched'
                 (set_export_staging_mtx false (set_export_staging_mtx true st0))
      | Fault _ => true
      end
  end.

(** The states of a system that keeps the discipline.  Requests are
    served one after the other, and a call of
    [erts_export_get_or_make_stub] may wait for the lock while other
    threads have their requests served, whole.  The turn of the call
    that inserts is one during whose wait no commit is served: the second
    read of the active code index is what the call has to tell such a
    wait from one with a commit, and it cannot tell it from a wait in
    which commits have brought the index back to the value read first.
    A turn that sees another index leaves the state the other threads
    have made. *)
Inductive reachable : state -> Prop :=
  | reachable_init : reachable init_export_table
  | reachable_step st c st' :
      reachable st -> disciplined st c = true -> step st c = Ok st' -> reachable st'
  | reachable_stub st cs m f a p st' :
      reachable st -> Forall (fun c => commits c = false) cs ->
      erts_export_get_or_make_stub_conc 1 [cs] st m f a = Ok (p, st') ->
      reachable st'.

End export.

(** ** Platforms to compute with

    The interpreter with threaded code, the JIT, and the interpreter
    before its instruction table is set up. *)

Definition interpreter : Platform :=
  MkPlatform 3 false 0
    (fun p => match p with in_blob b => 4096 + 1024 * Z.of_nat b | _ => 64 end)
    true 7001 7002 (fun x => Z.shiftr x 6) 200 (-559038737).

Definition jit : Platform :=
  MkPlatform 3 true 9000 (fun _ => 8000) true 51 52 (fun x => Z.shiftr x 6) 208
    (-559038737).

Definition early_boot : Platform :=
  MkPlatform 3 false 0
    (fun p => match p with in_blob b => 4096 + 1024 * Z.of_nat b | _ => 64 end)
    false 7001 7002 (fun x => Z.shiftr x 6) 200 (-559038737).

(** An atom as a tagged immediate, [make_atom] of erl_term.h. *)
Definition make_atom (n : Z) : Z := Z.lor (Z.shiftl n 6) 11.

(** ** States to compute with *)

(** The loader puts [m1:f2/1] in the boot session, which is committed with
    code index 1 staged next; a stub for [m1:f3/0] is made then. *)
Definition boot_calls : list api_call :=
  [call_export_put (make_atom 1) (make_atom 2) 1;
   call_end_staging true 1;
   call_get_or_make_stub (make_atom 1) (make_atom 3) 0].

Definition state_of (r : result state) : state :=
  match r with
  | Ok st => st
  | Fault _ => @init_export_table interpreter
  end.

Definition booted : state := state_of (@run interpreter (@init_export_table interpreter) boot_calls).

(** The same with the JIT, a staging session started and [m1:f2/1] put
    again. *)
Definition jit_calls : list api_call :=
  boot_calls ++ [call_start_staging; call_export_put (make_atom 1) (make_atom 2) 1].

Definition booted_jit : state :=
  state_of (@run jit (@init_export_table jit) jit_calls).

(** What other threads do while a call of [erts_export_get_or_make_stub]
    for [m1:f9/0] waits for the lock: the loader, in a staging session,
    puts the same function, and the session is committed. *)
Definition raced_wait : list api_call :=
  [call_start_staging; call_export_put (make_atom 1) (make_atom 9) 0;
   call_end_staging true 2].

Definition raced : state :=
  match @erts_export_get_or_make_stub_conc interpreter 2 [raced_wait] booted
          (make_atom 1) (make_atom 9) 0 with
  | Ok (_, st) => st
  | Fault _ => booted
  end.

(** Three loads served during one such wait: the second puts [m1:f9/0],
    and the third commits with the code index staged next that was the
    staging one before the first, so that the active code index is again
    what it was. *)
Definition aba_wait : list api_call :=
  [call_start_staging; call_end_staging true 2;
   call_start_staging; call_export_put (make_atom 1) (make_atom 9) 0;
   call_end_staging true 0;
   call_start_staging; call_end_staging true 1].

Definition aba_raced : state :=
  match @erts_export_get_or_make_stub_conc interpreter 1 [aba_wait] booted
          (make_atom 1) (make_atom 9) 0 with
  | Ok (_, st) => st
  | Fault _ => booted
  end.


Definition blob_of (st : state) (b : nat) : export_blob :=
  default (MkBlob (MkExport [] 0 0 0 0 (MkMFA 0 0 0) 0 0) []) (heap st !! b).

Definition table_of (st : state) (c : nat) : list entry_ptr :=
  default [] (export_tables st !! c).

(** ** Views of the state used by the statements *)

Section views.
Context {platform : Platform}.

(** The key of the record an entry points to. *)
Definition entry_mfa (st : state) (p : entry_ptr) : result ErtsCodeMFA :=
  do e <- load_entry st p;
  do x <- load_export st (ep e);
  Ok (info_mfa x).

Definition entry_at (st : state) (b i : nat) (e : export_entry) : Prop :=
  ∃ bl, heap st !! b = Some bl ∧ entryv bl !! i = Some e.

Definition in_table (st : state) (c j : nat) (p : entry_ptr) : Prop :=
  ∃ t, export_tables st !! c = Some t ∧ t !! j = Some p.

(** Generation [c] holds an entry of blob [b]. *)
Definition holds (st : state) (c b : nat) : Prop :=
  ∃ j i, in_table st c j (blob_entry b i).

Definition blob_mfa (st : state) (b : nat) : option ErtsCodeMFA :=
  (λ bl, info_mfa (exp bl)) <$> heap st !! b.

(** The blob the template branch of [export_alloc] builds at address [b]
    for key [k]. *)
Definition stub_blob (b : nat) (k : ErtsCodeMFA) : export_blob :=
  MkBlob
    (MkExport
       (replicate ERTS_NUM_CODE_IX (trampoline_address (in_blob b)) ++
        replicate (ERTS_ADDRESSV_SIZE - ERTS_NUM_CODE_IX) uninitialized)
       (-1) 0 0 0 k
       (if BeamOpsAreInitialized then op_call_error_handler else 0) 0)
    (replicate ERTS_NUM_CODE_IX (MkEntry (-1) (in_blob b))).

(** [export_free] called on the entries [l] of blob [b], one after the
    other. *)
Fixpoint export_free_all (st : state) (b : nat) (l : list nat) : result state :=
  match l with
  | [] => Ok st
  | i :: l' => do st <- export_free st (blob_entry b i); export_free_all st b l'
  end.

(** ** Well-formed states

    The shape every function of export.c keeps: blobs have
    [ERTS_NUM_CODE_IX] entries that point to the blob's own record; a
    table lists entries of live blobs, each numbered with its place in the
    table, no entry twice and no key twice; an entry with an index is in
    a table. *)
Record wf (st : state) : Prop := MkWf {
  wf_tables : length (export_tables st) = ERTS_NUM_CODE_IX;
  wf_blob : ∀ b bl, heap st !! b = Some bl →
    length (entryv bl) = ERTS_NUM_CODE_IX
    ∧ length (addresses (exp bl)) = ERTS_ADDRESSV_SIZE;
  wf_entry : ∀ b i e, entry_at st b i e → ep e = in_blob b ∧ -1 ≤ slot_index e;
  wf_table : ∀ c j p, in_table st c j p →
    ∃ b i e, p = blob_entry b i ∧ entry_at st b i e ∧ slot_index e = Z.of_nat j;
  wf_owner : ∀ b i e, entry_at st b i e → 0 ≤ slot_index e →
    ∃ c, in_table st c (Z.to_nat (slot_index e)) (blob_entry b i);
  wf_one_table : ∀ c1 c2 j1 j2 p,
    in_table st c1 j1 p → in_table st c2 j2 p → c1 = c2;
  wf_one_key : ∀ c j1 j2 b1 i1 b2 i2,
    in_table st c j1 (blob_entry b1 i1) → in_table st c j2 (blob_entry b2 i2) →
    blob_mfa st b1 = blob_mfa st b2 → j1 = j2
}.

(** One blob per key, and no blob that no table holds. *)
Definition one_blob (st : state) : Prop :=
  ∀ b1 b2, is_Some (heap st !! b1) → blob_mfa st b1 = blob_mfa st b2 → b1 = b2.

Definition all_held (st : state) : Prop :=
  ∀ b, is_Some (heap st !! b) → ∃ c, holds st c b.

(** A state between two calls: well formed, the code indices within
    range and the staging lock free. *)
Record ok (st : state) : Prop := MkOk {
  ok_wf : wf st;
  ok_active : (erts_active_code_ix st < ERTS_NUM_CODE_IX)%nat;
  ok_staging : (erts_staging_code_ix st < ERTS_NUM_CODE_IX)%nat;
  ok_unlocked : export_staging_mtx st = false
}.

(** The discipline of code loading: what a generation other than the
    staging one holds, the active one holds; and during a staging session
    the staging generation holds what the active one holds. *)
Record inv (st : state) : Prop := MkInv {
  inv_ok : ok st;
  inv_one_blob : one_blob st;
  inv_all_held : all_held st;
  inv_chain : ∀ c b, c ≠ erts_staging_code_ix st → holds st c b →
    holds st (erts_active_code_ix st) b;
  inv_session : is_Some (debug_export_load_ix st) →
    ∀ b, holds st (erts_active_code_ix st) b → holds st (erts_staging_code_ix st) b
}.

(** The part of a turn of [erts_export_get_or_make_stub] that runs with
    the staging lock, [code_ix] being the active code index read before. *)
Definition stub_locked (code_ix : nat) (st : state) (mod_ func arity : Z)
    : result (export_ptr * state) :=
  do st <- export_staging_lock st;
  do (res, st) <-
    if decide (erts_active_code_ix st = code_ix) then
      do (entry, st) <- index_put_entry st (erts_staging_code_ix st)
                          (init_template mod_ func arity);
      do e <- load_entry st entry;
      do st <- set_save_calls st (ep e);
      Ok (ep e, st)
    else Ok (NULL, st);
  do st <- export_staging_unlock st;
  Ok (res, st).

(** The states after the two ways a table gets a new entry: a blob is
    allocated for key [k]; entry [i] of blob [b] is numbered and appended
    to table [c], whose entries were [t]. *)
Definition alloc_state (st : state) (k : ErtsCodeMFA) : state :=
  set_total_entries_bytes
    (erts_atomic_add_nob (total_entries_bytes st) (aint_wrap sizeof_export_blob))
    (set_heap (<[erts_alloc st := stub_blob (erts_alloc st) k]> (heap st)) st).

Definition claim_state (st : state) (c : nat) (t : list entry_ptr) (b i : nat)
    (bl : export_blob) : state :=
  set_export_tables (<[c := t ++ [blob_entry b i]]> (export_tables st))
    (set_heap
       (<[b := set_entryv (<[i := MkEntry (Z.of_nat (length t)) (in_blob b)]> (entryv bl)) bl]>
          (heap st))
       st).

(** What an upsert of key [k] into table [c] that returns entry [i] of
    blob [b] has done to the state. *)
Record put_post (st : state) (c : nat) (k : ErtsCodeMFA) (b i : nat) (st' : state)
    : Prop := MkPutPost {
  pp_wf : wf st';
  pp_mfa : blob_mfa st' b = Some k;
  pp_in : ∃ j, in_table st' c j (blob_entry b i);
  pp_tables : ∀ c', c' ≠ c → export_tables st' !! c' = export_tables st !! c';
  pp_in_table : ∀ c' j p, in_table st c' j p → in_table st' c' j p;
  pp_holds : ∀ c' b', holds st' c' b' ↔ holds st c' b' ∨ (c' = c ∧ b' = b);
  pp_live : ∀ b', is_Some (heap st' !! b') ↔ is_Some (heap st !! b') ∨ b' = b;
  pp_exp : ∀ b' bl, heap st !! b' = Some bl →
    ∃ bl', heap st' !! b' = Some bl' ∧ exp bl' = exp bl;
  pp_entry : ∀ c' j b' i' e,
    in_table st c' j (blob_entry b' i') → entry_at st b' i' e → entry_at st' b' i' e;
  pp_fresh : heap st !! b = None →
    (∀ b', holds st c b' → blob_mfa st b' ≠ Some k)
    ∧ ∃ bl', heap st' !! b = Some bl' ∧ exp bl' = exp (stub_blob b k);
  pp_other : ∀ b', b' ≠ b → heap st' !! b' = heap st !! b';
  pp_active : the_active_code_index st' = the_active_code_index st;
  pp_staging : the_staging_code_index st' = the_staging_code_index st;
  pp_debug : debug_export_load_ix st' = debug_export_load_ix st
}.

(** The record after [addresses[ERTS_SAVE_CALLS_CODE_IX] =
    beam_save_calls_export], which only the JIT build does. *)
Definition save_calls_exp (x : Export) : Export :=
  if BEAMASM
  then set_addresses (<[ERTS_SAVE_CALLS_CODE_IX := beam_save_calls_export]> (addresses x)) x
  else x.

(** What [erts_export_put] and a stub made by
    [erts_export_get_or_make_stub] have done to the state, for key [k] put
    in table [c] and found in blob [b]. *)
Record stub_post (st : state) (c : nat) (k : ErtsCodeMFA) (b : nat) (st' : state)
    : Prop := MkStubPost {
  sp_wf : wf st';
  sp_mfa : blob_mfa st' b = Some k;
  sp_held : holds st' c b;
  sp_tables : ∀ c', c' ≠ c → export_tables st' !! c' = export_tables st !! c';
  sp_in_table : ∀ c' j p, in_table st c' j p → in_table st' c' j p;
  sp_holds : ∀ c' b', holds st' c' b' ↔ holds st c' b' ∨ (c' = c ∧ b' = b);
  sp_live : ∀ b', is_Some (heap st' !! b') ↔ is_Some (heap st !! b') ∨ b' = b;
  sp_keys : ∀ b', is_Some (heap st !! b') → blob_mfa st' b' = blob_mfa st b';
  sp_entry : ∀ c' j b' i' e,
    in_table st c' j (blob_entry b' i') → entry_at st b' i' e → entry_at st' b' i' e;
  sp_exp : ∀ bl, heap st !! b = Some bl →
    ∃ bl', heap st' !! b = Some bl' ∧ exp bl' = save_calls_exp (exp bl);
  sp_fresh : heap st !! b = None →
    (∀ b', holds st c b' → blob_mfa st b' ≠ Some k)
    ∧ ∃ bl', heap st' !! b = Some bl'
        ∧ exp bl' = save_calls_exp (exp (stub_blob b k));
  sp_other : ∀ b', b' ≠ b → heap st' !! b' = heap st !! b';
  sp_active : the_active_code_index st' = the_active_code_index st;
  sp_staging : the_staging_code_index st' = the_staging_code_index st;
  sp_debug : debug_export_load_ix st' = debug_export_load_ix st
}.

(** The record after [disp->addresses[dst_ix] = disp->addresses[src_ix]]. *)
Definition staged_exp (src_ix dst_ix : nat) (x : Export) : Export :=
  match addresses x !! src_ix with
  | Some a => set_addresses (<[dst_ix := a]> (addresses x)) x
  | None => x
  end.

(** What holds of the state [st'] of [export_start_staging] when it is
    about to look at entry [i] of the source table [t], the state at the
    start of the loop being [st]. *)
Record staging_inv (st : state) (src_ix dst_ix : nat) (t : list entry_ptr)
    (i : nat) (st' : state) : Prop := MkStagingInv {
  si_wf : wf st';
  si_live : ∀ b, is_Some (heap st' !! b) ↔ is_Some (heap st !! b);
  si_keys : ∀ b, blob_mfa st' b = blob_mfa st b;
  si_tables : ∀ c, c ≠ dst_ix → export_tables st' !! c = export_tables st !! c;
  si_in_table : ∀ c j p, in_table st c j p → in_table st' c j p;
  si_holds : ∀ c b, holds st' c b → holds st c b ∨ (c = dst_ix ∧ holds st src_ix b);
  si_done : ∀ j b i0, (j < i)%nat → t !! j = Some (blob_entry b i0) →
    holds st' dst_ix b;
  si_exp_done : ∀ j b i0 bl, (j < i)%nat → t !! j = Some (blob_entry b i0) →
    heap st !! b = Some bl →
    ∃ bl', heap st' !! b = Some bl' ∧ exp bl' = staged_exp src_ix dst_ix (exp bl);
  si_exp_todo : ∀ b bl, heap st !! b = Some bl →
    (∀ j i0, t !! j = Some (blob_entry b i0) → (i ≤ j)%nat) →
    ∃ bl', heap st' !! b = Some bl' ∧ exp bl' = exp bl;
  si_mtx : export_staging_mtx st' = export_staging_mtx st;
  si_active : the_active_code_index st' = the_active_code_index st;
  si_staging : the_staging_code_index st' = the_staging_code_index st;
  si_debug : debug_export_load_ix st' = debug_export_load_ix st
}.

(** One turn of the loop of [export_start_staging]. *)
Definition export_start_staging_turn (i : nat) (src_ix dst_ix : nat) (st : state)
    : result state :=
  do src_entry <- erts_index_lookup st src_ix i;
  do e <- load_entry st src_entry;
  do x <- load_export st (ep e);
  do a <- of_option OutOfBounds (addresses x !! src_ix);
  do st <- store_address st (ep e) dst_ix a;
  do (_, st) <- index_put_entry st dst_ix src_entry;
  Ok st.


(** The byte counter counts the live blobs, in the arithmetic of
    [erts_aint_t]. *)
Definition bytes_ok (st : state) : Prop :=
  total_entries_bytes st
  = aint_wrap (sizeof_export_blob * Z.of_nat (size (heap st))).



(** A table that can take one more entry, and one that cannot. *)
Definition table_room (st : state) (c : nat) : Prop :=
  ∃ t, export_tables st !! c = Some t ∧ Z.of_nat (length t) < EXPORT_LIMIT.

Definition table_full (st : state) (c : nat) : Prop :=
  ∃ t, export_tables st !! c = Some t ∧ EXPORT_LIMIT ≤ Z.of_nat (length t).

(** No entry of table [c] is for key [k]. *)
Definition absent (st : state) (c : nat) (k : ErtsCodeMFA) : Prop :=
  ∀ b, holds st c b → blob_mfa st b ≠ Some k.


End views.

(** * Proofs *)

Section proofs.
Context {platform : Platform}.

Lemma rbind_Ok {A B : Type} (r : result A) (k : A → result B) (y : B) :
  rbind r k = Ok y → ∃ x, r = Ok x ∧ k x = Ok y.
Proof. destruct r as [x|]; [|done]. simpl. eauto. Qed.

Lemma of_option_Ok {A : Type} (f : fault) (o : option A) (a : A) :
  of_option f o = Ok a ↔ o = Some a.
Proof. destruct o; simpl; split; congruence. Qed.

(** ** Keys, hashes and the comparison *)

Lemma export_hash_mfa (st : state) (p : entry_ptr) (k : ErtsCodeMFA) :
  entry_mfa st p = Ok k →
  export_hash st p = Ok (EXPORT_HASH (mfa_module k) (mfa_function k) (mfa_arity k)).
Proof.
  unfold entry_mfa, export_hash.
  destruct (load_entry st p) as [e|]; simpl; [|done].
  destruct (load_export st (ep e)) as [x|]; simpl; [|done].
  by intros [= <-].
Qed.

Lemma export_cmp_mfa (st : state) (p q : entry_ptr) (k k' : ErtsCodeMFA) :
  entry_mfa st p = Ok k → entry_mfa st q = Ok k' →
  export_cmp st p q = Ok (if decide (k = k') then 0 else 1).
Proof.
  unfold entry_mfa, export_cmp.
  destruct (load_entry st p) as [e|]; simpl; [|done].
  destruct (load_entry st q) as [e'|]; simpl; [|done].
  destruct (load_export st (ep e)) as [x|]; simpl; [|done].
  destruct (load_export st (ep e')) as [x'|]; simpl; [|done].
  intros [= <-] [= <-]. f_equal.
  destruct (info_mfa x) as [m f a], (info_mfa x') as [m' f' a']; simpl.
  destruct (Z.eqb_spec m m'), (Z.eqb_spec f f'), (Z.eqb_spec a a'); simpl;
    case_decide; congruence.
Qed.

(** C7: the hash of an entry is the wrapped product of the two atom
    values exclusive-ored with the arity, whatever the state and wherever
    the entry lives; [export_cmp] is zero exactly when module, function
    and arity are all equal, so that two keys that differ in the arity
    alone compare unequal (and, as it happens, never have the same hash
    value). *)
Theorem export_hash_cmp_structural (st st' : state) (p q p' : entry_ptr)
    (k k' : ErtsCodeMFA) :
  entry_mfa st p = Ok k → entry_mfa st q = Ok k' → entry_mfa st' p' = Ok k →
  export_hash st p =
    Ok (Z.lxor (Uint_wrap (atom_val (mfa_module k) * atom_val (mfa_function k)))
          (mfa_arity k))
  ∧ export_hash st' p' = export_hash st p
  ∧ ∃ c, export_cmp st p q = Ok c
      ∧ (c = 0 ↔ mfa_module k = mfa_module k' ∧ mfa_function k = mfa_function k'
                 ∧ mfa_arity k = mfa_arity k')
      ∧ (mfa_module k = mfa_module k' → mfa_function k = mfa_function k' →
         mfa_arity k ≠ mfa_arity k' →
         c ≠ 0 ∧ export_hash st p ≠ export_hash st q).
Proof.
  intros Hp Hq Hp'.
  rewrite (export_hash_mfa _ _ _ Hp), (export_hash_mfa _ _ _ Hp'),
    (export_hash_mfa _ _ _ Hq), (export_cmp_mfa _ _ _ _ _ Hp Hq).
  split; [done|]. split; [done|].
  eexists; split; [done|]. split.
  - case_decide as Hk; [subst; done|].
    split; [done|]. intros (? & ? & ?). destruct Hk.
    destruct k, k'; simpl in *; congruence.
  - intros Hm Hf Ha. split.
    + case_decide as Hk; [subst; done | done].
    + unfold EXPORT_HASH. rewrite Hm, Hf. intros [= Hx].
      apply Ha.
      apply (f_equal (Z.lxor (Uint_wrap (atom_val (mfa_module k') *
                                         atom_val (mfa_function k'))))) in Hx.
      by rewrite <- !Z.lxor_assoc, !Z.lxor_nilpotent, !Z.lxor_0_l in Hx.
Qed.

(** ** The scan for a free entry *)

Lemma export_alloc_scan_free (l : list export_entry) (n : nat) :
  (∃ i e, l !! i = Some e ∧ slot_index e < 0) →
  ∃ i e, export_alloc_scan l n = Ok (n + i)%nat ∧ l !! i = Some e ∧ slot_index e < 0
    ∧ ∀ j e', (j < i)%nat → l !! j = Some e' → 0 ≤ slot_index e'.
Proof.
  revert n. induction l as [|x l IH]; intros n (i & e & Hi & He).
  - by rewrite lookup_nil in Hi.
  - simpl. destruct (Z.leb_spec 0 (slot_index x)) as [Hx|Hx].
    + destruct i as [|i]; [simpl in Hi; simplify_eq; lia|].
      destruct (IH (S n)) as (i' & e' & Hs & Hi' & He' & Hlow); [by eauto|].
      exists (S i'), e'. rewrite Hs. split; [f_equal; lia|].
      split; [done|]. split; [done|].
      intros [|j] e'' Hj Hj'; simpl in Hj'; [by simplify_eq|].
      apply (Hlow j); [lia | done].
    + exists 0%nat, x. split; [f_equal; lia|]. split; [done|]. split; [done|].
      intros j e' Hj. lia.
Qed.

Lemma export_alloc_scan_full (l : list export_entry) (n : nat) :
  (∀ i e, l !! i = Some e → 0 ≤ slot_index e) →
  export_alloc_scan l n = Fault OutOfBounds.
Proof.
  revert n. induction l as [|x l IH]; intros n Hall; [done|].
  simpl. destruct (Z.leb_spec 0 (slot_index x)) as [Hx|Hx].
  - apply IH. intros i e Hi. by apply (Hall (S i)).
  - specialize (Hall 0%nat x eq_refl). lia.
Qed.

(** C9: in the branch of [export_alloc] that reuses a blob, when the blob
    has an entry whose index is -1 the scan stops before
    [ERTS_NUM_CODE_IX] at the first such entry, which is the one
    returned, and leaves the state as it was; when every entry of the
    blob is assigned the scan reads [entryv] past its end. *)
Theorem export_alloc_reuse_scan (st : state) (tmpl_e : entry_ptr)
    (te : export_entry) (b : nat) (blob : export_blob) :
  load_entry st tmpl_e = Ok te → slot_index te ≠ -1 → ep te = in_blob b →
  heap st !! b = Some blob →
  length (entryv blob) = ERTS_NUM_CODE_IX →
  (∀ i e, entryv blob !! i = Some e → -1 ≤ slot_index e) →
  ((∃ i e, entryv blob !! i = Some e ∧ slot_index e = -1) →
     ∃ ix e, export_alloc st tmpl_e = Ok (blob_entry b ix, st)
       ∧ (ix < ERTS_NUM_CODE_IX)%nat
       ∧ entryv blob !! ix = Some e ∧ slot_index e = -1
       ∧ ∀ j e', (j < ix)%nat → entryv blob !! j = Some e' → slot_index e' ≠ -1)
  ∧ ((∀ i e, entryv blob !! i = Some e → 0 ≤ slot_index e) →
     export_alloc st tmpl_e = Fault OutOfBounds).
Proof.
  intros Hte Hidx Hep Hb Hlen Hrange.
  assert (Hpre : export_alloc st tmpl_e =
      do ix <- export_alloc_scan (entryv blob) 0; Ok (blob_entry b ix, st)).
  { unfold export_alloc, entry_to_blob, load_blob.
    rewrite Hte. simpl. destruct (Z.eqb_spec (slot_index te) (-1)); [done|].
    rewrite Hep. simpl. by rewrite Hb. }
  rewrite Hpre. split.
  - intros (i & e & Hi & He).
    destruct (export_alloc_scan_free (entryv blob) 0) as (ix & e' & Hs & Hix & He' & Hlow).
    { exists i, e. split; [done | lia]. }
    exists ix, e'. rewrite Hs. simpl. split; [done|].
    split; [rewrite <- Hlen; by eapply lookup_lt_Some|].
    split; [done|]. split; [specialize (Hrange _ _ Hix); lia|].
    intros j e'' Hj Hj'. specialize (Hlow _ _ Hj Hj'). lia.
  - intros Hall. by rewrite export_alloc_scan_full.
Qed.

(** ** A new blob *)

Lemma export_alloc_init_fold (b n : nat) (x : Export) (l : list export_entry) :
  (n ≤ length l)%nat → (n ≤ length (addresses x))%nat →
  foldl (export_alloc_init_ix b) (MkBlob x l) (seq 0 n) =
  MkBlob
    (set_addresses (replicate n (trampoline_address (in_blob b)) ++ drop n (addresses x)) x)
    (replicate n (MkEntry (-1) (in_blob b)) ++ drop n l).
Proof.
  induction n as [|n IH]; intros Hl Ha.
  - simpl. rewrite !drop_0. by destruct x.
  - rewrite seq_S, foldl_app, IH by lia. simpl.
    unfold export_alloc_init_ix, erts_activate_export_trampoline. simpl.
    assert (Hins : ∀ (A : Type) (v : A) (k : list A), (n < length k)%nat →
              <[n := v]> (replicate n v ++ drop n k) = replicate (S n) v ++ drop (S n) k).
    { intros A v k Hk.
      destruct (lookup_lt_is_Some_2 k n Hk) as [y Hy].
      rewrite (drop_S _ _ _ Hy).
      rewrite insert_app_r_alt by (rewrite length_replicate; lia).
      rewrite length_replicate, Nat.sub_diag, replicate_S_end, <- app_assoc.
      done. }
    rewrite !Hins by lia. by destruct x.
Qed.

Lemma erts_alloc_fresh (st : state) : heap st !! erts_alloc st = None.
Proof.
  unfold erts_alloc. apply (not_elem_of_dom (D := gset nat)).
  apply (is_fresh (dom (heap st))).
Qed.

Lemma ERTS_ADDRESSV_SIZE_ge : (ERTS_NUM_CODE_IX ≤ ERTS_ADDRESSV_SIZE)%nat.
Proof. unfold ERTS_ADDRESSV_SIZE. destruct BEAMASM; lia. Qed.

Lemma export_alloc_template (st : state) (tmpl_e : entry_ptr)
    (te : export_entry) (tmpl : Export) :
  load_entry st tmpl_e = Ok te → slot_index te = -1 →
  load_export st (ep te) = Ok tmpl →
  export_alloc st tmpl_e =
    Ok (blob_entry (erts_alloc st) 0,
        set_total_entries_bytes
          (erts_atomic_add_nob (total_entries_bytes st) (aint_wrap sizeof_export_blob))
          (set_heap (<[erts_alloc st := stub_blob (erts_alloc st) (info_mfa tmpl)]> (heap st))
             st)).
Proof.
  intros Hte Hidx Htmpl. unfold export_alloc. rewrite Hte. simpl.
  rewrite Hidx. simpl. rewrite Htmpl. simpl.
  pose proof ERTS_ADDRESSV_SIZE_ge as Hge.
  rewrite export_alloc_init_fold by (simpl; rewrite length_replicate; lia).
  unfold stub_blob, set_addresses. simpl.
  rewrite !drop_replicate, Nat.sub_diag. simpl. rewrite app_nil_r.
  by destruct (info_mfa tmpl).
Qed.

(** C5 (as amended): called with a template, [export_alloc] returns entry
    0 of a blob at an address that was free, adds the blob's size to the
    byte counter and leaves the tables alone.  The record of the blob has
    the template's module, function and arity, [bif_number] -1,
    [is_bif_traced] 0, a zeroed [info], a trampoline whose second word is
    zero and whose first word is the address of [op_call_error_handler]
    if the BEAM instructions are initialised and zero if they are not,
    and the trampoline's address as the dispatch address of every code
    index; every entry of the blob is unassigned and points to that
    record. *)
Theorem export_alloc_template_blob (st : state) (tmpl_e : entry_ptr)
    (te : export_entry) (tmpl : Export) :
  load_entry st tmpl_e = Ok te → slot_index te = -1 →
  load_export st (ep te) = Ok tmpl →
  ∃ b st' blob,
    export_alloc st tmpl_e = Ok (blob_entry b 0, st')
    ∧ heap st !! b = None
    ∧ heap st' = <[b := blob]> (heap st)
    ∧ export_tables st' = export_tables st
    ∧ total_entries_bytes st' =
        erts_atomic_add_nob (total_entries_bytes st) (aint_wrap sizeof_export_blob)
    ∧ mfa_module (info_mfa (exp blob)) = mfa_module (info_mfa tmpl)
    ∧ mfa_function (info_mfa (exp blob)) = mfa_function (info_mfa tmpl)
    ∧ mfa_arity (info_mfa (exp blob)) = mfa_arity (info_mfa tmpl)
    ∧ bif_number (exp blob) = -1 ∧ is_bif_traced (exp blob) = 0
    ∧ info_op (exp blob) = 0 ∧ info_gen_bp (exp blob) = 0
    ∧ trampoline_op (exp blob) =
        (if BeamOpsAreInitialized then op_call_error_handler else 0)
    ∧ trampoline_arg (exp blob) = 0
    ∧ length (addresses (exp blob)) = ERTS_ADDRESSV_SIZE
    ∧ (∀ ix, (ix < ERTS_NUM_CODE_IX)%nat →
         addresses (exp blob) !! ix = Some (trampoline_address (in_blob b)))
    ∧ length (entryv blob) = ERTS_NUM_CODE_IX
    ∧ (∀ ix e, entryv blob !! ix = Some e → slot_index e = -1 ∧ ep e = in_blob b).
Proof.
  intros Hte Hidx Htmpl.
  eexists _, _, _. split; [by eapply export_alloc_template|].
  split; [apply erts_alloc_fresh|]. split; [done|].
  pose proof ERTS_ADDRESSV_SIZE_ge as Hge.
  simpl. repeat (split; [done|]).
  split; [rewrite length_app, !length_replicate; lia|].
  split.
  { intros ix Hix. rewrite lookup_app_l by (rewrite length_replicate; lia).
    by apply lookup_replicate_2. }
  split; [by rewrite length_replicate|].
  intros ix e [-> _]%lookup_replicate. done.
Qed.

(** ** Freeing *)

Lemma aint_wrap_small (z : Z) : - 2 ^ 63 ≤ z < 2 ^ 63 → aint_wrap z = z.
Proof. intros Hz. unfold aint_wrap. rewrite Z.mod_small; lia. Qed.

Lemma erts_atomic_sub_sizeof (c s : Z) :
  0 < s < 2 ^ 63 → - 2 ^ 63 ≤ c - s < 2 ^ 63 →
  erts_atomic_add_nob c (aint_wrap (Uint_wrap (- s))) = c - s.
Proof.
  intros Hs Hc. unfold erts_atomic_add_nob.
  assert (Uint_wrap (- s) = 2 ^ 64 - s) as ->.
  { unfold Uint_wrap. symmetry. apply (Z.mod_unique _ _ (-1)); lia. }
  assert (aint_wrap (2 ^ 64 - s) = - s) as ->.
  { unfold aint_wrap.
    replace (2 ^ 64 - s + 2 ^ 63) with (2 ^ 63 - s + 1 * 2 ^ 64) by lia.
    rewrite Z.mod_add by lia. rewrite Z.mod_small; lia. }
  apply aint_wrap_small. lia.
Qed.

Lemma export_free_scan_spec (l : list export_entry) (i n : nat) :
  (i + n ≤ length l)%nat →
  ∃ r, export_free_scan l i n = Ok r
    ∧ (r = true ↔ ∃ j e, (i ≤ j < i + n)%nat ∧ l !! j = Some e ∧ 0 ≤ slot_index e).
Proof.
  revert i. induction n as [|n IH]; intros i Hlen; simpl.
  - exists false. split; [done|]. split; [done|]. intros (j & _ & ? & _). lia.
  - destruct (lookup_lt_is_Some_2 l i) as [e He]; [lia|]. rewrite He. simpl.
    destruct (Z.leb_spec 0 (slot_index e)) as [Hx|Hx].
    + exists true. split; [done|]. split; [|done]. intros _.
      exists i, e. split; [lia | done].
    + destruct (IH (S i)) as (r & Hr & Hiff); [lia|].
      exists r. split; [done|]. rewrite Hiff. split.
      * intros (j & e' & Hj & Hl & Hs). exists j, e'. split; [lia | done].
      * intros (j & e' & Hj & Hl & Hs). exists j, e'.
        destruct (decide (j = i)) as [->|]; [simplify_eq; lia|].
        split; [lia | done].
Qed.

Lemma export_free_step (st : state) (b i : nat) (bl : export_blob) (e : export_entry) :
  heap st !! b = Some bl → length (entryv bl) = ERTS_NUM_CODE_IX →
  entryv bl !! i = Some e → ep e = in_blob b →
  ((∃ j e', j ≠ i ∧ entryv bl !! j = Some e' ∧ 0 ≤ slot_index e') →
     export_free st (blob_entry b i) =
       Ok (set_heap (<[b := set_entryv (<[i := MkEntry (-1) (in_blob b)]> (entryv bl)) bl]>
                       (heap st)) st))
  ∧ ((∀ j e', j ≠ i → entryv bl !! j = Some e' → slot_index e' < 0) →
     export_free st (blob_entry b i) =
       Ok (set_total_entries_bytes
             (erts_atomic_add_nob (total_entries_bytes st)
                (aint_wrap (Uint_wrap (- sizeof_export_blob))))
             (set_heap (delete b (heap st)) st))).
Proof.
  intros Hb Hlen Hi Hep.
  assert (Hi' : (i < length (entryv bl))%nat) by by eapply lookup_lt_Some.
  set (l' := <[i := MkEntry (-1) (in_blob b)]> (entryv bl)).
  destruct (export_free_scan_spec l' 0 ERTS_NUM_CODE_IX) as (r & Hr & Hiff).
  { unfold l'. rewrite length_insert. lia. }
  assert (Hpre : export_free st (blob_entry b i) =
    if r then Ok (set_heap (<[b := set_entryv l' bl]> (heap st)) st)
    else Ok (set_total_entries_bytes
             (erts_atomic_add_nob (total_entries_bytes st)
                (aint_wrap (Uint_wrap (- sizeof_export_blob))))
             (set_heap (delete b (heap st)) st))).
  { unfold export_free, entry_to_blob, load_entry, store_entry, load_blob.
    rewrite Hb. simpl. rewrite Hi. simpl. rewrite Hep. simpl.
    rewrite decide_True by done. simpl.
    rewrite lookup_insert_eq. simpl. fold l'. rewrite Hr. simpl.
    destruct r; [done|]. unfold erts_free, load_blob. simpl.
    rewrite lookup_insert_eq. simpl. by rewrite delete_insert_eq. }
  rewrite Hpre. split.
  - intros (j & e' & Hj & Hl & Hs).
    assert (r = true) as ->; [|done].
    apply Hiff. exists j, e'. split.
    { apply lookup_lt_Some in Hl. lia. }
    unfold l'. by rewrite list_lookup_insert_ne.
  - intros Hnone. destruct r; [|done].
    destruct Hiff as [Hiff _]. destruct (Hiff eq_refl) as (j & e' & Hj & Hl & Hs).
    unfold l' in Hl. destruct (decide (j = i)) as [->|Hne].
    + rewrite list_lookup_insert_eq in Hl by done. simplify_eq. simpl in Hs. lia.
    + rewrite list_lookup_insert_ne in Hl by done.
      specialize (Hnone _ _ Hne Hl). lia.
Qed.

Lemma export_free_all_last (b : nat) (l : list nat) :
  ∀ (st : state) (bl : export_blob) (x : nat),
  heap st !! b = Some bl → length (entryv bl) = ERTS_NUM_CODE_IX →
  (∀ i e, entryv bl !! i = Some e → ep e = in_blob b) →
  NoDup (x :: l) →
  (∀ i, i ∈ x :: l ↔ ∃ e, entryv bl !! i = Some e ∧ 0 ≤ slot_index e) →
  (∀ l1 l2, x :: l = l1 ++ l2 → l2 ≠ [] →
     ∃ st1, export_free_all st b l1 = Ok st1 ∧ is_Some (heap st1 !! b)
       ∧ total_entries_bytes st1 = total_entries_bytes st)
  ∧ ∃ st', export_free_all st b (x :: l) = Ok st' ∧ heap st' !! b = None
      ∧ total_entries_bytes st' =
          erts_atomic_add_nob (total_entries_bytes st)
            (aint_wrap (Uint_wrap (- sizeof_export_blob))).
Proof.
  induction l as [|y l IH]; intros st bl x Hb Hlen Hep Hnd Hassigned.
  - destruct (proj1 (Hassigned x)) as (e & Hx & Hs); [by left|].
    destruct (export_free_step st b x bl e Hb Hlen Hx (Hep _ _ Hx)) as [_ Hfree].
    split.
    + intros [|z l1] l2 Heq Hl2.
      * exists st. by rewrite Hb.
      * destruct l1; simplify_eq/=.
    + simpl. rewrite Hfree.
      * simpl. eexists. split; [done|]. simpl. by rewrite lookup_delete_eq.
      * intros j e' Hj Hl. destruct (Z.lt_ge_cases (slot_index e') 0); [done|].
        assert (Hin : j ∈ [x]) by (apply Hassigned; eauto).
        by apply list_elem_of_singleton in Hin.
  - destruct (proj1 (Hassigned x)) as (e & Hx & Hs); [by left|].
    destruct (proj1 (Hassigned y)) as (e' & Hy & Hs'); [by right; left|].
    apply NoDup_cons in Hnd as [Hxl Hnd].
    destruct (export_free_step st b x bl e Hb Hlen Hx (Hep _ _ Hx)) as [Hkeep _].
    assert (Hyx : y ≠ x).
    { intros ->. apply Hxl. by left. }
    specialize (Hkeep ltac:(by exists y, e')).
    set (bl1 := set_entryv (<[x := MkEntry (-1) (in_blob b)]> (entryv bl)) bl) in *.
    set (st1 := set_heap (<[b := bl1]> (heap st)) st) in *.
    destruct (IH st1 bl1 y) as [IH1 (st' & IH2 & Hgone & Htot)].
    { simpl. by rewrite lookup_insert_eq. }
    { simpl. by rewrite length_insert. }
    { simpl. intros i e0 Hi. destruct (decide (i = x)) as [->|Hne].
      - rewrite list_lookup_insert_eq in Hi by by eapply lookup_lt_Some.
        by simplify_eq.
      - rewrite list_lookup_insert_ne in Hi by done. eauto. }
    { done. }
    { intros i. simpl. destruct (decide (i = x)) as [->|Hne].
      - rewrite list_lookup_insert_eq by by eapply lookup_lt_Some. split.
        + intros Hin. done.
        + intros (e0 & [= <-] & Hs0). simpl in Hs0. lia.
      - rewrite list_lookup_insert_ne by done. rewrite <- Hassigned.
        rewrite (elem_of_cons (y :: l) i x). split; [by right|]. by intros [?|?]. }
    split.
    + intros [|z l1] l2 Heq Hl2.
      * exists st. by rewrite Hb.
      * injection Heq as <- Heq. simpl. rewrite Hkeep. simpl.
        destruct (IH1 l1 l2 Heq Hl2) as (st2 & ? & ? & ?). by exists st2.
    + exists st'. change (export_free_all st b (x :: y :: l)) with
        (do st <- export_free st (blob_entry b x); export_free_all st b (y :: l)).
      rewrite Hkeep. simpl. done.
Qed.

(** C2: [export_free] marks the entry unassigned.  If another entry of
    the blob is assigned, the blob stays allocated, with that one entry
    changed, and the byte counter keeps its value; if none is, the blob
    is deallocated and the counter goes down by the size of a blob.
    Hence, freeing the assigned entries of a blob one after the other, in
    any order, leaves the blob allocated and the counter unchanged until
    the last of them is freed, which deallocates it. *)
Theorem export_free_last_reference (st : state) (b : nat) (bl : export_blob) :
  heap st !! b = Some bl → length (entryv bl) = ERTS_NUM_CODE_IX →
  (∀ i e, entryv bl !! i = Some e → ep e = in_blob b) →
  0 < sizeof_export_blob < 2 ^ 63 →
  - 2 ^ 63 ≤ total_entries_bytes st - sizeof_export_blob < 2 ^ 63 →
  (∀ i e, entryv bl !! i = Some e →
     ∃ st', export_free st (blob_entry b i) = Ok st'
       ∧ export_tables st' = export_tables st
       ∧ (∀ b', b' ≠ b → heap st' !! b' = heap st !! b')
       ∧ ((∃ j e', j ≠ i ∧ entryv bl !! j = Some e' ∧ 0 ≤ slot_index e') →
            heap st' !! b =
              Some (set_entryv (<[i := MkEntry (-1) (in_blob b)]> (entryv bl)) bl)
            ∧ total_entries_bytes st' = total_entries_bytes st)
       ∧ ((∀ j e', j ≠ i → entryv bl !! j = Some e' → slot_index e' < 0) →
            heap st' !! b = None
            ∧ total_entries_bytes st' = total_entries_bytes st - sizeof_export_blob))
  ∧ (∀ l, l ≠ [] → NoDup l →
       (∀ i, i ∈ l ↔ ∃ e, entryv bl !! i = Some e ∧ 0 ≤ slot_index e) →
       (∀ l1 l2, l = l1 ++ l2 → l2 ≠ [] →
          ∃ st1, export_free_all st b l1 = Ok st1 ∧ is_Some (heap st1 !! b)
            ∧ total_entries_bytes st1 = total_entries_bytes st)
       ∧ ∃ st', export_free_all st b l = Ok st' ∧ heap st' !! b = None
           ∧ total_entries_bytes st' = total_entries_bytes st - sizeof_export_blob).
Proof.
  intros Hb Hlen Hep Hsize Htotal. split.
  - intros i e Hi.
    destruct (export_free_step st b i bl e Hb Hlen Hi (Hep _ _ Hi)) as [Hkeep Hfree].
    destruct (decide (Exists (λ je, je.1 ≠ i ∧ 0 ≤ slot_index je.2)
                        (imap pair (entryv bl)))) as [Hex|Hnex].
    + apply Exists_exists in Hex as ([j e'] & Hin & Hj & Hs). simpl in *.
      apply list_elem_of_lookup in Hin as [k Hk].
      rewrite list_lookup_imap in Hk.
      destruct (entryv bl !! k) as [e0|] eqn:Hk0; simplify_eq/=.
      assert (Hsib : ∃ j e', j ≠ i ∧ entryv bl !! j = Some e' ∧ 0 ≤ slot_index e')
        by eauto.
      eexists. split; [by apply Hkeep|]. simpl. split; [done|].
      split; [intros b' Hb'; by rewrite lookup_insert_ne|].
      split; [intros _; by rewrite lookup_insert_eq|].
      intros Hnone. specialize (Hnone _ _ Hj Hk0). lia.
    + assert (Hnone : ∀ j e', j ≠ i → entryv bl !! j = Some e' → slot_index e' < 0).
      { intros j e' Hj Hl. destruct (Z.lt_ge_cases (slot_index e') 0); [done|].
        destruct Hnex. apply Exists_exists. exists (j, e'). split; [|done].
        apply list_elem_of_lookup. exists j. by rewrite list_lookup_imap, Hl. }
      eexists. split; [by apply Hfree|]. simpl. split; [done|].
      split; [intros b' Hb'; by rewrite lookup_delete_ne|].
      split.
      * intros (j & e' & Hj & Hl & Hs). specialize (Hnone _ _ Hj Hl). lia.
      * intros _. rewrite lookup_delete_eq. split; [done|].
        by apply erts_atomic_sub_sizeof.
  - intros [|x l] Hne Hnd Hassigned; [done|].
    destruct (export_free_all_last b l st bl x Hb Hlen Hep Hnd Hassigned)
      as [Hprefix (st' & Hall & Hgone & Htot)].
    split; [done|]. exists st'. split; [done|]. split; [done|].
    rewrite Htot. by apply erts_atomic_sub_sizeof.
Qed.

(** ** Reading well-formed states *)

Lemma load_entry_at (st : state) (b i : nat) (e : export_entry) :
  load_entry st (blob_entry b i) = Ok e ↔ entry_at st b i e.
Proof.
  unfold load_entry, load_blob, entry_at. split.
  - destruct (heap st !! b) as [bl|]; simpl; [|done].
    intros ?%of_option_Ok. eauto.
  - intros (bl & -> & Hi). simpl. by apply of_option_Ok.
Qed.

Lemma entry_at_inj (st : state) (b i : nat) (e e' : export_entry) :
  entry_at st b i e → entry_at st b i e' → e = e'.
Proof. intros (bl & ? & ?) (bl' & ? & ?). congruence. Qed.

Lemma entry_mfa_at (st : state) (b i : nat) (e : export_entry) :
  wf st → entry_at st b i e → ∃ k, entry_mfa st (blob_entry b i) = Ok k
    ∧ blob_mfa st b = Some k.
Proof.
  intros Hwf He. destruct (wf_entry _ Hwf _ _ _ He) as [Hep _].
  unfold entry_mfa. rewrite (proj2 (load_entry_at _ _ _ _) He). simpl.
  destruct He as (bl & Hb & _). rewrite Hep. unfold blob_mfa. simpl.
  unfold load_blob. rewrite Hb. simpl. eauto.
Qed.

Lemma in_table_mfa (st : state) (c j : nat) (p : entry_ptr) :
  wf st → in_table st c j p →
  ∃ b i e k, p = blob_entry b i ∧ entry_at st b i e ∧ slot_index e = Z.of_nat j
    ∧ ep e = in_blob b ∧ entry_mfa st p = Ok k ∧ blob_mfa st b = Some k.
Proof.
  intros Hwf Hin. destruct (wf_table _ Hwf _ _ _ Hin) as (b & i & e & -> & He & Hs).
  destruct (entry_mfa_at _ _ _ _ Hwf He) as (k & Hk & Hbk).
  destruct (wf_entry _ Hwf _ _ _ He) as [Hep _].
  by exists b, i, e, k.
Qed.

Lemma hash_get_from_spec (st : state) (l : list entry_ptr) (tmpl : entry_ptr)
    (k : ErtsCodeMFA) :
  (∀ p, p ∈ l → ∃ kp, entry_mfa st p = Ok kp) →
  entry_mfa st tmpl = Ok k →
  ∃ r, hash_get_from st l tmpl
         (EXPORT_HASH (mfa_module k) (mfa_function k) (mfa_arity k)) = Ok r
    ∧ match r with
      | Some q => q ∈ l ∧ entry_mfa st q = Ok k
      | None => ∀ p, p ∈ l → entry_mfa st p ≠ Ok k
      end.
Proof.
  intros Hl Hk. induction l as [|p l IH].
  - exists None. split; [done|]. intros p Hp. by apply not_elem_of_nil in Hp.
  - destruct (Hl p) as [kp Hkp]; [by left|].
    destruct IH as (r & Hr & Hspec); [intros q Hq; apply Hl; by right|].
    simpl. rewrite (export_hash_mfa _ _ _ Hkp). simpl.
    rewrite (export_cmp_mfa _ _ _ _ _ Hk Hkp).
    destruct (decide (k = kp)) as [<-|Hne].
    + rewrite Z.eqb_refl. simpl. exists (Some p). split; [done|].
      split; [by left | done].
    + assert (Hrest : ∀ p', p' ∈ p :: l →
                match r with
                | Some q => q ∈ p :: l ∧ entry_mfa st q = Ok k
                | None => entry_mfa st p' ≠ Ok k
                end).
      { intros p' Hp'. destruct r as [q|].
        - destruct Hspec. split; [by right | done].
        - apply elem_of_cons in Hp' as [->|Hp']; [congruence | by apply Hspec]. }
      exists r. split.
      * destruct (_ =? _); simpl; done.
      * destruct r; [apply (Hrest p); by left | done].
Qed.

Lemma hash_get_spec (st : state) (c : nat) (t : list entry_ptr) (tmpl : entry_ptr)
    (k : ErtsCodeMFA) :
  wf st → export_tables st !! c = Some t → entry_mfa st tmpl = Ok k →
  ∃ r, hash_get st c tmpl = Ok r
    ∧ match r with
      | Some q => ∃ j b i e, q = blob_entry b i ∧ in_table st c j q
          ∧ entry_at st b i e ∧ slot_index e = Z.of_nat j ∧ ep e = in_blob b
          ∧ blob_mfa st b = Some k
      | None => ∀ j b i, in_table st c j (blob_entry b i) → blob_mfa st b ≠ Some k
      end.
Proof.
  intros Hwf Ht Hk.
  destruct (hash_get_from_spec st t tmpl k) as (r & Hr & Hspec); [|done|].
  { intros p [j Hj]%list_elem_of_lookup.
    destruct (in_table_mfa st c j p Hwf) as (?&?&?&kp&?&?&?&?&?&?); [by exists t|].
    eauto. }
  exists r. unfold hash_get, index_table. rewrite Ht. simpl.
  rewrite (export_hash_mfa _ _ _ Hk). simpl. split; [done|].
  destruct r as [q|].
  - destruct Hspec as [[j Hj]%list_elem_of_lookup Hq].
    destruct (in_table_mfa st c j q Hwf) as (b&i&e&kq&->&?&?&?&?&?); [by exists t|].
    exists j, b, i, e. split; [done|]. split; [by exists t|].
    repeat (split; [done|]). congruence.
  - intros j b i (t' & Ht' & Hj) Hb. rewrite Ht in Ht'. injection Ht' as <-.
    destruct (in_table_mfa st c j (blob_entry b i) Hwf)
      as (b' & i' & e & kq & Heq & _ & _ & _ & Hkq & Hbk); [by exists t|].
    injection Heq as <- <-.
    apply (Hspec (blob_entry b i)); [by eapply list_elem_of_lookup_2|]. congruence.
Qed.

Lemma in_table_lt (st : state) (c j : nat) (p : entry_ptr) :
  wf st → in_table st c j p → (c < ERTS_NUM_CODE_IX)%nat.
Proof.
  intros Hwf (t & Ht & _). rewrite <- (wf_tables _ Hwf). by eapply lookup_lt_Some.
Qed.

Lemma in_table_inj (st : state) (c j : nat) (p q : entry_ptr) :
  in_table st c j p → in_table st c j q → p = q.
Proof. intros (t & ? & ?) (t' & ? & ?). congruence. Qed.

(** A generation holds at most one entry of a blob. *)
Lemma holds_once (st : state) (c j j' b i i' : nat) :
  wf st → in_table st c j (blob_entry b i) → in_table st c j' (blob_entry b i') →
  j = j' ∧ i = i'.
Proof.
  intros Hwf H1 H2.
  assert (j = j') as <- by (eapply (wf_one_key _ Hwf); eauto).
  split; [done|]. pose proof (in_table_inj _ _ _ _ _ H1 H2). congruence.
Qed.

(** There are as many entries in a blob as there are generations, so a
    blob that some generation does not hold has an entry to spare. *)
Lemma free_entry_exists (st : state) (b c : nat) (bl : export_blob) :
  wf st → heap st !! b = Some bl → (c < ERTS_NUM_CODE_IX)%nat → ¬ holds st c b →
  ∃ i e, entryv bl !! i = Some e ∧ slot_index e < 0.
Proof.
  intros Hwf Hb Hc Hnot.
  destruct (decide (Exists (λ e, slot_index e < 0) (entryv bl))) as [Hex|Hall].
  { apply Exists_exists in Hex as (e & [i Hi]%list_elem_of_lookup & He). eauto. }
  exfalso.
  assert (Hfull : ∀ i e, entryv bl !! i = Some e → 0 ≤ slot_index e).
  { intros i e Hi. destruct (Z.lt_ge_cases (slot_index e) 0) as [Hlt|]; [|done].
    destruct Hall. apply Exists_exists. exists e.
    split; [by eapply list_elem_of_lookup_2 | done]. }
  destruct (wf_blob _ Hwf _ _ Hb) as [Hlen _].
  assert (Howners : ∀ n, (n ≤ ERTS_NUM_CODE_IX)%nat →
    ∃ l : list nat, length l = n ∧ NoDup l
      ∧ ∀ x, x ∈ l → (x < ERTS_NUM_CODE_IX)%nat ∧ x ≠ c
          ∧ ∃ i j, (i < n)%nat ∧ in_table st x j (blob_entry b i)).
  { induction n as [|n IH]; intros Hn.
    - exists []. split; [done|]. split; [constructor|].
      intros x Hx. by apply not_elem_of_nil in Hx.
    - destruct IH as (l & Hl & Hnd & Hprop); [lia|].
      destruct (lookup_lt_is_Some_2 (entryv bl) n) as [e He]; [lia|].
      destruct (wf_owner _ Hwf b n e) as [cn Hcn]; [by exists bl | by eapply Hfull |].
      exists (cn :: l). split; [simpl; lia|]. split.
      + constructor; [|done]. intros Hin.
        destruct (Hprop _ Hin) as (_ & _ & i & j & Hi & Hij).
        destruct (holds_once _ _ _ _ _ _ _ Hwf Hij Hcn) as [_ ->]. lia.
      + intros x [->|Hx]%elem_of_cons.
        * split; [by eapply in_table_lt|]. split.
          -- intros ->. apply Hnot. by exists (Z.to_nat (slot_index e)), n.
          -- exists n, (Z.to_nat (slot_index e)). split; [lia | done].
        * destruct (Hprop _ Hx) as (? & ? & i & j & ? & ?).
          split; [done|]. split; [done|]. exists i, j. split; [lia | done]. }
  destruct (Howners ERTS_NUM_CODE_IX) as (l & Hl & Hnd & Hprop); [done|].
  assert (Hsub : c :: l ⊆+ seq 0 ERTS_NUM_CODE_IX).
  { apply NoDup_submseteq.
    - constructor; [|done]. intros Hin. by destruct (Hprop _ Hin) as (_ & ? & _).
    - intros x [->|Hx]%elem_of_cons; apply elem_of_seq; [lia|].
      destruct (Hprop _ Hx) as (? & _). lia. }
  apply submseteq_length in Hsub. rewrite length_seq in Hsub. simpl in Hsub. lia.
Qed.

(** ** Steps that keep a state well formed *)

Lemma wf_same_entries (st st' : state) :
  export_tables st' = export_tables st →
  (∀ b i e, entry_at st' b i e ↔ entry_at st b i e) →
  (∀ b, blob_mfa st' b = blob_mfa st b) →
  (∀ b bl', heap st' !! b = Some bl' →
     length (entryv bl') = ERTS_NUM_CODE_IX
     ∧ length (addresses (exp bl')) = ERTS_ADDRESSV_SIZE) →
  wf st → wf st'.
Proof.
  intros Ht He Hk Hlen Hwf.
  assert (Hin : ∀ c j p, in_table st' c j p ↔ in_table st c j p).
  { intros c j p. unfold in_table. by rewrite Ht. }
  constructor.
  - rewrite Ht. apply Hwf.
  - done.
  - intros b i e ?%He. by eapply wf_entry.
  - intros c j p ?%Hin. destruct (wf_table _ Hwf c j p) as (b & i & e & ? & ? & ?);
      [done|]. exists b, i, e. by rewrite He.
  - intros b i e ?%He Hs. destruct (wf_owner _ Hwf b i e) as [c Hc]; [done..|].
    exists c. by apply Hin.
  - intros c1 c2 j1 j2 p ?%Hin ?%Hin. by eapply wf_one_table.
  - intros c j1 j2 b1 i1 b2 i2 ?%Hin ?%Hin. rewrite !Hk. by eapply wf_one_key.
Qed.

Lemma wf_same_heap_tables (st st' : state) :
  heap st' = heap st → export_tables st' = export_tables st → wf st → wf st'.
Proof.
  intros Hh Ht Hwf. apply (wf_same_entries st); [done| | | |done].
  - intros b i e. unfold entry_at. by rewrite Hh.
  - intros b. unfold blob_mfa. by rewrite Hh.
  - rewrite Hh. apply Hwf.
Qed.

Lemma store_address_blob (st : state) (b ix : nat) (a : Z) (bl : export_blob) :
  heap st !! b = Some bl → (ix < length (addresses (exp bl)))%nat →
  store_address st (in_blob b) ix a =
    Ok (set_heap
          (<[b := set_exp (set_addresses (<[ix := a]> (addresses (exp bl))) (exp bl)) bl]>
             (heap st)) st).
Proof.
  intros Hb Hix. unfold store_address, load_export, store_export, load_blob.
  rewrite Hb. simpl. by rewrite decide_True.
Qed.

Lemma wf_set_exp (st : state) (b : nat) (bl : export_blob) (x : Export) :
  heap st !! b = Some bl → info_mfa x = info_mfa (exp bl) →
  length (addresses x) = length (addresses (exp bl)) →
  wf st → wf (set_heap (<[b := set_exp x bl]> (heap st)) st).
Proof.
  intros Hb Hk Hlen Hwf. apply (wf_same_entries st); [done| | | |done].
  - intros b' i e. unfold entry_at. simpl. split.
    + intros (bl' & [[<- <-]|[? ?]]%lookup_insert_Some & Hi); eauto.
    + intros (bl' & Hb' & Hi). destruct (decide (b = b')) as [<-|Hne].
      * exists (set_exp x bl). rewrite lookup_insert_eq. by simplify_eq.
      * exists bl'. by rewrite lookup_insert_ne.
  - intros b'. unfold blob_mfa. simpl. destruct (decide (b = b')) as [<-|Hne].
    + rewrite lookup_insert_eq, Hb. simpl. by rewrite Hk.
    + by rewrite lookup_insert_ne.
  - simpl. intros b' bl' [[<- <-]|[? ?]]%lookup_insert_Some.
    + simpl. rewrite Hlen. by eapply wf_blob.
    + by eapply wf_blob.
Qed.

Lemma wf_alloc (st : state) (k : ErtsCodeMFA) : wf st → wf (alloc_state st k).
Proof.
  intros Hwf. pose proof (erts_alloc_fresh st) as Hfresh.
  set (b := erts_alloc st) in *.
  assert (Hin : ∀ c j p, in_table (alloc_state st k) c j p ↔ in_table st c j p) by done.
  assert (Hat : ∀ b' i e, entry_at (alloc_state st k) b' i e ↔
            (b' = b ∧ (i < ERTS_NUM_CODE_IX)%nat ∧ e = MkEntry (-1) (in_blob b))
            ∨ entry_at st b' i e).
  { intros b' i e. unfold entry_at, alloc_state. simpl. fold b. split.
    - intros (bl & [[<- <-]|[? ?]]%lookup_insert_Some & Hi).
      + simpl in Hi. apply lookup_replicate in Hi as [-> ?]. by left.
      + right. eauto.
    - intros [(-> & Hi & ->)|(bl & Hb' & Hi)].
      + exists (stub_blob b k). rewrite lookup_insert_eq. split; [done|].
        simpl. by apply lookup_replicate_2.
      + exists bl. rewrite lookup_insert_ne; [done|]. intros <-. congruence. }
  assert (Hold : ∀ b', is_Some (heap st !! b') →
            blob_mfa (alloc_state st k) b' = blob_mfa st b').
  { intros b' [bl Hb']. unfold blob_mfa, alloc_state. simpl. fold b.
    rewrite lookup_insert_ne; [done|]. intros <-. congruence. }
  assert (Hlive : ∀ c j b' i, in_table st c j (blob_entry b' i) → is_Some (heap st !! b')).
  { intros c j b' i Hc.
    destruct (wf_table _ Hwf _ _ _ Hc) as (b0 & i0 & e & [= <- <-] & (bl & ? & _) & _).
    eauto. }
  constructor.
  - apply Hwf.
  - simpl. fold b. intros b' bl [[<- <-]|[? ?]]%lookup_insert_Some.
    + simpl. rewrite length_app, !length_replicate.
      pose proof ERTS_ADDRESSV_SIZE_ge. split; [done | lia].
    + by eapply wf_blob.
  - intros b' i e [(-> & _ & ->)|He]%Hat; [done|]. by eapply wf_entry.
  - intros c j p ?%Hin.
    destruct (wf_table _ Hwf c j p) as (b' & i & e & ? & ? & ?); [done|].
    exists b', i, e. split; [done|]. split; [|done]. apply Hat. by right.
  - intros b' i e [(-> & _ & ->)|He]%Hat Hs; [simpl in Hs; lia|].
    destruct (wf_owner _ Hwf b' i e) as [c Hc]; [done..|]. by exists c.
  - intros c1 c2 j1 j2 p ?%Hin ?%Hin. by eapply wf_one_table.
  - intros c j1 j2 b1 i1 b2 i2 H1%Hin H2%Hin.
    rewrite !Hold by eauto. by eapply wf_one_key.
Qed.

Section claim.
Context (st : state) (c : nat) (t : list entry_ptr) (b i : nat)
  (bl : export_blob) (e : export_entry).
Context (Hwf : wf st) (Ht : export_tables st !! c = Some t)
  (Hb : heap st !! b = Some bl) (Hi : entryv bl !! i = Some e)
  (Hfree : slot_index e < 0).

Local Abbreviation st' := (claim_state st c t b i bl).

Lemma in_table_claim (c' j : nat) (p : entry_ptr) :
  in_table st' c' j p ↔
  in_table st c' j p ∨ (c' = c ∧ j = length t ∧ p = blob_entry b i).
Proof.
  assert (Hc : (c < length (export_tables st))%nat) by by eapply lookup_lt_Some.
  unfold in_table, claim_state. simpl. split.
  - intros (t' & Ht' & Hj). apply list_lookup_insert_Some in Ht' as [(<- & <- & _)|[? ?]].
    + apply lookup_snoc_Some in Hj as [[_ Hj]|[-> <-]]; [left; by exists t | by right].
    + left. by exists t'.
  - intros [(t' & Ht' & Hj)|(-> & -> & ->)].
    + destruct (decide (c' = c)) as [->|Hne].
      * exists (t ++ [blob_entry b i]). rewrite list_lookup_insert_eq by done.
        split; [done|]. simplify_eq. by apply lookup_app_l_Some.
      * exists t'. by rewrite list_lookup_insert_ne.
    + exists (t ++ [blob_entry b i]). rewrite list_lookup_insert_eq by done.
      split; [done|]. apply lookup_snoc_Some. by right.
Qed.

Lemma entry_at_claim (b' i' : nat) (e' : export_entry) :
  entry_at st' b' i' e' ↔
  (b' = b ∧ i' = i ∧ e' = MkEntry (Z.of_nat (length t)) (in_blob b))
  ∨ ((b' ≠ b ∨ i' ≠ i) ∧ entry_at st b' i' e').
Proof.
  assert (Hlt : (i < length (entryv bl))%nat) by by eapply lookup_lt_Some.
  unfold entry_at, claim_state. simpl. split.
  - intros (bl' & [[<- <-]|[? ?]]%lookup_insert_Some & Hi').
    + simpl in Hi'. apply list_lookup_insert_Some in Hi' as [(<- & <- & _)|[? ?]].
      * by left.
      * right. split; [by right|]. by exists bl.
    + right. split; [by left|]. by exists bl'.
  - intros [(-> & -> & ->)|[Hne (bl' & Hb' & Hi')]].
    + eexists. rewrite lookup_insert_eq. split; [done|]. simpl.
      by rewrite list_lookup_insert_eq.
    + destruct (decide (b' = b)) as [->|Hb'ne].
      * eexists. rewrite lookup_insert_eq. split; [done|]. simpl.
        simplify_eq. rewrite list_lookup_insert_ne; [done|].
        destruct Hne as [Hne|Hne]; [done | by intros ->].
      * exists bl'. by rewrite lookup_insert_ne.
Qed.

Lemma blob_mfa_claim (b' : nat) : blob_mfa st' b' = blob_mfa st b'.
Proof.
  unfold blob_mfa, claim_state. simpl. destruct (decide (b = b')) as [<-|Hne].
  - by rewrite lookup_insert_eq, Hb.
  - by rewrite lookup_insert_ne.
Qed.

Lemma heap_claim_is_Some (b' : nat) : is_Some (heap st' !! b') ↔ is_Some (heap st !! b').
Proof.
  unfold claim_state. simpl. rewrite lookup_insert_is_Some'. split; [|by right].
  intros [<-|?]; [by exists bl | done].
Qed.

Lemma exp_claim (b' : nat) (bl' : export_blob) :
  heap st !! b' = Some bl' → ∃ bl'', heap st' !! b' = Some bl'' ∧ exp bl'' = exp bl'.
Proof.
  intros Hb'. unfold claim_state. simpl. destruct (decide (b = b')) as [<-|Hne].
  - eexists. rewrite lookup_insert_eq. split; [done|]. by simplify_eq.
  - exists bl'. by rewrite lookup_insert_ne.
Qed.

Lemma holds_claim (c' b' : nat) :
  holds st' c' b' ↔ holds st c' b' ∨ (c' = c ∧ b' = b).
Proof.
  unfold holds. split.
  - intros (j & i' & [Hin|(-> & -> & [= -> ->])]%in_table_claim); [left; eauto | by right].
  - intros [(j & i' & Hin)|[-> ->]].
    + exists j, i'. apply in_table_claim. by left.
    + exists (length t), i. apply in_table_claim. by right.
Qed.

(** The entry that is claimed was in no table. *)
Lemma claimed_not_in_table (c' j : nat) : ¬ in_table st c' j (blob_entry b i).
Proof.
  intros Hin.
  destruct (wf_table _ Hwf _ _ _ Hin) as (b' & i' & e' & [= <- <-] & He' & Hs).
  assert (e' = e) as -> by (eapply entry_at_inj; [done | by exists bl]). lia.
Qed.

Lemma wf_claim :
  (∀ j b' i', in_table st c j (blob_entry b' i') → blob_mfa st b' ≠ blob_mfa st b) →
  wf st'.
Proof.
  intros Hnew.
  assert (Hc : (c < length (export_tables st))%nat) by by eapply lookup_lt_Some.
  assert (Hlt : (i < length (entryv bl))%nat) by by eapply lookup_lt_Some.
  destruct (wf_entry _ Hwf b i e) as [Hep _]; [by exists bl|].
  constructor.
  - unfold claim_state. simpl. rewrite length_insert. apply Hwf.
  - unfold claim_state. simpl. intros b' bl' [[<- <-]|[? ?]]%lookup_insert_Some.
    + simpl. rewrite length_insert. by eapply wf_blob.
    + by eapply wf_blob.
  - intros b' i' e' [(-> & -> & ->)|[_ He']]%entry_at_claim.
    + simpl. split; [done | lia].
    + by eapply wf_entry.
  - intros c' j p [Hin|(-> & -> & ->)]%in_table_claim.
    + destruct (wf_table _ Hwf c' j p) as (b' & i' & e' & -> & He' & Hs); [done|].
      exists b', i', e'. split; [done|]. split; [|done].
      apply entry_at_claim. right. split; [|done].
      destruct (decide (b' = b)) as [->|]; [|by left].
      destruct (decide (i' = i)) as [->|]; [|by right].
      by destruct (claimed_not_in_table c' j).
    + exists b, i, (MkEntry (Z.of_nat (length t)) (in_blob b)).
      split; [done|]. split; [|done]. apply entry_at_claim. by left.
  - intros b' i' e' [(-> & -> & ->)|[_ He']]%entry_at_claim Hs.
    + exists c. simpl. rewrite Nat2Z.id. apply in_table_claim. by right.
    + destruct (wf_owner _ Hwf b' i' e') as [c' Hc']; [done..|].
      exists c'. apply in_table_claim. by left.
  - intros c1 c2 j1 j2 p [H1|(-> & -> & Hp1)]%in_table_claim
      [H2|(-> & -> & Hp2)]%in_table_claim.
    + by eapply wf_one_table.
    + subst p. by destruct (claimed_not_in_table c1 j1).
    + subst p. by destruct (claimed_not_in_table c2 j2).
    + done.
  - intros c' j1 j2 b1 i1 b2 i2 [H1|(-> & -> & Hp1)]%in_table_claim
      [H2|(Hc2 & -> & Hp2)]%in_table_claim; rewrite !blob_mfa_claim; intros Hk.
    + by eapply wf_one_key.
    + subst c'. injection Hp2 as -> ->. by destruct (Hnew _ _ _ H1 Hk).
    + injection Hp1 as -> ->. by destruct (Hnew _ _ _ H2 (eq_sym Hk)).
    + done.
Qed.

End claim.

(** ** The upsert *)

Lemma index_put_entry_unfold (st : state) (c : nat) (t : list entry_ptr)
    (tmpl : entry_ptr) (found : option entry_ptr) :
  export_tables st !! c = Some t → hash_get st c tmpl = Ok found →
  index_put_entry st c tmpl =
    do (p, st) <- match found with
                  | Some p => Ok (p, st)
                  | None => export_alloc st tmpl
                  end;
    do e <- load_entry st p;
    if 0 <=? slot_index e then Ok (p, st)
    else if EXPORT_LIMIT <=? Z.of_nat (length t) then Fault Fatal
    else
      do st <- store_entry st p (MkEntry (Z.of_nat (length t)) (ep e));
      Ok (p, set_export_tables (<[c := t ++ [p]]> (export_tables st)) st).
Proof.
  intros Ht Hfound. unfold index_put_entry, index_table. rewrite Ht. simpl.
  by rewrite Hfound.
Qed.

Lemma index_put_entry_claim (st : state) (c : nat) (t : list entry_ptr) (b i : nat)
    (bl : export_blob) (e : export_entry) :
  heap st !! b = Some bl → entryv bl !! i = Some e → slot_index e < 0 →
  ep e = in_blob b →
  (do e <- load_entry st (blob_entry b i);
   if 0 <=? slot_index e then Ok (blob_entry b i, st)
   else if EXPORT_LIMIT <=? Z.of_nat (length t) then Fault Fatal
   else
     do st <- store_entry st (blob_entry b i) (MkEntry (Z.of_nat (length t)) (ep e));
     Ok (blob_entry b i,
         set_export_tables (<[c := t ++ [blob_entry b i]]> (export_tables st)) st))
  = if EXPORT_LIMIT <=? Z.of_nat (length t) then Fault Fatal
    else Ok (blob_entry b i, claim_state st c t b i bl).
Proof.
  intros Hb Hi Hfree Hep.
  assert (Hlt : (i < length (entryv bl))%nat) by by eapply lookup_lt_Some.
  unfold load_entry, store_entry, load_blob. rewrite Hb. simpl. rewrite Hi. simpl.
  destruct (Z.leb_spec 0 (slot_index e)); [lia|].
  destruct (EXPORT_LIMIT <=? Z.of_nat (length t)); [done|].
  rewrite decide_True by done. simpl. by rewrite Hep.
Qed.

(** What [index_put_entry] does, for a template made by [init_template]
    or the like (index -1) and for an entry that is in some table: it
    finds the key in table [c]; or it allocates a blob and claims its
    first entry; or it claims a free entry of the blob the given entry is
    in; or, with the key not in the table and the table full, it ends the
    emulator. *)
Lemma index_put_entry_spec (st : state) (c : nat) (t : list entry_ptr)
    (tmpl : entry_ptr) (te : export_entry) (k : ErtsCodeMFA) :
  wf st → export_tables st !! c = Some t →
  load_entry st tmpl = Ok te → entry_mfa st tmpl = Ok k →
  (slot_index te = -1 ∨ ∃ src j, in_table st src j tmpl) →
  (index_put_entry st c tmpl = Fault Fatal
   ∧ EXPORT_LIMIT ≤ Z.of_nat (length t) ∧ absent st c k)
  ∨ ∃ b i st', index_put_entry st c tmpl = Ok (blob_entry b i, st')
    ∧ ((st' = st ∧ (∃ j, in_table st c j (blob_entry b i)) ∧ blob_mfa st b = Some k)
       ∨ (slot_index te = -1 ∧ ¬ (∃ src j, in_table st src j tmpl)
          ∧ (∀ j b' i', in_table st c j (blob_entry b' i') → blob_mfa st b' ≠ Some k)
          ∧ b = erts_alloc st ∧ i = 0%nat
          ∧ st' = claim_state (alloc_state st k) c t b 0 (stub_blob b k))
       ∨ (∃ i0 bl e, tmpl = blob_entry b i0 ∧ blob_mfa st b = Some k
          ∧ ¬ holds st c b
          ∧ (∀ j b' i', in_table st c j (blob_entry b' i') → blob_mfa st b' ≠ Some k)
          ∧ heap st !! b = Some bl ∧ entryv bl !! i = Some e ∧ slot_index e < 0
          ∧ st' = claim_state st c t b i bl))
    ∧ (absent st c k → Z.of_nat (length t) < EXPORT_LIMIT).
Proof.
  intros Hwf Ht Hte Hk Hkind.
  assert (Hc : (c < ERTS_NUM_CODE_IX)%nat).
  { rewrite <- (wf_tables _ Hwf). by eapply lookup_lt_Some. }
  destruct (hash_get_spec st c t tmpl k Hwf Ht Hk) as (r & Hr & Hspec).
  rewrite (index_put_entry_unfold st c t tmpl r Ht Hr).
  destruct r as [q|].
  - (* found *)
    destruct Hspec as (j & b & i & e & -> & Hin & He & Hs & Hep & Hbk).
    right. exists b, i, st. rstep. rewrite (proj2 (load_entry_at _ _ _ _) He). rstep.
    destruct (Z.leb_spec 0 (slot_index e)); [|lia].
    split; [done|]. split; [left; eauto|].
    intros Habs. by destruct (Habs b); [exists j, i|].
  - assert (Habs : absent st c k).
    { intros b (j & i & Hin). by eapply Hspec. }
    assert (Hin_tmpl : (∃ src j, in_table st src j tmpl) → slot_index te ≠ -1).
    { intros (src & j & Hin).
      destruct (in_table_mfa st src j tmpl Hwf Hin)
        as (b & i0 & e0 & k0 & -> & He0 & Hs0 & _).
      apply load_entry_at in Hte.
      assert (te = e0) as -> by by eapply entry_at_inj. lia. }
    destruct (decide (slot_index te = -1)) as [Htempl|Hntempl].
    + (* a new blob *)
      unfold entry_mfa in Hk. rewrite Hte in Hk. simpl in Hk.
      destruct (load_export st (ep te)) as [x|] eqn:Hx; [|done].
      injection Hk as <-.
      rewrite (export_alloc_template st tmpl te x Hte Htempl Hx). rstep.
      fold (alloc_state st (info_mfa x)).
      set (b := erts_alloc st).
      rewrite (index_put_entry_claim _ c t b 0 (stub_blob b (info_mfa x))
                 (MkEntry (-1) (in_blob b))).
      * destruct (Z.leb_spec EXPORT_LIMIT (Z.of_nat (length t))); [by left|].
        right. exists b, 0%nat. eexists. split; [done|]. split; [|done].
        right. left. split; [done|].
        split; [intros Hin; by apply Hin_tmpl in Hin|]. done.
      * unfold alloc_state. simpl. by rewrite lookup_insert_eq.
      * simpl. apply lookup_replicate_2. lia.
      * simpl. lia.
      * done.
    + (* a free entry of the blob *)
      destruct Hkind as [?|(src & j & Hin)]; [done|].
      destruct (in_table_mfa st src j tmpl Hwf Hin)
        as (b & i0 & e0 & k0 & -> & He0 & Hs0 & Hep0 & Hk0 & Hbk0).
      assert (k0 = k) as -> by congruence.
      assert (te = e0) as -> by (apply load_entry_at in Hte; by eapply entry_at_inj).
      assert (Hnot : ¬ holds st c b).
      { intros (j' & i' & Hin'). by eapply Hspec. }
      destruct He0 as (bl & Hb & Hi0).
      destruct (free_entry_exists st b c bl Hwf Hb Hc Hnot) as (i1 & e1 & Hi1 & Hs1).
      destruct (export_alloc_scan_free (entryv bl) 0) as (i & e & Hscan & Hi & Hs & _);
        [by eauto|].
      assert (Halloc : export_alloc st (blob_entry b i0) = Ok (blob_entry b i, st)).
      { unfold export_alloc, entry_to_blob. rewrite Hte. simpl.
        destruct (Z.eqb_spec (slot_index e0) (-1)); [done|].
        rewrite Hep0. simpl. unfold load_blob. rewrite Hb. simpl.
        by rewrite Hscan. }
      rewrite Halloc. rstep.
      destruct (wf_entry _ Hwf b i e) as [Hep _]; [by exists bl|].
      rewrite (index_put_entry_claim _ c t b i bl e) by done.
      destruct (Z.leb_spec EXPORT_LIMIT (Z.of_nat (length t))); [by left|].
      right. exists b, i. eexists.
      split; [done|]. split; [|done]. right. right. exists i0, bl, e. done.
Qed.

Lemma table_room_not_full (st : state) (c : nat) :
  table_room st c → ¬ table_full st c.
Proof. intros (t & Ht & Hlt) (t' & Ht' & Hle). simplify_eq. lia. Qed.


Lemma put_post_refl (st : state) (c : nat) (k : ErtsCodeMFA) (b i : nat) :
  wf st → (∃ j, in_table st c j (blob_entry b i)) → blob_mfa st b = Some k →
  put_post st c k b i st.
Proof.
  intros Hwf [j Hin] Hk. constructor; try done.
  - by exists j.
  - intros c' b'. split; [by left|]. intros [?|[-> ->]]; [done|]. by exists j, i.
  - intros b'. split; [by left|]. intros [?| ->]; [done|].
    unfold blob_mfa in Hk. by destruct (heap st !! b).
  - intros b' bl Hb'. by exists bl.
  - intros Hnone. unfold blob_mfa in Hk. by rewrite Hnone in Hk.
Qed.

Lemma put_post_claim (st : state) (c : nat) (t : list entry_ptr) (k : ErtsCodeMFA)
    (b i : nat) (bl : export_blob) (e : export_entry) :
  wf st → export_tables st !! c = Some t → heap st !! b = Some bl →
  entryv bl !! i = Some e → slot_index e < 0 → blob_mfa st b = Some k →
  (∀ j b' i', in_table st c j (blob_entry b' i') → blob_mfa st b' ≠ Some k) →
  put_post st c k b i (claim_state st c t b i bl).
Proof.
  intros Hwf Ht Hb Hi Hfree Hk Hmiss.
  assert (Hc : (c < length (export_tables st))%nat) by by eapply lookup_lt_Some.
  constructor; try done.
  - eapply wf_claim; eauto. intros j b' i' Hin. rewrite Hk. by eapply Hmiss.
  - by rewrite (blob_mfa_claim st c t b i bl Hb).
  - exists (length t). apply in_table_claim; [done|]. by right.
  - intros c' Hne. simpl. by rewrite list_lookup_insert_ne.
  - intros c' j p Hin. apply in_table_claim; [done|]. by left.
  - by apply holds_claim.
  - intros b'. rewrite (heap_claim_is_Some st c t b i bl Hb). split; [by left|].
    intros [?| ->]; [done | by exists bl].
  - by apply exp_claim.
  - intros c' j b' i' e' Hin He'. eapply entry_at_claim; [done..|].
    right. split; [|done].
    destruct (decide (b' = b)) as [->|]; [|by left].
    destruct (decide (i' = i)) as [->|]; [|by right].
    by destruct (claimed_not_in_table st b i bl e Hwf Hb Hi Hfree c' j).
  - intros Hnone. congruence.
  - intros b' Hne. simpl. by rewrite lookup_insert_ne.
Qed.

Lemma index_put_entry_post (st : state) (c : nat) (t : list entry_ptr)
    (tmpl : entry_ptr) (te : export_entry) (k : ErtsCodeMFA) :
  wf st → export_tables st !! c = Some t →
  load_entry st tmpl = Ok te → entry_mfa st tmpl = Ok k →
  (slot_index te = -1 ∨ ∃ src j, in_table st src j tmpl) →
  (index_put_entry st c tmpl = Fault Fatal
   ∧ EXPORT_LIMIT ≤ Z.of_nat (length t) ∧ absent st c k)
  ∨ ∃ b i st', index_put_entry st c tmpl = Ok (blob_entry b i, st')
    ∧ put_post st c k b i st'
    ∧ ((∃ src j, in_table st src j tmpl) → is_Some (heap st !! b))
    ∧ (∀ i0, tmpl = blob_entry b i0 → ∀ b', holds st c b' → blob_mfa st b' = Some k →
         holds st c b).
Proof.
  intros Hwf Ht Hte Hk Hkind.
  assert (Hc : (c < ERTS_NUM_CODE_IX)%nat).
  { rewrite <- (wf_tables _ Hwf). by eapply lookup_lt_Some. }
  destruct (index_put_entry_spec st c t tmpl te k Hwf Ht Hte Hk Hkind)
    as [Hfull|(b & i & st' & Hput & Hcases & _)]; [by left|].
  right. exists b, i, st'. split; [done|].
  destruct Hcases as [(Hst & Hin & Hbk)|[(Htempl & Hnot & Hmiss & Hbeq & Hi0 & Hst)|
    (i0 & bl & e & Htm & Hbk & Hnot & Hmiss & Hb & Hi & Hfree & Hst)]]; subst.
  - split; [by apply put_post_refl|]. split.
    + intros _. unfold blob_mfa in Hbk. by destruct (heap st !! b).
    + intros i0 -> b' Hb' Hk'. destruct Hin as [j Hin]. by exists j, i.
  - pose proof (erts_alloc_fresh st) as Hfresh.
    set (b := erts_alloc st) in *.
    assert (Hb : heap (alloc_state st k) !! b = Some (stub_blob b k)).
    { unfold alloc_state. simpl. fold b. by rewrite lookup_insert_eq. }
    assert (Hold : ∀ b' bl, heap st !! b' = Some bl → heap (alloc_state st k) !! b' = Some bl).
    { intros b' bl Hb'. unfold alloc_state. simpl. fold b.
      rewrite lookup_insert_ne; [done|]. intros <-. congruence. }
    assert (Holdk : ∀ b', is_Some (heap st !! b') →
              blob_mfa (alloc_state st k) b' = blob_mfa st b').
    { intros b' [bl Hb']. unfold blob_mfa. by rewrite (Hold _ _ Hb'), Hb'. }
    assert (Hlive : ∀ c' j b' i', in_table st c' j (blob_entry b' i') →
              is_Some (heap st !! b')).
    { intros c' j b' i' Hin.
      destruct (wf_table _ Hwf _ _ _ Hin) as (? & ? & ? & [= <- <-] & (bl & ? & _) & _).
      eauto. }
    destruct (put_post_claim (alloc_state st k) c t k b 0 (stub_blob b k)
                (MkEntry (-1) (in_blob b))) as [P1 P2 P3 P4 P5 P6 P7 P8 P9 P10 P11 P12 P13 P14].
    (* the state between allocation and claim *)
    { by apply wf_alloc. }
    { done. }
    { done. }
    { simpl. apply lookup_replicate_2. lia. }
    { simpl. lia. }
    { unfold blob_mfa. by rewrite Hb. }
    { intros j b' i' Hin. rewrite Holdk by by eapply Hlive. by eapply Hmiss. }
    split; [|split].
    + constructor; try done.
      * intros b'. rewrite P7. unfold alloc_state. simpl. fold b.
        rewrite lookup_insert_is_Some'. split.
        -- intros [[<-|?]| ->]; [by right | by left | by right].
        -- intros [?| ->]; [by left; right | by left; left].
      * intros b' bl Hb'. apply P8. by apply Hold.
      * intros c' j b' i' e Hin (bl & Hb' & He). eapply P9; [done|].
        exists bl. split; [by apply Hold | done].
      * intros _. split.
        -- intros b' (j & i' & Hin). by eapply Hmiss.
        -- destruct (P8 b (stub_blob b k) Hb) as (bl' & ? & ?). by exists bl'.
      * intros b' Hne. rewrite P11 by done. unfold alloc_state. simpl. fold b.
        by rewrite lookup_insert_ne.
    + intros Hin. by destruct Hnot.
    + intros i0 -> b' Hb' Hk'. destruct Hnot. 
      destruct (Hlive c 0%nat b i0) as [bl Hbl]; [|congruence].
      unfold entry_mfa in Hk. rewrite Hte in Hk. simpl in Hk.
      apply load_entry_at in Hte as (bl & Hbl & _). congruence.
  - split; [by eapply put_post_claim|]. split; [by eauto|].
    intros i1 _ b' (j & i' & Hin) Hk'. by destruct (Hmiss _ _ _ Hin).
Qed.

(** ** The staging lock does not matter to the tables *)

Lemma wf_set_mtx (l : bool) (st : state) : wf st → wf (set_export_staging_mtx l st).
Proof. intros Hwf. by apply (wf_same_entries st); [..|apply Hwf|]. Qed.

Lemma stub_post_set_mtx (l : bool) (st : state) (c : nat) (k : ErtsCodeMFA) (b : nat)
    (st' : state) :
  stub_post st c k b st' → stub_post st c k b (set_export_staging_mtx l st').
Proof. intros []. constructor; try done. by apply wf_set_mtx. Qed.

(** ** Lookups *)

Lemma erts_find_export_entry_spec (st : state) (m f a : Z) (c : nat)
    (t : list entry_ptr) :
  wf st → export_tables st !! c = Some t →
  (erts_find_export_entry st m f a c = Ok NULL
   ∧ ∀ b, holds st c b → blob_mfa st b ≠ Some (MkMFA m f a))
  ∨ (∃ b, erts_find_export_entry st m f a c = Ok (in_blob b)
       ∧ holds st c b ∧ blob_mfa st b = Some (MkMFA m f a)).
Proof.
  intros Hwf Ht.
  destruct (hash_get_spec st c t (init_template m f a) (MkMFA m f a) Hwf Ht)
    as (r & Hr & Hspec); [done|].
  unfold erts_find_export_entry, hash_fetch. rewrite Hr. rstep.
  destruct r as [q|].
  - destruct Hspec as (j & b & i & e & -> & Hin & He & Hs & Hep & Hbk).
    right. exists b. rewrite (proj2 (load_entry_at _ _ _ _) He). rstep.
    rewrite Hep. split; [done|]. split; [by exists j, i | done].
  - left. split; [done|]. intros b (j & i & Hin). by eapply Hspec.
Qed.

(** ** Putting a template *)

Lemma set_save_calls_blob (st : state) (b : nat) (bl : export_blob) :
  heap st !! b = Some bl → length (addresses (exp bl)) = ERTS_ADDRESSV_SIZE →
  set_save_calls st (in_blob b) =
    Ok (if BEAMASM
        then set_heap (<[b := set_exp (save_calls_exp (exp bl)) bl]> (heap st)) st
        else st).
Proof.
  intros Hb Hlen. unfold set_save_calls, save_calls_exp.
  unfold ERTS_ADDRESSV_SIZE in Hlen. destruct BEAMASM; [|done].
  apply store_address_blob; [done|]. unfold ERTS_SAVE_CALLS_CODE_IX. lia.
Qed.

Lemma save_calls_exp_mfa (x : Export) : info_mfa (save_calls_exp x) = info_mfa x.
Proof. unfold save_calls_exp. by destruct BEAMASM. Qed.

Lemma save_calls_exp_length (x : Export) :
  length (addresses (save_calls_exp x)) = length (addresses x).
Proof. unfold save_calls_exp. destruct BEAMASM; [|done]. simpl. by rewrite length_insert. Qed.

Lemma stub_post_of_put (st : state) (c : nat) (k : ErtsCodeMFA) (b i : nat)
    (st1 : state) (bl1 : export_blob) :
  put_post st c k b i st1 → heap st1 !! b = Some bl1 →
  stub_post st c k b
    (if BEAMASM
     then set_heap (<[b := set_exp (save_calls_exp (exp bl1)) bl1]> (heap st1)) st1
     else st1).
Proof.
  intros [P1 P2 [j P3] P4 P5 P6 P7 P8 P9 P10 P11 P12 P13 P14] Hb1.
  assert (Hkeys : ∀ b', is_Some (heap st !! b') → blob_mfa st1 b' = blob_mfa st b').
  { intros b' [bl Hb']. destruct (P8 _ _ Hb') as (bl' & Hbl' & Hexp).
    unfold blob_mfa. rewrite Hb', Hbl'. simpl. by rewrite Hexp. }
  destruct BEAMASM eqn:HB.
  - set (x := save_calls_exp (exp bl1)).
    set (st2 := set_heap (<[b := set_exp x bl1]> (heap st1)) st1).
    assert (Hat : ∀ b' i' e, entry_at st1 b' i' e → entry_at st2 b' i' e).
    { intros b' i' e (bl' & Hb' & Hi'). unfold entry_at, st2. simpl.
      destruct (decide (b = b')) as [<-|Hne].
      - exists (set_exp x bl1). rewrite lookup_insert_eq. by simplify_eq.
      - exists bl'. by rewrite lookup_insert_ne. }
    assert (Hk2 : ∀ b', blob_mfa st2 b' = blob_mfa st1 b').
    { intros b'. unfold blob_mfa, st2. simpl. destruct (decide (b = b')) as [<-|Hne].
      - rewrite lookup_insert_eq, Hb1. simpl. unfold x. by rewrite save_calls_exp_mfa.
      - by rewrite lookup_insert_ne. }
    constructor; try done.
    + apply wf_set_exp; [done| | |done].
      * unfold x. by rewrite save_calls_exp_mfa.
      * unfold x. by rewrite save_calls_exp_length.
    + by rewrite Hk2.
    + apply P6. by right.
    + intros b'. unfold st2. simpl. rewrite lookup_insert_is_Some', <- P7.
      split; [|by right]. intros [<-|?]; [by exists bl1 | done].
    + intros b' Hb'. rewrite Hk2. by apply Hkeys.
    + intros c' j' b' i' e Hin He. eapply Hat, P9; eauto.
    + intros bl Hb. destruct (P8 _ _ Hb) as (bl' & Hbl' & Hexp). simplify_eq.
      exists (set_exp x bl1). unfold st2. simpl. rewrite lookup_insert_eq.
      split; [done|]. simpl. unfold x. by rewrite Hexp.
    + intros Hnone. destruct (P10 Hnone) as [Hmiss (bl' & Hbl' & Hexp)]. simplify_eq.
      split; [done|]. exists (set_exp x bl1). unfold st2. simpl.
      rewrite lookup_insert_eq. split; [done|]. simpl. unfold x. by rewrite Hexp.
    + intros b' Hne. unfold st2. simpl. rewrite lookup_insert_ne by done. by apply P11.
  - assert (Hid : ∀ x, save_calls_exp x = x).
    { intros x. unfold save_calls_exp. by rewrite HB. }
    constructor; try done.
    + apply P6. by right.
    + intros bl Hb. destruct (P8 _ _ Hb) as (bl' & Hbl' & Hexp).
      exists bl'. by rewrite Hid.
    + intros Hnone. destruct (P10 Hnone) as [Hmiss (bl' & Hbl' & Hexp)].
      split; [done|]. exists bl'. by rewrite Hid.
Qed.

Lemma store_entry_mtx (st st' : state) (p : entry_ptr) (e : export_entry) :
  store_entry st p e = Ok st' → export_staging_mtx st' = export_staging_mtx st.
Proof.
  unfold store_entry. destruct p as [b i|]; [|done].
  destruct (load_blob st b); simpl; [|done]. case_decide; [|done]. by intros [= <-].
Qed.

Lemma export_alloc_mtx (st st' : state) (tmpl p : entry_ptr) :
  export_alloc st tmpl = Ok (p, st') → export_staging_mtx st' = export_staging_mtx st.
Proof.
  unfold export_alloc. destruct (load_entry st tmpl) as [te|]; rstep; [|done].
  destruct (slot_index te =? -1).
  - destruct (load_export st (ep te)); rstep; [|done]. by intros [= _ <-].
  - destruct (entry_to_blob st tmpl) as [b|]; rstep; [|done].
    destruct (load_blob st b) as [bl|]; rstep; [|done].
    destruct (export_alloc_scan (entryv bl) 0); rstep; [|done]. by intros [= _ <-].
Qed.

Lemma index_put_entry_mtx (st st' : state) (c : nat) (tmpl p : entry_ptr) :
  index_put_entry st c tmpl = Ok (p, st') →
  export_staging_mtx st' = export_staging_mtx st.
Proof.
  unfold index_put_entry. intros (t & _ & H)%rbind_Ok.
  apply rbind_Ok in H as (found & _ & H).
  apply rbind_Ok in H as ([p1 st1] & Hal & H).
  apply rbind_Ok in H as (e & _ & H).
  assert (Hm1 : export_staging_mtx st1 = export_staging_mtx st).
  { destruct found; [by injection Hal as _ <-|]. by eapply export_alloc_mtx. }
  destruct (0 <=? slot_index e); [by injection H as _ <-|].
  destruct (EXPORT_LIMIT <=? Z.of_nat (length t)); [done|].
  apply rbind_Ok in H as (st2 & Hst & H). injection H as _ <-.
  simpl. by rewrite (store_entry_mtx _ _ _ _ Hst).
Qed.

(** The upsert of a template followed by the store of the save-calls
    address, as [erts_export_put] and [erts_export_get_or_make_stub] do
    them. *)
Lemma put_template_spec (st : state) (c : nat) (t : list entry_ptr) (m f a : Z) :
  wf st → export_tables st !! c = Some t →
  (index_put_entry st c (init_template m f a) = Fault Fatal
   ∧ EXPORT_LIMIT ≤ Z.of_nat (length t) ∧ absent st c (MkMFA m f a))
  ∨ ∃ b i st1 e,
    index_put_entry st c (init_template m f a) = Ok (blob_entry b i, st1)
    ∧ load_entry st1 (blob_entry b i) = Ok e ∧ ep e = in_blob b
    ∧ ∃ st2, set_save_calls st1 (in_blob b) = Ok st2
        ∧ stub_post st c (MkMFA m f a) b st2
        ∧ export_staging_mtx st2 = export_staging_mtx st
        ∧ ∀ l, set_save_calls (set_export_staging_mtx l st1) (in_blob b) =
               Ok (set_export_staging_mtx l st2).
Proof.
  intros Hwf Ht.
  destruct (index_put_entry_post st c t (init_template m f a)
              (MkEntry (-1) (on_stack (MkExport (replicate ERTS_ADDRESSV_SIZE uninitialized)
                 (-1) 0 uninitialized uninitialized (MkMFA m f a)
                 uninitialized uninitialized))) (MkMFA m f a) Hwf Ht)
    as [Hfull|(b & i & st1 & Hput & Hpost & _)]; [done | done | by left | by left |].
  destruct (pp_in _ _ _ _ _ _ Hpost) as [j Hin].
  destruct (in_table_mfa st1 c j _ (pp_wf _ _ _ _ _ _ Hpost) Hin)
    as (b' & i' & e & k' & [= <- <-] & He & Hs & Hep & _).
  right. exists b, i, st1, e. split; [done|].
  split; [by apply load_entry_at|]. split; [done|].
  destruct He as (bl1 & Hb1 & Hi1).
  destruct (wf_blob _ (pp_wf _ _ _ _ _ _ Hpost) _ _ Hb1) as [_ Hlen].
  eexists. split; [by apply set_save_calls_blob|].
  split; [by eapply stub_post_of_put|]. split.
  - rewrite <- (index_put_entry_mtx _ _ _ _ _ Hput). by destruct BEAMASM.
  - intros l. rewrite (set_save_calls_blob _ b bl1) by done. by destruct BEAMASM.
Qed.

Lemma stub_post_src_mtx (l : bool) (st : state) (c : nat) (k : ErtsCodeMFA) (b : nat)
    (st' : state) :
  stub_post (set_export_staging_mtx l st) c k b st' → stub_post st c k b st'.
Proof. intros []. by constructor. Qed.

Lemma load_entry_set_mtx (l : bool) (st : state) (p : entry_ptr) :
  load_entry (set_export_staging_mtx l st) p = load_entry st p.
Proof. done. Qed.

Lemma erts_export_put_spec (st : state) (m f a : Z) :
  wf st → export_staging_mtx st = false →
  (erts_staging_code_ix st < ERTS_NUM_CODE_IX)%nat →
  (erts_export_put st m f a = Fault Fatal
   ∧ table_full st (erts_staging_code_ix st)
   ∧ absent st (erts_staging_code_ix st) (MkMFA m f a))
  ∨ ∃ b st', erts_export_put st m f a = Ok (in_blob b, st')
    ∧ stub_post st (erts_staging_code_ix st) (MkMFA m f a) b st'
    ∧ export_staging_mtx st' = false.
Proof.
  intros Hwf Hmtx Hs.
  destruct (lookup_lt_is_Some_2 (export_tables st) (erts_staging_code_ix st))
    as [t Ht]; [by rewrite (wf_tables _ Hwf)|].
  unfold erts_export_put, export_staging_lock. rewrite Hmtx. rstep.
  destruct (put_template_spec (set_export_staging_mtx true st)
              (erts_staging_code_ix st) t m f a)
    as [(Hput & Hfull & Habs)|
        (b & i & st1 & e & Hput & Hload & Hep & st2 & Hsave & Hpost & Hmtx2 & Hsave_l)];
    [by apply wf_set_mtx | done | |].
  { left. rewrite Hput. split; [done|]. split; [by exists t | exact Habs]. }
  right. exists b, (set_export_staging_mtx false st2).
  rewrite Hput. rstep. unfold export_staging_unlock.
  rewrite (index_put_entry_mtx _ _ _ _ _ Hput). simpl export_staging_mtx. rstep.
  rewrite load_entry_set_mtx, Hload. rstep. rewrite Hep, Hsave_l. rstep.
  split; [done|]. split; [|done].
  by apply stub_post_set_mtx, (stub_post_src_mtx true).
Qed.

Lemma holds_same_tables (st st' : state) (c b : nat) :
  export_tables st' !! c = export_tables st !! c → holds st' c b ↔ holds st c b.
Proof. intros Ht. unfold holds, in_table. by rewrite Ht. Qed.

Lemma holds_live (st : state) (c b : nat) : wf st → holds st c b → is_Some (heap st !! b).
Proof.
  intros Hwf (j & i & Hin).
  destruct (wf_table _ Hwf _ _ _ Hin) as (? & ? & ? & [= <- <-] & (bl & ? & _) & _).
  eauto.
Qed.

(** Two blobs with the same key that a generation holds are one blob. *)
Lemma holds_one_key (st : state) (c b b' : nat) :
  wf st → holds st c b → holds st c b' → blob_mfa st b = blob_mfa st b' → b = b'.
Proof.
  intros Hwf (j & i & Hin) (j' & i' & Hin') Hk.
  assert (j = j') as <- by (eapply (wf_one_key _ Hwf); eauto).
  pose proof (in_table_inj _ _ _ _ _ Hin Hin'). congruence.
Qed.

Lemma erts_find_export_entry_frame (st st' : state) (c : nat) (m f a : Z) :
  wf st → wf st' → (c < ERTS_NUM_CODE_IX)%nat →
  export_tables st' !! c = export_tables st !! c →
  (∀ b, is_Some (heap st !! b) → blob_mfa st' b = blob_mfa st b) →
  erts_find_export_entry st' m f a c = erts_find_export_entry st m f a c.
Proof.
  intros Hwf Hwf' Hc Ht Hkeys.
  destruct (lookup_lt_is_Some_2 (export_tables st) c) as [t Hst];
    [by rewrite (wf_tables _ Hwf)|].
  assert (Hheld : ∀ b, holds st' c b ↔ holds st c b)
    by (intros b; by apply holds_same_tables).
  destruct (erts_find_export_entry_spec st m f a c t Hwf Hst)
    as [[-> Hmiss]|(b & -> & Hb & Hk)];
  destruct (erts_find_export_entry_spec st' m f a c t Hwf')
    as [[-> Hmiss']|(b' & -> & Hb' & Hk')]; try congruence.
  - apply Hheld in Hb'. destruct (Hmiss _ Hb').
    rewrite <- Hkeys; [done | by eapply holds_live].
  - destruct (Hmiss' b); [by apply Hheld|].
    rewrite Hkeys; [done | by eapply holds_live].
  - apply Hheld in Hb'. f_equal. f_equal. symmetry.
    apply (holds_one_key st c); [done..|].
    rewrite Hk, <- Hkeys; [done | by eapply holds_live].
Qed.

(** C8: on a staging table with fewer than [EXPORT_LIMIT] entries
    [erts_export_put] returns the record of the given module, function
    and arity, which the staging table holds from then on.  The
    table of every other code index is as it was, entry for entry, and a
    lookup in it finds what it found before; the lock is free again. *)
Theorem erts_export_put_frame (st : state) (m f a : Z) :
  wf st → export_staging_mtx st = false →
  (erts_staging_code_ix st < ERTS_NUM_CODE_IX)%nat →
  table_room st (erts_staging_code_ix st) →
  ∃ b st' bl, erts_export_put st m f a = Ok (in_blob b, st')
    ∧ heap st' !! b = Some bl ∧ info_mfa (exp bl) = MkMFA m f a
    ∧ holds st' (erts_staging_code_ix st) b
    ∧ erts_find_export_entry st' m f a (erts_staging_code_ix st) = Ok (in_blob b)
    ∧ export_staging_mtx st' = false
    ∧ erts_staging_code_ix st' = erts_staging_code_ix st
    ∧ erts_active_code_ix st' = erts_active_code_ix st
    ∧ ∀ c, c ≠ erts_staging_code_ix st →
        export_tables st' !! c = export_tables st !! c
        ∧ (∀ j p e, in_table st c j p → load_entry st p = Ok e →
             load_entry st' p = Ok e)
        ∧ ∀ m' f' a', erts_find_export_entry st' m' f' a' c =
                      erts_find_export_entry st m' f' a' c.
Proof.
  intros Hwf Hmtx Hs Hroom.
  destruct (erts_export_put_spec st m f a Hwf Hmtx Hs)
    as [(_ & Hfull & _)|(b & st' & Hput & Hpost & Hmtx')];
    [by destruct (table_room_not_full _ _ Hroom)|].
  destruct Hpost as [P1 P2 P3 P4 P5 P6 P7 P8 P9 P10 P11 P12 P13 P14 P15].
  assert (∃ bl, heap st' !! b = Some bl ∧ info_mfa (exp bl) = MkMFA m f a)
    as (bl & Hbl & Hk).
  { unfold blob_mfa in P2. destruct (heap st' !! b) as [bl|]; [|done].
    exists bl. split; [done|]. by injection P2. }
  exists b, st', bl. repeat (split; [done|]).
  assert (Hs' : (erts_staging_code_ix st < length (export_tables st'))%nat)
    by by rewrite (wf_tables _ P1).
  split.
  { destruct (lookup_lt_is_Some_2 _ _ Hs') as [t' Ht'].
    destruct (erts_find_export_entry_spec st' m f a _ t' P1 Ht')
      as [[_ Hmiss]|(b' & -> & Hb' & Hk')].
    - by destruct (Hmiss b P3).
    - f_equal. f_equal. apply (holds_one_key st' (erts_staging_code_ix st)); [done..|].
      congruence. }
  repeat (split; [done|]).
  intros c Hc. split; [by apply P4|]. split.
  - intros j p e Hin Hp.
    destruct (wf_table _ Hwf _ _ _ Hin) as (b' & i' & e' & -> & He' & _).
    apply load_entry_at. apply load_entry_at in Hp. by eapply P9.
  - intros m' f' a'. destruct (decide (c < ERTS_NUM_CODE_IX)%nat).
    + by apply erts_find_export_entry_frame; [..|apply P4|].
    + unfold erts_find_export_entry, hash_fetch, hash_get, index_table.
      rewrite !lookup_ge_None_2; [done|..].
      * rewrite (wf_tables _ Hwf). lia.
      * rewrite (wf_tables _ P1). lia.
Qed.

(** ** Stubs *)

Lemma ok_set_mtx_false (st : state) :
  wf st → (erts_active_code_ix st < ERTS_NUM_CODE_IX)%nat →
  (erts_staging_code_ix st < ERTS_NUM_CODE_IX)%nat →
  ok (set_export_staging_mtx false st).
Proof. intros Hwf Ha Hs. constructor; [by apply wf_set_mtx | done..]. Qed.

Lemma stub_locked_spec (code_ix : nat) (st : state) (m f a : Z) :
  ok st →
  (erts_active_code_ix st = code_ix →
     (stub_locked code_ix st m f a = Fault Fatal
      ∧ table_full st (erts_staging_code_ix st)
      ∧ absent st (erts_staging_code_ix st) (MkMFA m f a))
     ∨ ∃ b st', stub_locked code_ix st m f a = Ok (in_blob b, st')
       ∧ stub_post st (erts_staging_code_ix st) (MkMFA m f a) b st' ∧ ok st')
  ∧ (erts_active_code_ix st ≠ code_ix →
     stub_locked code_ix st m f a =
       Ok (NULL, set_export_staging_mtx false (set_export_staging_mtx true st))).
Proof.
  intros [Hwf Ha Hs Hmtx]. unfold stub_locked, export_staging_lock.
  rewrite Hmtx. rstep. split; intros Hix.
  - rewrite decide_True by done.
    destruct (lookup_lt_is_Some_2 (export_tables st) (erts_staging_code_ix st))
      as [t Ht]; [by rewrite (wf_tables _ Hwf)|].
    change (erts_staging_code_ix (set_export_staging_mtx true st))
      with (erts_staging_code_ix st).
    destruct (put_template_spec (set_export_staging_mtx true st)
                (erts_staging_code_ix st) t m f a)
      as [(Hput & Hfull & Habs)|
          (b & i & st1 & e & Hput & Hload & Hep & st2 & Hsave & Hpost & Hmtx2 & _)];
      [by apply wf_set_mtx | done | |].
    { left. rewrite Hput. split; [done|]. split; [by exists t | exact Habs]. }
    right. exists b, (set_export_staging_mtx false st2).
    rewrite Hput. rstep. rewrite Hload. rstep. rewrite Hep, Hsave. rstep.
    unfold export_staging_unlock. rewrite Hmtx2. simpl export_staging_mtx. rstep.
    split; [done|].
    apply (stub_post_src_mtx true) in Hpost.
    split; [by apply stub_post_set_mtx|].
    apply ok_set_mtx_false; [apply Hpost|..].
    + unfold erts_active_code_ix. by rewrite (sp_active _ _ _ _ _ Hpost).
    + unfold erts_staging_code_ix. by rewrite (sp_staging _ _ _ _ _ Hpost).
  - by rewrite decide_False.
Qed.

Lemma erts_export_get_or_make_stub_loop_unfold {E : Type}
    (interfere : E → state → result state) (fuel : nat) (sched : list E)
    (st : state) (m f a : Z) :
  erts_export_get_or_make_stub_loop interfere (S fuel) sched st m f a =
    do found <- erts_find_export_entry st m f a (erts_active_code_ix st);
    do (res, st') <-
      match found with
      | NULL =>
          do st0 <- match sched with
                    | [] => Ok st
                    | ev :: _ => interfere ev st
                    end;
          stub_locked (erts_active_code_ix st) st0 m f a
      | _ => Ok (found, st)
      end;
    match res with
    | NULL => erts_export_get_or_make_stub_loop interfere fuel (tail sched) st' m f a
    | _ => Ok (res, st')
    end.
Proof.
  simpl. by destruct (erts_find_export_entry _ _ _ _ _) as [[| |]|].
Qed.

(** Inserting a key that no generation holds, or finding a key, keeps
    the discipline. *)
Lemma inv_stub_post (st : state) (k : ErtsCodeMFA) (b : nat) (st' : state) :
  inv st → stub_post st (erts_staging_code_ix st) k b st' → ok st' →
  (heap st !! b = None →
   ∀ b', holds st (erts_active_code_ix st) b' → blob_mfa st b' ≠ Some k) →
  inv st'.
Proof.
  intros [Hok Hone Hheld Hchain Hsess] Hpost Hok' Hfresh.
  destruct Hpost as [P1 P2 P3 P4 P5 P6 P7 P8 P9 P10 P11 P12 P13 P14 P15].
  assert (Hwf := ok_wf _ Hok).
  assert (Hnone : heap st !! b = None → ∀ b', is_Some (heap st !! b') →
            blob_mfa st b' ≠ Some k).
  { intros Hb b' Hlive Hk. destruct (Hheld b' Hlive) as [c Hc].
    destruct (P11 Hb) as [Hmiss _].
    destruct (decide (c = erts_staging_code_ix st)) as [->|Hne].
    - by apply (Hmiss b').
    - by apply (Hfresh Hb b'); [apply (Hchain c)|]. }
  constructor.
  - done.
  - intros b1 b2 Hb1 Hk.
    assert (Hb2 : is_Some (heap st' !! b2)).
    { destruct Hb1 as [bl1 Hbl1]. unfold blob_mfa in Hk. rewrite Hbl1 in Hk.
      destruct (heap st' !! b2); [eauto | done]. }
    apply P7 in Hb1, Hb2.
    destruct (heap st !! b) as [bl|] eqn:Hb.
    + assert (Hl1 : is_Some (heap st !! b1)) by (destruct Hb1 as [?| ->]; eauto).
      assert (Hl2 : is_Some (heap st !! b2)) by (destruct Hb2 as [?| ->]; eauto).
      apply Hone; [done|]. by rewrite <- !P8.
    + destruct Hb1 as [Hl1| ->], Hb2 as [Hl2| ->]; [| | |done].
      * apply Hone; [done|]. by rewrite <- !P8.
      * destruct (Hnone eq_refl b1 Hl1). rewrite <- P8 by done. congruence.
      * destruct (Hnone eq_refl b2 Hl2). rewrite <- P8 by done. congruence.
  - intros b' [Hl| ->]%P7.
    + destruct (Hheld b' Hl) as [c Hc]. exists c. apply P6. by left.
    + by exists (erts_staging_code_ix st).
  - intros c b'. unfold erts_staging_code_ix, erts_active_code_ix.
    rewrite P13, P14. intros Hc [Hh|[-> _]]%P6; [|done].
    apply P6. left. by apply (Hchain c).
  - unfold erts_staging_code_ix, erts_active_code_ix. rewrite P13, P14, P15.
    intros Hdbg b' [Hh|[Heq ->]]%P6.
    + apply P6. left. by apply Hsess.
    + done.
Qed.

Section stub_loop.
Context {E : Type} (interfere : E → state → result state).
Context (m f a : Z).

Local Abbreviation loop := (erts_export_get_or_make_stub_loop interfere).
Local Abbreviation k := (MkMFA m f a).

(** A turn that finds the key in the active table returns at once. *)
Lemma stub_turn_found (fuel : nat) (sched : list E) (st : state) (b : nat) :
  erts_find_export_entry st m f a (erts_active_code_ix st) = Ok (in_blob b) →
  loop (S fuel) sched st m f a = Ok (in_blob b, st).
Proof. intros Hfind. rewrite erts_export_get_or_make_stub_loop_unfold, Hfind. done. Qed.

(** A turn that does not, and still sees the same active code index once
    it has the lock, puts the key in the staging table of that moment. *)
Lemma stub_turn_insert (fuel : nat) (sched : list E) (st st0 : state) :
  erts_find_export_entry st m f a (erts_active_code_ix st) = Ok NULL →
  match sched with [] => Ok st | ev :: _ => interfere ev st end = Ok st0 →
  ok st0 → erts_active_code_ix st0 = erts_active_code_ix st →
  (loop (S fuel) sched st m f a = Fault Fatal
   ∧ table_full st0 (erts_staging_code_ix st0)
   ∧ absent st0 (erts_staging_code_ix st0) k)
  ∨ ∃ b st', loop (S fuel) sched st m f a = Ok (in_blob b, st')
    ∧ stub_post st0 (erts_staging_code_ix st0) k b st' ∧ ok st'.
Proof.
  intros Hfind Hsched Hok Hix.
  destruct (stub_locked_spec (erts_active_code_ix st) st0 m f a Hok) as [Hput _].
  rewrite erts_export_get_or_make_stub_loop_unfold, Hfind. rstep.
  rewrite Hsched. rstep.
  destruct (Hput Hix) as [(Hlocked & Hfull)|(b & st' & Hlocked & Hpost & Hok')].
  - left. by rewrite Hlocked.
  - right. exists b, st'. rewrite Hlocked. done.
Qed.

(** A turn that sees another active code index once it has the lock
    changes nothing and starts over. *)
Lemma stub_turn_race (fuel : nat) (sched : list E) (st st0 : state) :
  erts_find_export_entry st m f a (erts_active_code_ix st) = Ok NULL →
  match sched with [] => Ok st | ev :: _ => interfere ev st end = Ok st0 →
  ok st0 → erts_active_code_ix st0 ≠ erts_active_code_ix st →
  loop (S fuel) sched st m f a =
    loop fuel (tail sched)
      (set_export_staging_mtx false (set_export_staging_mtx true st0)) m f a.
Proof.
  intros Hfind Hsched Hok Hix.
  destruct (stub_locked_spec (erts_active_code_ix st) st0 m f a Hok) as [_ Hrace].
  rewrite erts_export_get_or_make_stub_loop_unfold, Hfind. rstep.
  rewrite Hsched. rstep. by rewrite (Hrace Hix).
Qed.

End stub_loop.

(** The call with no other thread around needs one turn. *)
Lemma erts_export_get_or_make_stub_spec (st : state) (m f a : Z) :
  ok st →
  (erts_export_get_or_make_stub 1 st m f a = Fault Fatal
   ∧ table_full st (erts_staging_code_ix st)
   ∧ absent st (erts_staging_code_ix st) (MkMFA m f a)
   ∧ absent st (erts_active_code_ix st) (MkMFA m f a))
  ∨ ∃ b st', erts_export_get_or_make_stub 1 st m f a = Ok (in_blob b, st')
    ∧ ((st' = st ∧ holds st (erts_active_code_ix st) b
        ∧ blob_mfa st b = Some (MkMFA m f a))
       ∨ ((∀ b', holds st (erts_active_code_ix st) b' →
             blob_mfa st b' ≠ Some (MkMFA m f a))
          ∧ stub_post st (erts_staging_code_ix st) (MkMFA m f a) b st' ∧ ok st')).
Proof.
  intros Hok. unfold erts_export_get_or_make_stub.
  destruct (lookup_lt_is_Some_2 (export_tables st) (erts_active_code_ix st))
    as [t Ht]; [rewrite (wf_tables _ (ok_wf _ Hok)); apply Hok|].
  destruct (erts_find_export_entry_spec st m f a _ t (ok_wf _ Hok) Ht)
    as [[Hfind Hmiss]|(b & Hfind & Hb & Hk)].
  - destruct (stub_turn_insert (λ (_ : Empty_set) st, Ok st) m f a 0 [] st st Hfind)
      as [(Hloop & Hfull & Habs)|(b & st' & Hloop & Hpost & Hok')]; [done..| |].
    + by left.
    + right. exists b, st'. split; [done|]. by right.
  - right. exists b, st. split; [by apply stub_turn_found|]. by left.
Qed.

Lemma inv_erts_export_get_or_make_stub (st st' : state) (m f a : Z) (p : export_ptr) :
  inv st → erts_export_get_or_make_stub 1 st m f a = Ok (p, st') → inv st'.
Proof.
  intros Hinv Hcall.
  destruct (erts_export_get_or_make_stub_spec st m f a (inv_ok _ Hinv))
    as [[Hcall' _]|(b & st1 & Hcall' & [(-> & _)|(Hmiss & Hpost & Hok')])];
    rewrite Hcall' in Hcall; [done|injection Hcall as <- <-..]; [done|].
  eapply inv_stub_post; [done..|]. intros _. apply Hmiss.
Qed.

Lemma inv_erts_export_put (st st' : state) (m f a : Z) (p : export_ptr) :
  inv st → is_Some (debug_export_load_ix st) →
  erts_export_put st m f a = Ok (p, st') → inv st'.
Proof.
  intros Hinv Hdbg Hcall. destruct (inv_ok _ Hinv) as [Hwf Ha Hs Hmtx].
  destruct (erts_export_put_spec st m f a Hwf Hmtx Hs)
    as [[Hcall' _]|(b & st1 & Hcall' & Hpost & Hmtx')];
    rewrite Hcall' in Hcall; [done|]. injection Hcall as <- <-.
  eapply inv_stub_post; [done..| |].
  - constructor; [apply Hpost| | |done].
    + unfold erts_active_code_ix. by rewrite (sp_active _ _ _ _ _ Hpost).
    + unfold erts_staging_code_ix. by rewrite (sp_staging _ _ _ _ _ Hpost).
  - intros Hnone b' Hb'. apply (sp_fresh _ _ _ _ _ Hpost Hnone).
    by apply (inv_session _ Hinv).
Qed.

(** ** Tables and the heap

    A table holds a blob once at most, so it has no more entries than
    there are live blobs. *)

Lemma table_blobs (st : state) (c : nat) (t : list entry_ptr) :
  wf st → export_tables st !! c = Some t →
  ∃ l : list nat, length l = length t ∧ NoDup l ∧ ∀ b, b ∈ l → holds st c b.
Proof.
  intros Hwf Ht.
  exists ((λ p, match p with blob_entry b _ => b | stack_entry _ => 0%nat end) <$> t).
  split; [by rewrite length_fmap|]. split.
  - apply NoDup_alt. intros j1 j2 b.
    rewrite !list_lookup_fmap. intros H1 H2.
    destruct (t !! j1) as [p1|] eqn:Hp1; [|done].
    destruct (t !! j2) as [p2|] eqn:Hp2; [|done].
    destruct (wf_table _ Hwf c j1 p1) as (b1 & i1 & e1 & -> & _); [by exists t|].
    destruct (wf_table _ Hwf c j2 p2) as (b2 & i2 & e2 & -> & _); [by exists t|].
    simpl in H1, H2. injection H1 as ->. injection H2 as ->.
    by destruct (holds_once st c j1 j2 b i1 i2 Hwf); [exists t..|].
  - intros b [p [-> Hp]]%list_elem_of_fmap.
    apply list_elem_of_lookup in Hp as [j Hj].
    destruct (wf_table _ Hwf c j p) as (b1 & i1 & e1 & -> & _); [by exists t|].
    exists j, i1, t. done.
Qed.

Lemma table_le_heap (st : state) (c : nat) (t : list entry_ptr) :
  wf st → export_tables st !! c = Some t → (length t ≤ size (heap st))%nat.
Proof.
  intros Hwf Ht. destruct (table_blobs st c t Hwf Ht) as (l & <- & Hnd & Hl).
  rewrite <- (size_list_to_set (C := gset nat)) by done.
  rewrite <- (size_dom (D := gset nat)). apply subseteq_size.
  intros b Hb%elem_of_list_to_set. apply elem_of_dom.
  by eapply holds_live, Hl.
Qed.

Lemma table_lt_heap (st : state) (c b : nat) (t : list entry_ptr) :
  wf st → export_tables st !! c = Some t → is_Some (heap st !! b) → ¬ holds st c b →
  (length t < size (heap st))%nat.
Proof.
  intros Hwf Ht Hb Hnot. destruct (table_blobs st c t Hwf Ht) as (l & <- & Hnd & Hl).
  assert (Hcons : NoDup (b :: l)).
  { constructor; [|done]. intros Hin. by apply Hnot, Hl. }
  change (length (b :: l) ≤ size (heap st))%nat.
  rewrite <- (size_list_to_set (C := gset nat)) by done.
  rewrite <- (size_dom (D := gset nat)). apply subseteq_size.
  intros b' Hb'%elem_of_list_to_set. apply elem_of_dom.
  apply elem_of_cons in Hb' as [->|Hb']; [done|]. by eapply holds_live, Hl.
Qed.

Lemma size_heap_live (h h' : gmap nat export_blob) :
  (∀ b, is_Some (h' !! b) ↔ is_Some (h !! b)) → size h' = size h.
Proof.
  intros Hlive. rewrite <- !(size_dom (D := gset nat)). f_equal.
  apply set_eq. intros b. by rewrite !elem_of_dom.
Qed.

Lemma size_heap_one_more (h h' : gmap nat export_blob) (b : nat) :
  (∀ b', is_Some (h' !! b') ↔ is_Some (h !! b') ∨ b' = b) →
  (size h ≤ size h' ≤ S (size h))%nat.
Proof.
  intros Hlive. rewrite <- !(size_dom (D := gset nat)). split.
  - apply subseteq_size. intros b' Hb'%elem_of_dom. apply elem_of_dom, Hlive. by left.
  - transitivity (size (dom h ∪ {[b]} : gset nat)).
    + apply subseteq_size. intros b' Hb'%elem_of_dom%Hlive.
      apply elem_of_union. rewrite elem_of_dom, elem_of_singleton. done.
    + rewrite size_union_alt.
      assert (size ({[b]} ∖ dom h : gset nat) ≤ 1)%nat; [|lia].
      rewrite <- (size_singleton (C := gset nat) b). apply subseteq_size.
      intros x. rewrite elem_of_difference. tauto.
Qed.


(** ** Staging *)

Lemma export_start_staging_loop_unfold (fuel i src_ix dst_ix : nat) (st : state) :
  export_start_staging_loop (S fuel) i src_ix dst_ix st =
    do entries <- erts_index_num_entries st src_ix;
    if decide (i < entries)%nat then
      do st <- export_start_staging_turn i src_ix dst_ix st;
      export_start_staging_loop fuel (S i) src_ix dst_ix st
    else Ok st.
Proof.
  simpl. unfold export_start_staging_turn.
  destruct (erts_index_num_entries st src_ix) as [n|]; simpl; [|done].
  case_decide; [|done].
  destruct (erts_index_lookup st src_ix i) as [p|]; simpl; [|done].
  destruct (load_entry st p) as [e|]; simpl; [|done].
  destruct (load_export st (ep e)) as [x|]; simpl; [|done].
  destruct (addresses x !! src_ix) as [a'|]; simpl; [|done].
  destruct (store_address st (ep e) dst_ix a') as [st1|]; simpl; [|done].
  by destruct (index_put_entry st1 dst_ix p) as [[q st2]|].
Qed.

Lemma put_post_keys (st : state) (c : nat) (k : ErtsCodeMFA) (b i : nat) (st' : state) :
  put_post st c k b i st' → is_Some (heap st !! b) →
  ∀ b', blob_mfa st' b' = blob_mfa st b'.
Proof.
  intros Hpost Hb b'. destruct (heap st !! b') as [bl|] eqn:Hb'.
  - destruct (pp_exp _ _ _ _ _ _ Hpost _ _ Hb') as (bl' & Hbl' & Hexp).
    unfold blob_mfa. rewrite Hb', Hbl'. simpl. by rewrite Hexp.
  - assert (Hnone : heap st' !! b' = None).
    { apply eq_None_not_Some. intros [Hl| ->]%(pp_live _ _ _ _ _ _ Hpost).
      - rewrite Hb' in Hl. by destruct Hl.
      - rewrite Hb' in Hb. by destruct Hb. }
    unfold blob_mfa. by rewrite Hb', Hnone.
Qed.

Lemma staging_inv_start (st : state) (src_ix dst_ix : nat) (t : list entry_ptr) :
  wf st → staging_inv st src_ix dst_ix t 0 st.
Proof.
  intros Hwf. constructor; try done.
  - intros c b ?. by left.
  - intros j b i0 Hj. lia.
  - intros j b i0 bl Hj. lia.
  - intros b bl Hb _. by exists bl.
Qed.

Lemma staging_turn (st : state) (src_ix dst_ix : nat) (t : list entry_ptr) (i : nat)
    (st1 : state) (p : entry_ptr) :
  wf st → one_blob st → src_ix ≠ dst_ix →
  (src_ix < ERTS_NUM_CODE_IX)%nat → (dst_ix < ERTS_NUM_CODE_IX)%nat →
  export_tables st !! src_ix = Some t →
  staging_inv st src_ix dst_ix t i st1 → t !! i = Some p →
  (export_start_staging_turn i src_ix dst_ix st1 = Fault Fatal
   ∧ EXPORT_LIMIT < Z.of_nat (size (heap st)))
  ∨ ∃ st2, export_start_staging_turn i src_ix dst_ix st1 = Ok st2
    ∧ staging_inv st src_ix dst_ix t (S i) st2.
Proof.
  intros Hwf Hone Hne Hsrc Hdst Ht HJ Hp.
  destruct HJ as [J1 J2 J3 J4 J5 J6 J7 J8 J9 J10 J11 J12 J13].
  assert (Hin : in_table st src_ix i p) by by exists t.
  assert (Hin1 : in_table st1 src_ix i p) by by apply J5.
  destruct (in_table_mfa st1 src_ix i p J1 Hin1)
    as (b & i0 & e & k & -> & He & Hs & Hep & Hk & Hbk).
  assert (He' := He). destruct He' as (bl1 & Hb1 & Hi0).
  assert (Hlive : is_Some (heap st !! b)) by (apply J2; eauto).
  destruct Hlive as [bl Hb].
  assert (Honly : ∀ j i1, t !! j = Some (blob_entry b i1) → j = i).
  { intros j i1 Hj.
    destruct (holds_once st src_ix j i b i1 i0 Hwf) as [? _]; [by exists t|done..]. }
  destruct (J9 b bl Hb) as (bl1' & Hb1' & Hexp1).
  { intros j i1 Hj. rewrite (Honly _ _ Hj). lia. }
  rewrite Hb1 in Hb1'. injection Hb1' as <-.
  destruct (wf_blob _ J1 _ _ Hb1) as [_ Hlen].
  pose proof ERTS_ADDRESSV_SIZE_ge as Hge.
  destruct (lookup_lt_is_Some_2 (addresses (exp bl1)) src_ix) as [a Ha]; [lia|].
  set (x := set_addresses (<[dst_ix := a]> (addresses (exp bl1))) (exp bl1)).
  assert (Hx : x = staged_exp src_ix dst_ix (exp bl)).
  { unfold x, staged_exp. by rewrite <- Hexp1, Ha. }
  set (sta := set_heap (<[b := set_exp x bl1]> (heap st1)) st1).
  assert (Hwfa : wf sta).
  { apply wf_set_exp; [done|done| |done]. unfold x. simpl. by rewrite length_insert. }
  assert (Hata : ∀ b' i' e', entry_at st1 b' i' e' → entry_at sta b' i' e').
  { intros b' i' e' (bl' & Hb' & Hi'). unfold entry_at, sta. simpl.
    destruct (decide (b = b')) as [<-|Hneb].
    - exists (set_exp x bl1). rewrite lookup_insert_eq. by simplify_eq.
    - exists bl'. by rewrite lookup_insert_ne. }
  assert (Hka : ∀ b', blob_mfa sta b' = blob_mfa st1 b').
  { intros b'. unfold blob_mfa, sta. simpl. destruct (decide (b = b')) as [<-|Hneb].
    - by rewrite lookup_insert_eq, Hb1.
    - by rewrite lookup_insert_ne. }
  destruct (lookup_lt_is_Some_2 (export_tables sta) dst_ix) as [td Htd];
    [by rewrite (wf_tables _ Hwfa)|].
  assert (Hturn : export_start_staging_turn i src_ix dst_ix st1 =
                    do (_, st2) <- index_put_entry sta dst_ix (blob_entry b i0); Ok st2).
  { unfold export_start_staging_turn, erts_index_lookup, index_table.
    rewrite J4, Ht by done. rstep. rewrite Hp. rstep.
    rewrite (proj2 (load_entry_at _ _ _ _) He). rstep.
    rewrite Hep. unfold load_export, load_blob. rewrite Hb1. rstep.
    rewrite Ha. rstep.
    by rewrite (store_address_blob st1 b dst_ix a bl1) by (done || lia). }
  destruct (index_put_entry_post sta dst_ix td (blob_entry b i0) e k Hwfa Htd)
    as [(Hput & Hfull & Habs)|(b' & i' & st2 & Hput & Hpost & Hlive' & _)];
    [| | |left|].
  { apply load_entry_at. by apply Hata. }
  { unfold entry_mfa. rewrite (proj2 (load_entry_at _ _ _ _) (Hata _ _ _ He)). rstep.
    rewrite Hep. unfold load_export, load_blob, sta. simpl.
    rewrite lookup_insert_eq. simpl. unfold blob_mfa in Hbk. rewrite Hb1 in Hbk.
    simpl in Hbk. by injection Hbk as ->. }
  { right. by exists src_ix, i. }
  { rewrite Hturn, Hput. split; [done|].
    assert (length td < size (heap sta))%nat as Hlt.
    { apply (table_lt_heap sta dst_ix b td Hwfa Htd).
      - unfold sta. simpl. rewrite lookup_insert_eq. by eexists.
      - intros Hh. apply (Habs b Hh). by rewrite Hka. }
    assert (size (heap sta) = size (heap st)) as Hsz.
    { unfold sta. simpl. rewrite map_size_insert_Some by eauto.
      by apply size_heap_live. }
    lia. }
  right.
  assert (Hb'live : is_Some (heap sta !! b')) by (apply Hlive'; by exists src_ix, i).
  assert (Hkeys2 := put_post_keys _ _ _ _ _ _ Hpost Hb'live).
  assert (b' = b) as ->.
  { apply Hone.
    - apply J2. unfold sta in Hb'live. simpl in Hb'live.
      apply lookup_insert_is_Some' in Hb'live as [<-|?]; [eauto | done].
    - rewrite <- !J3, <- !Hka, <- !Hkeys2. rewrite (pp_mfa _ _ _ _ _ _ Hpost).
      by rewrite Hkeys2, Hka. }
  destruct Hpost as [P1 P2 P3 P4 P5 P6 P7 P8 P9 P10 P11 P12 P13 P14].
  exists st2. split; [by rewrite Hturn, Hput|].
  assert (Hother : ∀ b'', b'' ≠ b → heap st2 !! b'' = heap st1 !! b'').
  { intros b'' Hneb. rewrite P11 by done. unfold sta. simpl.
    by rewrite lookup_insert_ne. }
  constructor.
  - done.
  - intros b''. rewrite P7, <- J2. unfold sta. simpl.
    rewrite lookup_insert_is_Some'. split; [|by left; right].
    intros [[<-|?]| ->]; eauto.
  - intros b''. by rewrite Hkeys2, Hka.
  - intros c Hc. rewrite P4 by done. by apply J4.
  - intros c j q Hq. by apply P5, J5.
  - intros c b'' [Hh|[-> ->]]%P6.
    + by apply J6.
    + right. split; [done|]. by exists i, i0.
  - intros j b'' i1 Hj Hj'. apply P6. destruct (decide (j = i)) as [->|Hji].
    + right. rewrite Hp in Hj'. by injection Hj' as <- _.
    + left. apply (J7 j b'' i1); [lia | done].
  - intros j b'' i1 bl'' Hj Hj' Hb''. destruct (decide (j = i)) as [->|Hji].
    + rewrite Hp in Hj'. injection Hj' as <- <-.
      destruct (P8 b (set_exp x bl1)) as (bl2 & Hbl2 & Hexp2).
      { unfold sta. simpl. by rewrite lookup_insert_eq. }
      exists bl2. split; [done|]. rewrite Hexp2. simpl. by simplify_eq.
    + assert (b'' ≠ b).
      { intros ->. by destruct Hji, (Honly _ _ Hj'). }
      rewrite Hother by done. apply (J8 j b'' i1); [lia | done..].
  - intros b'' bl'' Hb'' Hpos.
    assert (b'' ≠ b).
    { intros ->. specialize (Hpos _ _ Hp). lia. }
    rewrite Hother by done. apply J9; [done|].
    intros j i1 Hj. specialize (Hpos _ _ Hj). lia.
  - rewrite (index_put_entry_mtx _ _ _ _ _ Hput). by rewrite <- J10.
  - by rewrite P12.
  - by rewrite P13.
  - by rewrite P14.
Qed.

Lemma staging_loop (st : state) (src_ix dst_ix : nat) (t : list entry_ptr) :
  wf st → one_blob st → src_ix ≠ dst_ix →
  (src_ix < ERTS_NUM_CODE_IX)%nat → (dst_ix < ERTS_NUM_CODE_IX)%nat →
  export_tables st !! src_ix = Some t →
  ∀ n i st1, staging_inv st src_ix dst_ix t i st1 → (i + n = length t)%nat →
  (export_start_staging_loop (S n) i src_ix dst_ix st1 = Fault Fatal
   ∧ EXPORT_LIMIT < Z.of_nat (size (heap st)))
  ∨ ∃ st2, export_start_staging_loop (S n) i src_ix dst_ix st1 = Ok st2
    ∧ staging_inv st src_ix dst_ix t (length t) st2.
Proof.
  intros Hwf Hone Hne Hsrc Hdst Ht. induction n as [|n IH]; intros i st1 HJ Hn;
    rewrite export_start_staging_loop_unfold;
    unfold erts_index_num_entries, index_table;
    rewrite (si_tables _ _ _ _ _ _ HJ) by done; rewrite Ht; rstep.
  - right. exists st1. rewrite decide_False by lia. split; [done|].
    by replace (length t) with i by lia.
  - rewrite decide_True by lia.
    destruct (lookup_lt_is_Some_2 t i) as [p Hp]; [lia|].
    destruct (staging_turn st src_ix dst_ix t i st1 p)
      as [[Hturn Hfull]|(st2 & Hturn & HJ2)]; [done..| |].
    + left. by rewrite Hturn.
    + rewrite Hturn. rstep. apply IH; [done|lia].
Qed.

Lemma export_start_staging_spec (st : state) (t : list entry_ptr) :
  ok st → one_blob st → erts_active_code_ix st ≠ erts_staging_code_ix st →
  export_tables st !! erts_active_code_ix st = Some t →
  (export_start_staging (S (length t)) st = Fault Fatal
   ∧ EXPORT_LIMIT < Z.of_nat (size (heap st)))
  ∨ ∃ st2,
    export_start_staging (S (length t)) st =
      Ok (set_debug_export_load_ix (Some (erts_staging_code_ix st))
            (set_export_staging_mtx false st2))
    ∧ staging_inv (set_export_staging_mtx true st) (erts_active_code_ix st)
        (erts_staging_code_ix st) t (length t) st2.
Proof.
  intros [Hwf Ha Hs Hmtx] Hone Hne Ht.
  unfold export_start_staging, export_staging_lock. rewrite Hmtx. rstep.
  destruct (staging_loop (set_export_staging_mtx true st) (erts_active_code_ix st)
              (erts_staging_code_ix st) t) with (n := length t) (i := 0%nat)
              (st1 := set_export_staging_mtx true st)
    as [[Hloop Hfull]|(st2 & Hloop & HJ)]; [by apply wf_set_mtx | done.. | |done| |].
  { apply staging_inv_start. by apply wf_set_mtx. }
  { left. by rewrite Hloop. }
  right. exists st2. split; [|done]. rewrite Hloop. rstep. unfold export_staging_unlock.
  by rewrite (si_mtx _ _ _ _ _ _ HJ).
Qed.

(** C1: with the active and the staging code index different, and no
    more live blobs than [EXPORT_LIMIT], the most a table takes,
    [export_start_staging] runs through the active table and returns;
    after it, for every entry of the active table the staging table has
    an entry in the same blob, hence for the same module, function and
    arity and pointing to the same record, and the record's dispatch
    address for the staging code index is what its dispatch address for
    the active code index was, and still is.  The active table and the
    code indices are as before and the lock is free. *)
Theorem export_start_staging_migrates (st : state) (t : list entry_ptr) :
  ok st → one_blob st → erts_active_code_ix st ≠ erts_staging_code_ix st →
  export_tables st !! erts_active_code_ix st = Some t →
  Z.of_nat (size (heap st)) ≤ EXPORT_LIMIT →
  ∃ st', export_start_staging (S (length t)) st = Ok st'
    ∧ export_tables st' !! erts_active_code_ix st = Some t
    ∧ erts_active_code_ix st' = erts_active_code_ix st
    ∧ erts_staging_code_ix st' = erts_staging_code_ix st
    ∧ export_staging_mtx st' = false
    ∧ ∀ j p, t !! j = Some p →
        ∃ b i bl j' i' e' bl' a,
          p = blob_entry b i ∧ heap st !! b = Some bl
          ∧ in_table st' (erts_staging_code_ix st) j' (blob_entry b i')
          ∧ load_entry st' (blob_entry b i') = Ok e' ∧ ep e' = in_blob b
          ∧ entry_to_blob st' (blob_entry b i') = entry_to_blob st p
          ∧ heap st' !! b = Some bl'
          ∧ info_mfa (exp bl') = info_mfa (exp bl)
          ∧ addresses (exp bl) !! erts_active_code_ix st = Some a
          ∧ addresses (exp bl') !! erts_active_code_ix st = Some a
          ∧ addresses (exp bl') !! erts_staging_code_ix st = Some a.
Proof.
  intros Hok Hone Hne Ht Hroom.
  destruct (export_start_staging_spec st t Hok Hone Hne Ht)
    as [[_ Hfull]|(st2 & Hcall & HJ)]; [lia|].
  destruct Hok as [Hwf Ha Hs Hmtx].
  destruct HJ as [J1 J2 J3 J4 J5 J6 J7 J8 J9 J10 J11 J12 J13].
  eexists. split; [done|].
  split; [rewrite <- Ht; by apply (J4 (erts_active_code_ix st))|].
  split; [exact J11|]. split; [exact J12|]. split; [done|].
  intros j p Hp.
  destruct (in_table_mfa st (erts_active_code_ix st) j p Hwf)
    as (b & i & e & k & -> & He & Hsl & Hep & Hk & Hbk); [by exists t|].
  assert (He0 := He). destruct He0 as (bl & Hb & Hi).
  destruct (J7 j b i) as (j' & i' & Hin'); [by eapply lookup_lt_Some | done |].
  destruct (in_table_mfa st2 _ j' _ J1 Hin')
    as (b' & i'' & e' & k' & [= <- <-] & He' & Hsl' & Hep' & _).
  destruct (J8 j b i bl) as (bl' & Hb' & Hexp'); [by eapply lookup_lt_Some | done..|].
  destruct (wf_blob _ Hwf _ _ Hb) as [_ Hlen].
  pose proof ERTS_ADDRESSV_SIZE_ge as Hge.
  destruct (lookup_lt_is_Some_2 (addresses (exp bl)) (erts_active_code_ix st))
    as [a Haddr]; [lia|].
  exists b, i, bl, j', i', e', bl', a.
  split; [done|]. split; [done|]. split; [done|].
  split; [by apply load_entry_at|]. split; [done|].
  split.
  { unfold entry_to_blob.
    change (load_entry (set_debug_export_load_ix _ (set_export_staging_mtx false st2))
              (blob_entry b i')) with (load_entry st2 (blob_entry b i')).
    rewrite (proj2 (load_entry_at _ _ _ _) He'), (proj2 (load_entry_at _ _ _ _) He).
    rstep. by rewrite Hep, Hep'. }
  split; [done|]. rewrite Hexp'. unfold staged_exp. rewrite Haddr.
  split; [done|]. split; [done|]. simpl. split.
  - by rewrite list_lookup_insert_ne.
  - apply list_lookup_insert_eq. lia.
Qed.

Lemma inv_export_start_staging (st : state) (t : list entry_ptr) :
  inv st → erts_active_code_ix st ≠ erts_staging_code_ix st →
  export_tables st !! erts_active_code_ix st = Some t →
  (export_start_staging (S (length t)) st = Fault Fatal
   ∧ EXPORT_LIMIT < Z.of_nat (size (heap st)))
  ∨ ∃ st', export_start_staging (S (length t)) st = Ok st' ∧ inv st'
      ∧ size (heap st') = size (heap st).
Proof.
  intros [Hok Hone Hheld Hchain Hsess] Hne Ht.
  destruct (export_start_staging_spec st t Hok Hone Hne Ht)
    as [Hfull|(st2 & Hcall & HJ)]; [by left|]. right.
  destruct Hok as [Hwf Ha Hs Hmtx].
  destruct HJ as [J1 J2 J3 J4 J5 J6 J7 J8 J9 J10 J11 J12 J13].
  change (∀ b, is_Some (heap st2 !! b) ↔ is_Some (heap st !! b)) in J2.
  change (∀ b, blob_mfa st2 b = blob_mfa st b) in J3.
  change (∀ c j p, in_table st c j p → in_table st2 c j p) in J5.
  change (∀ c b, holds st2 c b →
            holds st c b ∨ c = erts_staging_code_ix st
                           ∧ holds st (erts_active_code_ix st) b) in J6.
  change (the_active_code_index st2 = the_active_code_index st) in J11.
  change (the_staging_code_index st2 = the_staging_code_index st) in J12.
  eexists. split; [done|].
  assert (Hmono : ∀ c b, holds st c b → holds st2 c b).
  { intros c b (j & i & Hin). exists j, i. by apply J5. }
  split; [|by apply size_heap_live].
  constructor.
  - constructor.
    + by apply (wf_same_heap_tables st2).
    + unfold erts_active_code_ix in *. simpl. by rewrite J11.
    + unfold erts_staging_code_ix in *. simpl. by rewrite J12.
    + done.
  - intros b1 b2 Hb1 Hk. apply Hone; [by apply J2|].
    rewrite <- !J3. exact Hk.
  - intros b Hb. destruct (Hheld b) as [c Hc]; [by apply J2|].
    exists c. by apply Hmono.
  - intros c b Hc Hh.
    assert (Hc' : c ≠ erts_staging_code_ix st) by (intros ->; by apply Hc, eq_sym, J12).
    assert (Hhold : holds st (erts_active_code_ix st) b).
    { apply (Hchain c); [done|]. by destruct (J6 c b Hh) as [?|[? _]]. }
    apply Hmono in Hhold. unfold erts_active_code_ix in *. simpl.
    by rewrite J11.
  - intros _ b Hh.
    assert (Hh' : holds st2 (erts_active_code_ix st) b).
    { unfold erts_active_code_ix in *. simpl in Hh. by rewrite J11 in Hh. }
    destruct (J6 _ b Hh') as [(j & i & (t' & Ht' & Hj))|[? _]]; [|done].
    rewrite Ht in Ht'. injection Ht' as <-.
    assert (Hdone : holds st2 (erts_staging_code_ix st) b).
    { apply (J7 j b i); [by eapply lookup_lt_Some | done]. }
    unfold erts_staging_code_ix in *. simpl. by rewrite J12.
Qed.

Lemma inv_commit (st : state) (next : nat) :
  inv st → is_Some (debug_export_load_ix st) →
  (next < ERTS_NUM_CODE_IX)%nat → next ≠ erts_staging_code_ix st →
  ∃ st', erts_commit_staging_code_ix (export_end_staging st true) next = Ok st'
    ∧ inv st'.
Proof.
  intros [[Hwf Ha Hs Hmtx] Hone Hheld Hchain Hsess] Hdbg Hnext Hne.
  unfold erts_commit_staging_code_ix, export_end_staging, export_staging_lock.
  simpl export_staging_mtx. rewrite Hmtx. rstep.
  unfold export_staging_unlock. simpl export_staging_mtx. rstep.
  eexists. split; [done|]. constructor.
  - constructor; [|done..]. by apply (wf_same_heap_tables st).
  - done.
  - done.
  - intros c b _ Hh. change (holds st c b) in Hh.
    change (holds st (erts_staging_code_ix st) b).
    destruct (decide (c = erts_staging_code_ix st)) as [->|Hc]; [done|].
    by apply Hsess, (Hchain c).
  - simpl. by intros [? ?].
Qed.

Lemma inv_abort (st : state) : inv st → inv (export_end_staging st false).
Proof.
  intros [[Hwf Ha Hs Hmtx] Hone Hheld Hchain Hsess]. constructor; try done.
  - constructor; [|done..]. by apply (wf_same_heap_tables st).
  - simpl. by intros [? ?].
Qed.

Lemma init_export_table_inv : (0 < ERTS_NUM_CODE_IX)%nat → inv init_export_table.
Proof.
  intros Hnum.
  assert (Hempty : ∀ c j p, ¬ in_table init_export_table c j p).
  { intros c j p (t & Ht & Hj). simpl in Ht.
    apply lookup_replicate in Ht as [-> _]. by rewrite lookup_nil in Hj. }
  assert (Hheap : ∀ b i e, ¬ entry_at init_export_table b i e).
  { intros b i e (bl & Hb & _). simpl in Hb. by rewrite lookup_empty in Hb. }
  constructor.
  - constructor; [|done..]. constructor.
    + simpl. by rewrite length_replicate.
    + simpl. intros b bl Hb. by rewrite lookup_empty in Hb.
    + intros b i e He. by destruct (Hheap _ _ _ He).
    + intros c j p Hin. by destruct (Hempty _ _ _ Hin).
    + intros b i e He. by destruct (Hheap _ _ _ He).
    + intros c1 c2 j1 j2 p Hin. by destruct (Hempty _ _ _ Hin).
    + intros c j1 j2 b1 i1 b2 i2 Hin. by destruct (Hempty _ _ _ Hin).
  - intros b1 b2 [bl Hb]. simpl in Hb. by rewrite lookup_empty in Hb.
  - intros b [bl Hb]. simpl in Hb. by rewrite lookup_empty in Hb.
  - intros c b _ (j & i & Hin). by destruct (Hempty _ _ _ Hin).
  - intros _ b Hh. done.
Qed.

(** Every request keeps the discipline; it is served unless a table is
    full, and allocates one blob at most. *)
Lemma stub_post_size (st : state) (c : nat) (k : ErtsCodeMFA) (b : nat) (st' : state) :
  stub_post st c k b st' → (size (heap st) ≤ size (heap st') ≤ S (size (heap st)))%nat.
Proof. intros Hpost. eapply size_heap_one_more, Hpost. Qed.

Lemma table_full_heap (st : state) (c : nat) :
  wf st → table_full st c → EXPORT_LIMIT ≤ Z.of_nat (size (heap st)).
Proof.
  intros Hwf (t & Ht & Hfull). pose proof (table_le_heap st c t Hwf Ht). lia.
Qed.

Lemma inv_step (st : state) (c : api_call) :
  inv st →
  (step st c = Fault Fatal ∧ EXPORT_LIMIT ≤ Z.of_nat (size (heap st)))
  ∨ ∃ st', step st c = Ok st' ∧ inv st'
      ∧ (size (heap st) ≤ size (heap st') ≤ S (size (heap st)))%nat.
Proof.
  intros Hinv. destruct (inv_ok _ Hinv) as [Hwf Ha Hs Hmtx].
  destruct c as [m f a|m f a| |commit next]; simpl.
  - destruct (debug_export_load_ix st) as [d|] eqn:Hd; [|right; exists st; by auto with lia].
    destruct (erts_export_put_spec st m f a Hwf Hmtx Hs)
      as [(Hput & Hfull & _)|(b & st' & Hput & Hpost & _)]; rewrite Hput; rstep.
    + left. split; [done|]. by eapply table_full_heap.
    + right. exists st'. split; [done|]. split; [|by eapply stub_post_size].
      eapply inv_erts_export_put; [done| |done]. by rewrite Hd.
  - destruct (erts_export_get_or_make_stub_spec st m f a (inv_ok _ Hinv))
      as [(Hstub & Hfull & _)|(b & st' & Hstub & Hcases)]; rewrite Hstub; rstep.
    + left. split; [done|]. by eapply table_full_heap.
    + right. exists st'. split; [done|].
      split; [by eapply inv_erts_export_get_or_make_stub|].
      destruct Hcases as [(-> & _)|(_ & Hpost & _)]; [lia|by eapply stub_post_size].
  - destruct (debug_export_load_ix st) as [d|] eqn:Hd; [right; exists st; by auto with lia|].
    case_decide as Heq; [right; exists st; by auto with lia|].
    destruct (lookup_lt_is_Some_2 (export_tables st) (erts_active_code_ix st))
      as [t Ht]; [by rewrite (wf_tables _ Hwf)|].
    unfold erts_index_num_entries, index_table. rewrite Ht. rstep.
    destruct (inv_export_start_staging st t Hinv) as [[Hcall Hfull]|(st' & Hcall & Hinv' & Hsz)];
      [done..| |].
    + left. split; [done|lia].
    + right. exists st'. split; [done|]. split; [done|lia].
  - right. destruct (debug_export_load_ix st) as [d|] eqn:Hd; [|exists st; by auto with lia].
    destruct commit.
    + case_decide as Hnext; [|exists st; by auto with lia].
      destruct Hnext as [Hnext Hne].
      destruct (inv_commit st next Hinv) as (st' & Hcall & Hinv'); [by rewrite Hd|done..|].
      exists st'. split; [done|]. split; [done|].
      unfold erts_commit_staging_code_ix, export_end_staging, export_staging_lock,
        export_staging_unlock in Hcall.
      simpl in Hcall. rewrite Hmtx in Hcall. simpl in Hcall. injection Hcall as <-.
      simpl. lia.
    + exists (export_end_staging st false). split; [done|].
      split; [by apply inv_abort|]. simpl. lia.
Qed.

Lemma inv_step_ok (st st' : state) (c : api_call) :
  inv st → step st c = Ok st' → inv st'.
Proof.
  intros Hinv Hstep.
  destruct (inv_step st c Hinv) as [[Hf _]|(st1 & Hstep1 & Hinv1 & _)]; congruence.
Qed.

Lemma inv_run (cs : list api_call) :
  ∀ st, inv st →
  (run st cs = Fault Fatal
   ∧ EXPORT_LIMIT < Z.of_nat (size (heap st) + length cs))
  ∨ ∃ st', run st cs = Ok st' ∧ inv st'
      ∧ (size (heap st) ≤ size (heap st') ≤ size (heap st) + length cs)%nat.
Proof.
  induction cs as [|c cs IH]; intros st Hinv; simpl.
  - right. exists st. split; [done|]. split; [done|lia].
  - destruct (inv_step st c Hinv) as [[Hstep Hfull]|(st1 & Hstep & Hinv1 & Hsz1)];
      rewrite Hstep; rstep.
    + left. split; [done|lia].
    + destruct (IH st1 Hinv1) as [[Hrun Hfull]|(st' & Hrun & Hinv' & Hsz')].
      * left. split; [done|lia].
      * right. exists st'. split; [done|]. split; [done|lia].
Qed.

Lemma inv_run_ok (cs : list api_call) (st st' : state) :
  inv st → run st cs = Ok st' → inv st'.
Proof.
  intros Hinv Hrun.
  destruct (inv_run cs st Hinv) as [[Hf _]|(st1 & Hrun1 & Hinv1 & _)]; congruence.
Qed.

(** ** [export_get] *)

Lemma export_get_spec (st : state) (e : export_ptr) (x : Export) (t : list entry_ptr) :
  wf st → export_tables st !! erts_active_code_ix st = Some t →
  load_export st e = Ok x →
  (export_get st e = Ok NULL
   ∧ ∀ b, holds st (erts_active_code_ix st) b → blob_mfa st b ≠ Some (info_mfa x))
  ∨ (∃ b, export_get st e = Ok (in_blob b)
       ∧ holds st (erts_active_code_ix st) b ∧ blob_mfa st b = Some (info_mfa x)).
Proof.
  intros Hwf Ht Hx.
  destruct (hash_get_spec st _ t (stack_entry (MkEntry uninitialized e)) (info_mfa x)
              Hwf Ht) as (r & Hr & Hspec).
  { unfold entry_mfa. simpl. by rewrite Hx. }
  unfold export_get. rewrite Hr. rstep. destruct r as [q|].
  - destruct Hspec as (j & b & i & e' & -> & Hin & He & Hs & Hep & Hbk).
    right. exists b. rewrite (proj2 (load_entry_at _ _ _ _) He). rstep.
    rewrite Hep. split; [done|]. split; [by exists j, i | done].
  - left. split; [done|]. intros b (j & i & Hin). by eapply Hspec.
Qed.

(** C10: [export_get e] is the lookup of the module, function and arity
    of [e] in the active table: it returns what
    [erts_find_export_entry] returns for them, the record the table
    stores or null; and for a record that the active table holds it
    returns the pointer it was given. *)
Theorem export_get_lookup (st : state) (e : export_ptr) (x : Export) :
  wf st → (erts_active_code_ix st < ERTS_NUM_CODE_IX)%nat →
  load_export st e = Ok x →
  export_get st e =
    erts_find_export_entry st (mfa_module (info_mfa x)) (mfa_function (info_mfa x))
      (mfa_arity (info_mfa x)) (erts_active_code_ix st)
  ∧ (export_get st e = Ok NULL
     ∨ ∃ b j i en, export_get st e = Ok (in_blob b)
         ∧ in_table st (erts_active_code_ix st) j (blob_entry b i)
         ∧ load_entry st (blob_entry b i) = Ok en ∧ ep en = in_blob b
         ∧ entry_mfa st (blob_entry b i) = Ok (info_mfa x))
  ∧ (export_get st e = Ok NULL →
     ∀ j p, in_table st (erts_active_code_ix st) j p → entry_mfa st p ≠ Ok (info_mfa x))
  ∧ ∀ b, e = in_blob b → holds st (erts_active_code_ix st) b → export_get st e = Ok e.
Proof.
  intros Hwf Ha Hx.
  destruct (lookup_lt_is_Some_2 (export_tables st) (erts_active_code_ix st))
    as [t Ht]; [by rewrite (wf_tables _ Hwf)|].
  assert (Hkx : MkMFA (mfa_module (info_mfa x)) (mfa_function (info_mfa x))
                  (mfa_arity (info_mfa x)) = info_mfa x) by by destruct (info_mfa x).
  split; [|split; [|split]].
  - destruct (export_get_spec st e x t Hwf Ht Hx) as [[-> Hmiss]|(b & -> & Hb & Hk)];
    destruct (erts_find_export_entry_spec st (mfa_module (info_mfa x))
                (mfa_function (info_mfa x)) (mfa_arity (info_mfa x)) _ t Hwf Ht)
      as [[-> Hmiss']|(b' & -> & Hb' & Hk')]; rewrite ?Hkx in *; try done.
    + by destruct (Hmiss _ Hb').
    + by destruct (Hmiss' _ Hb).
    + f_equal. f_equal. apply (holds_one_key st (erts_active_code_ix st)); [done..|].
      congruence.
  - destruct (export_get_spec st e x t Hwf Ht Hx) as [[-> _]|(b & -> & Hb & Hk)];
      [by left|]. right. destruct Hb as (j & i & Hin).
    destruct (in_table_mfa st _ j _ Hwf Hin)
      as (b' & i' & en & k & [= <- <-] & Hen & _ & Hep & Hmfa & Hbk).
    exists b, j, i, en. split; [done|]. split; [done|].
    split; [by apply load_entry_at|]. split; [done|]. congruence.
  - destruct (export_get_spec st e x t Hwf Ht Hx) as [[_ Hmiss]|(b & -> & _)];
      [|done].
    intros _ j p Hin Hp.
    destruct (in_table_mfa st _ j _ Hwf Hin)
      as (b & i & en & k & -> & _ & _ & _ & Hmfa & Hbk).
    apply (Hmiss b); [by exists j, i | congruence].
  - intros b -> Hb.
    destruct (export_get_spec st (in_blob b) x t Hwf Ht Hx)
      as [[_ Hmiss]|(b' & -> & Hb' & Hk')].
    + destruct (Hmiss b Hb). unfold blob_mfa. unfold load_export, load_blob in Hx.
      destruct (heap st !! b); simpl in *; [by injection Hx as <- | done].
    + f_equal. f_equal. apply (holds_one_key st (erts_active_code_ix st)); [done..|].
      rewrite Hk'. unfold blob_mfa. unfold load_export, load_blob in Hx.
      destruct (heap st !! b); simpl in *; [by injection Hx as <- | done].
Qed.

(** ** One blob per key *)

(** No request frees a blob or changes its key. *)
Lemma step_keys (st st' : state) (c : api_call) :
  inv st → step st c = Ok st' →
  ∀ b, is_Some (heap st !! b) →
    is_Some (heap st' !! b) ∧ blob_mfa st' b = blob_mfa st b.
Proof.
  intros Hinv Hstep. destruct (inv_ok _ Hinv) as [Hwf Ha Hs Hmtx].
  destruct c as [m f a|m f a| |commit next]; simpl in Hstep.
  - destruct (debug_export_load_ix st) as [d|] eqn:Hd; [|by injection Hstep as <-].
    destruct (erts_export_put_spec st m f a Hwf Hmtx Hs)
      as [[Hput _]|(b' & st1 & Hput & Hpost & _)]; rewrite Hput in Hstep; [done|].
    injection Hstep as <-. intros b Hb.
    split; [apply (sp_live _ _ _ _ _ Hpost); by left | by apply (sp_keys _ _ _ _ _ Hpost)].
  - destruct (erts_export_get_or_make_stub_spec st m f a (inv_ok _ Hinv))
      as [[Hstub _]|(b' & st1 & Hstub & [(-> & _)|(_ & Hpost & _)])];
      rewrite Hstub in Hstep; [done|injection Hstep as <-..]; [done|]. intros b Hb.
    split; [apply (sp_live _ _ _ _ _ Hpost); by left | by apply (sp_keys _ _ _ _ _ Hpost)].
  - destruct (debug_export_load_ix st) as [d|] eqn:Hd; [by injection Hstep as <-|].
    case_decide as Heq; [by injection Hstep as <-|].
    destruct (lookup_lt_is_Some_2 (export_tables st) (erts_active_code_ix st))
      as [t Ht]; [by rewrite (wf_tables _ Hwf)|].
    unfold erts_index_num_entries, index_table in Hstep. rewrite Ht in Hstep.
    destruct (export_start_staging_spec st t (inv_ok _ Hinv) (inv_one_blob _ Hinv))
      as [[Hcall _]|(st2 & Hcall & HJ)]; [done..| |];
      revert Hstep; rstep; rewrite Hcall; [done|]. intros [= <-]. intros b Hb.
    split; [by apply (si_live _ _ _ _ _ _ HJ) | apply (si_keys _ _ _ _ _ _ HJ)].
  - destruct (debug_export_load_ix st) as [d|] eqn:Hd; [|by injection Hstep as <-].
    destruct commit.
    + case_decide as Hnext; [|by injection Hstep as <-].
      unfold erts_commit_staging_code_ix, export_end_staging, export_staging_lock,
        export_staging_unlock in Hstep.
      simpl in Hstep. rewrite Hmtx in Hstep. simpl in Hstep. by injection Hstep as <-.
    + by injection Hstep as <-.
Qed.

Lemma step_tables (st st' : state) (c : api_call) :
  inv st → step st c = Ok st' →
  (∀ c' j p, in_table st c' j p → in_table st' c' j p)
  ∧ (∀ c', c' ≠ erts_staging_code_ix st →
       export_tables st' !! c' = export_tables st !! c').
Proof.
  intros Hinv Hstep. destruct (inv_ok _ Hinv) as [Hwf Ha Hs Hmtx].
  destruct c as [m f a|m f a| |commit next]; simpl in Hstep.
  - destruct (debug_export_load_ix st) as [d|] eqn:Hd; [|by injection Hstep as <-].
    destruct (erts_export_put_spec st m f a Hwf Hmtx Hs)
      as [[Hput _]|(b' & st1 & Hput & Hpost & _)]; rewrite Hput in Hstep; [done|].
    injection Hstep as <-.
    split; [apply (sp_in_table _ _ _ _ _ Hpost) | apply (sp_tables _ _ _ _ _ Hpost)].
  - destruct (erts_export_get_or_make_stub_spec st m f a (inv_ok _ Hinv))
      as [[Hstub _]|(b' & st1 & Hstub & [(-> & _)|(_ & Hpost & _)])];
      rewrite Hstub in Hstep; [done|injection Hstep as <-..]; [done|].
    split; [apply (sp_in_table _ _ _ _ _ Hpost) | apply (sp_tables _ _ _ _ _ Hpost)].
  - destruct (debug_export_load_ix st) as [d|] eqn:Hd; [by injection Hstep as <-|].
    case_decide as Heq; [by injection Hstep as <-|].
    destruct (lookup_lt_is_Some_2 (export_tables st) (erts_active_code_ix st))
      as [t Ht]; [by rewrite (wf_tables _ Hwf)|].
    unfold erts_index_num_entries, index_table in Hstep. rewrite Ht in Hstep.
    destruct (export_start_staging_spec st t (inv_ok _ Hinv) (inv_one_blob _ Hinv))
      as [[Hcall _]|(st2 & Hcall & HJ)]; [done..| |];
      revert Hstep; rstep; rewrite Hcall; [done|]. intros [= <-].
    split; [apply (si_in_table _ _ _ _ _ _ HJ) | apply (si_tables _ _ _ _ _ _ HJ)].
  - destruct (debug_export_load_ix st) as [d|] eqn:Hd; [|by injection Hstep as <-].
    destruct commit.
    + case_decide as Hnext; [|by injection Hstep as <-].
      unfold erts_commit_staging_code_ix, export_end_staging, export_staging_lock,
        export_staging_unlock in Hstep.
      simpl in Hstep. rewrite Hmtx in Hstep. simpl in Hstep. by injection Hstep as <-.
    + by injection Hstep as <-.
Qed.

(** ** Requests served while a stub call waits *)

Lemma step_indices (st st' : state) (c : api_call) :
  inv st → commits c = false → step st c = Ok st' →
  erts_active_code_ix st' = erts_active_code_ix st
  ∧ erts_staging_code_ix st' = erts_staging_code_ix st.
Proof.
  intros Hinv Hc Hstep. destruct (inv_ok _ Hinv) as [Hwf Ha Hs Hmtx].
  destruct c as [m f a|m f a| |commit next]; simpl in Hstep.
  - destruct (debug_export_load_ix st) as [d|] eqn:Hd; [|by injection Hstep as <-].
    destruct (erts_export_put_spec st m f a Hwf Hmtx Hs)
      as [[Hput _]|(b' & st1 & Hput & Hpost & _)]; rewrite Hput in Hstep; [done|].
    injection Hstep as <-.
    split; [apply (sp_active _ _ _ _ _ Hpost) | apply (sp_staging _ _ _ _ _ Hpost)].
  - destruct (erts_export_get_or_make_stub_spec st m f a (inv_ok _ Hinv))
      as [[Hstub _]|(b' & st1 & Hstub & [(-> & _)|(_ & Hpost & _)])];
      rewrite Hstub in Hstep; [done|injection Hstep as <-..]; [done|].
    split; [apply (sp_active _ _ _ _ _ Hpost) | apply (sp_staging _ _ _ _ _ Hpost)].
  - destruct (debug_export_load_ix st) as [d|] eqn:Hd; [by injection Hstep as <-|].
    case_decide as Heq; [by injection Hstep as <-|].
    destruct (lookup_lt_is_Some_2 (export_tables st) (erts_active_code_ix st))
      as [t Ht]; [by rewrite (wf_tables _ Hwf)|].
    unfold erts_index_num_entries, index_table in Hstep. rewrite Ht in Hstep.
    destruct (export_start_staging_spec st t (inv_ok _ Hinv) (inv_one_blob _ Hinv))
      as [[Hcall _]|(st2 & Hcall & HJ)]; [done..| |];
      revert Hstep; rstep; rewrite Hcall; [done|]. intros [= <-].
    split; [apply (si_active _ _ _ _ _ _ HJ) | apply (si_staging _ _ _ _ _ _ HJ)].
  - destruct (debug_export_load_ix st) as [d|] eqn:Hd; [|by injection Hstep as <-].
    destruct commit; [done|]. by injection Hstep as <-.
Qed.

(** What the active table has of a key the staging table has too: this
    stays so as long as no commit is served. *)
Lemma quiet_step (st st' : state) (c : api_call) (k : ErtsCodeMFA) :
  inv st → commits c = false → step st c = Ok st' →
  (∀ b, holds st (erts_active_code_ix st) b → blob_mfa st b = Some k →
     holds st (erts_staging_code_ix st) b) →
  ∀ b, holds st' (erts_active_code_ix st') b → blob_mfa st' b = Some k →
    holds st' (erts_staging_code_ix st') b.
Proof.
  intros Hinv Hc Hstep HQ b.
  destruct (step_indices st st' c Hinv Hc Hstep) as [-> ->].
  destruct (decide (erts_active_code_ix st = erts_staging_code_ix st)) as [<-|Hne];
    [done|].
  destruct (step_tables st st' c Hinv Hstep) as [Hin Htab].
  intros Hh Hk. apply (holds_same_tables st st') in Hh; [|by apply Htab].
  assert (Hlive : is_Some (heap st !! b)) by (eapply holds_live; [apply Hinv|done]).
  destruct (step_keys st st' c Hinv Hstep b Hlive) as [_ Hkeys].
  rewrite Hkeys in Hk. destruct (HQ b Hh Hk) as (j & i & Hin').
  exists j, i. by apply Hin.
Qed.

Lemma quiet_run (cs : list api_call) (k : ErtsCodeMFA) :
  ∀ st st0, inv st → Forall (λ c, commits c = false) cs → run st cs = Ok st0 →
  inv st0 ∧ erts_active_code_ix st0 = erts_active_code_ix st
  ∧ ((∀ b, holds st (erts_active_code_ix st) b → blob_mfa st b = Some k →
        holds st (erts_staging_code_ix st) b) →
     ∀ b, holds st0 (erts_active_code_ix st0) b → blob_mfa st0 b = Some k →
       holds st0 (erts_staging_code_ix st0) b).
Proof.
  induction cs as [|c cs IH]; intros st st0 Hinv Hq Hrun; simpl in Hrun.
  - by injection Hrun as <-.
  - apply rbind_Ok in Hrun as (st1 & Hstep & Hrun).
    apply Forall_cons in Hq as [Hc Hq].
    destruct (IH st1 st0 (inv_step_ok _ _ _ Hinv Hstep) Hq Hrun) as (Hinv0 & Hix & HQ).
    split; [done|]. split.
    + rewrite Hix. by apply (step_indices st st1 c).
    + intros HQ0. apply HQ. by apply (quiet_step st st1 c).
Qed.

(** The turn of a stub call that inserts keeps the discipline when no
    commit was served while the call waited for the lock. *)
Lemma inv_stub_turn (st st' : state) (cs : list api_call) (m f a : Z) (p : export_ptr) :
  inv st → Forall (λ c, commits c = false) cs →
  erts_export_get_or_make_stub_conc 1 [cs] st m f a = Ok (p, st') → inv st'.
Proof.
  intros Hinv Hq Hcall. destruct (inv_ok _ Hinv) as [Hwf Ha Hs Hmtx].
  unfold erts_export_get_or_make_stub_conc in Hcall.
  rewrite erts_export_get_or_make_stub_loop_unfold in Hcall.
  apply rbind_Ok in Hcall as (found & Hfind & Hcall).
  apply rbind_Ok in Hcall as ([res st1] & Hturn & Hcall).
  destruct found as [|b|x].
  - apply rbind_Ok in Hturn as (st0 & Hrun & Hlocked).
    destruct (quiet_run cs (MkMFA m f a) st st0 Hinv Hq Hrun) as (Hinv0 & Hix & HQ).
    destruct (stub_locked_spec (erts_active_code_ix st) st0 m f a (inv_ok _ Hinv0))
      as [Hput _].
    destruct (Hput Hix) as [[Hf _]|(b & st2 & Hlocked' & Hpost & Hok')];
      [congruence|].
    rewrite Hlocked' in Hlocked. injection Hlocked as <- <-. injection Hcall as _ <-.
    apply (inv_stub_post st0 (MkMFA m f a) b st2 Hinv0 Hpost Hok').
    intros Hnone b' Hh Hk.
    destruct (sp_fresh _ _ _ _ _ Hpost Hnone) as [Hmiss _].
    apply (Hmiss b'); [|done]. apply HQ; [|done..].
    intros b0 Hh0 Hk0.
    destruct (lookup_lt_is_Some_2 (export_tables st) (erts_active_code_ix st))
      as [t Ht]; [by rewrite (wf_tables _ Hwf)|].
    destruct (erts_find_export_entry_spec st m f a _ t Hwf Ht)
      as [[_ Hmiss0]|(b1 & Hfind1 & _)]; [by destruct (Hmiss0 b0)|congruence].
  - injection Hturn as <- <-. by injection Hcall as _ <-.
  - injection Hturn as <- <-. by injection Hcall as _ <-.
Qed.

Lemma reachable_inv (st : state) :
  (0 < ERTS_NUM_CODE_IX)%nat → reachable st → inv st.
Proof.
  intros Hnum Hreach.
  induction Hreach as [|st c st' _ IH _ Hstep|st cs m f a p st' _ IH Hq Hcall].
  - by apply init_export_table_inv.
  - by eapply inv_step_ok.
  - by eapply inv_stub_turn.
Qed.

Lemma step_skip (st : state) (c : api_call) :
  disciplined st c = false → step st c = Ok st.
Proof.
  destruct c as [m f a|m f a| |commit next]; simpl;
    destruct (debug_export_load_ix st); try done.
  - intros Hd%bool_decide_eq_false. rewrite decide_True; [done|].
    by destruct (decide (erts_staging_code_ix st = erts_active_code_ix st)).
  - destruct commit; [|done]. intros Hd%bool_decide_eq_false. by rewrite decide_False.
Qed.

Lemma run_reachable (cs : list api_call) :
  ∀ st st', reachable st → run st cs = Ok st' → reachable st'.
Proof.
  induction cs as [|c cs IH]; intros st st' Hreach Hrun; simpl in Hrun.
  - by injection Hrun as <-.
  - apply rbind_Ok in Hrun as (st1 & Hstep & Hrun). apply (IH st1); [|done].
    destruct (disciplined st c) eqn:Hd; [by eapply reachable_step|].
    rewrite (step_skip st c Hd) in Hstep. by injection Hstep as <-.
Qed.

(** A turn that finds the key, or reads the same active code index with
    the lock as without, is the last, whatever the fuel and the rest of
    the schedule. *)
Lemma stub_last_turn (st st0 : state) (fuel : nat) (sched : list (list api_call))
    (m f a : Z) :
  run st (hd [] sched) = Ok st0 → ok st0 →
  erts_active_code_ix st0 = erts_active_code_ix st →
  erts_export_get_or_make_stub_conc (S fuel) sched st m f a
  = erts_export_get_or_make_stub_conc 1 [hd [] sched] st m f a.
Proof.
  intros Hrun Hok0 Hix. unfold erts_export_get_or_make_stub_conc.
  rewrite !erts_export_get_or_make_stub_loop_unfold.
  destruct (erts_find_export_entry st m f a (erts_active_code_ix st)) as [found|];
    rstep; [|done].
  destruct found as [|b|x]; [|done..].
  assert (Hhd : match sched with [] => Ok st | ev :: _ => run st ev end
                = run st (hd [] sched)) by by destruct sched.
  rewrite Hhd, Hrun. rstep.
  destruct (stub_locked_spec (erts_active_code_ix st) st0 m f a Hok0) as [Hput _].
  destruct (Hput Hix) as [[-> _]|(b & st2 & -> & _)]; [done|]. by rstep.
Qed.

Lemma relock_id (st : state) :
  export_staging_mtx st = false →
  set_export_staging_mtx false (set_export_staging_mtx true st) = st.
Proof. destruct st. simpl. by intros ->. Qed.

Lemma forallb_no_commit (cs : list api_call) :
  forallb (λ c, negb (commits c)) cs = true → Forall (λ c, commits c = false) cs.
Proof.
  intros H. apply Forall_forall. intros c Hc.
  apply negb_true_iff. rewrite forallb_forall in H. apply H.
  by apply list_elem_of_In.
Qed.

(** A stub call whose waits serve no commit it does not see leads to a
    reachable state. *)
Lemma stub_conc_reachable (m f a : Z) (fuel : nat) :
  (0 < ERTS_NUM_CODE_IX)%nat →
  ∀ sched st p st', reachable st → commits_seen sched st = true →
  erts_export_get_or_make_stub_conc fuel sched st m f a = Ok (p, st') →
  reachable st'.
Proof.
  intros Hnum. induction fuel as [|fuel IH]; intros sched st p st' Hreach Hseen Hcall;
    [done|].
  pose proof (reachable_inv st Hnum Hreach) as Hinv.
  destruct (run st (hd [] sched)) as [st0|e] eqn:Hrun.
  - assert (Hreach0 : reachable st0) by by eapply run_reachable.
    pose proof (reachable_inv st0 Hnum Hreach0) as Hinv0.
    destruct (decide (erts_active_code_ix st0 = erts_active_code_ix st)) as [Hix|Hix].
    + rewrite (stub_last_turn st st0 fuel sched m f a Hrun (inv_ok _ Hinv0) Hix) in Hcall.
      apply (reachable_stub st (hd [] sched) m f a p st' Hreach); [|done].
      destruct sched as [|cs sched]; [constructor|]. simpl in Hrun, Hseen.
      rewrite Hrun, decide_True in Hseen by done. by apply forallb_no_commit.
    + destruct sched as [|cs sched]; [simpl in Hrun; by injection Hrun as <-|].
      simpl in Hrun, Hseen. rewrite Hrun, decide_False in Hseen by done.
      unfold erts_export_get_or_make_stub_conc in Hcall.
      destruct (erts_find_export_entry st m f a (erts_active_code_ix st))
        as [[|b|x]|e] eqn:Hfind.
      * rewrite (stub_turn_race (λ cs st, run st cs) m f a fuel (cs :: sched) st st0
                   Hfind Hrun (inv_ok _ Hinv0) Hix) in Hcall.
        rewrite (relock_id st0 (ok_unlocked _ (inv_ok _ Hinv0))) in Hseen, Hcall.
        by apply (IH sched st0 p st').
      * rewrite (stub_turn_found (λ cs st, run st cs) m f a fuel (cs :: sched) st b Hfind)
          in Hcall. by injection Hcall as _ <-.
      * rewrite erts_export_get_or_make_stub_loop_unfold, Hfind in Hcall.
        revert Hcall. rstep. by intros [= _ <-].
      * rewrite erts_export_get_or_make_stub_loop_unfold, Hfind in Hcall. done.
  - unfold erts_export_get_or_make_stub_conc in Hcall.
    rewrite erts_export_get_or_make_stub_loop_unfold in Hcall.
    destruct (erts_find_export_entry st m f a (erts_active_code_ix st))
      as [[|b|x]|e'] eqn:Hfind; revert Hcall; rstep.
    + assert (Hhd : match sched with [] => Ok st | ev :: _ => run st ev end
                    = run st (hd [] sched)) by by destruct sched.
      rewrite Hhd, Hrun. done.
    + by intros [= _ <-].
    + by intros [= _ <-].
    + done.
Qed.

(** C6: in every state that a system keeping the discipline reaches from
    the empty tables (puts in a staging session only, and no commit
    served between the lookup and the insertion of a stub call), two
    live blobs never have the same module, function and arity; so two
    entries for the same key, in whatever tables, point to the same
    record and lie in the same blob, every live blob is held by some
    table, and a request that allocates a blob allocates it for a key
    that no table held.  A stub call during whose waits other threads
    have requests served, every wait with a commit leaving another
    active code index than the call has read, so that the call starts
    over, leads to such a state again: the key it asks for and they put
    resolves to one record. *)
Theorem one_blob_per_key (st : state) :
  (0 < ERTS_NUM_CODE_IX)%nat → reachable st →
  (∀ b1 b2 bl1 bl2, heap st !! b1 = Some bl1 → heap st !! b2 = Some bl2 →
     info_mfa (exp bl1) = info_mfa (exp bl2) → b1 = b2)
  ∧ (∀ c1 c2 j1 j2 p1 p2 k, in_table st c1 j1 p1 → in_table st c2 j2 p2 →
       entry_mfa st p1 = Ok k → entry_mfa st p2 = Ok k →
       ∃ b e1 e2, load_entry st p1 = Ok e1 ∧ load_entry st p2 = Ok e2
         ∧ ep e1 = in_blob b ∧ ep e2 = in_blob b
         ∧ entry_to_blob st p1 = Ok b ∧ entry_to_blob st p2 = Ok b)
  ∧ (∀ b, is_Some (heap st !! b) → ∃ c, holds st c b)
  ∧ (∀ c st', disciplined st c = true → step st c = Ok st' →
       (∀ b, is_Some (heap st !! b) → is_Some (heap st' !! b))
       ∧ ∀ b bl', heap st !! b = None → heap st' !! b = Some bl' →
           ∀ c' j p, in_table st c' j p → entry_mfa st p ≠ Ok (info_mfa (exp bl')))
  ∧ (∀ fuel sched m f a p st',
       commits_seen sched st = true →
       erts_export_get_or_make_stub_conc fuel sched st m f a = Ok (p, st') →
       reachable st'
       ∧ ∀ b1 b2 bl1 bl2, heap st' !! b1 = Some bl1 → heap st' !! b2 = Some bl2 →
           info_mfa (exp bl1) = info_mfa (exp bl2) → b1 = b2).
Proof.
  intros Hnum Hreach. pose proof (reachable_inv st Hnum Hreach) as Hinv.
  destruct (inv_ok _ Hinv) as [Hwf _ _ _].
  assert (Huniq : ∀ s, inv s → ∀ b1 b2 bl1 bl2,
            heap s !! b1 = Some bl1 → heap s !! b2 = Some bl2 →
            info_mfa (exp bl1) = info_mfa (exp bl2) → b1 = b2).
  { intros s Hs b1 b2 bl1 bl2 Hb1 Hb2 Hk. apply (inv_one_blob _ Hs); [eauto|].
    unfold blob_mfa. rewrite Hb1, Hb2. simpl. by rewrite Hk. }
  split; [|split; [|split; [|split]]].
  - by apply Huniq.
  - intros c1 c2 j1 j2 p1 p2 k Hin1 Hin2 Hk1 Hk2.
    destruct (in_table_mfa st c1 j1 p1 Hwf Hin1)
      as (b1 & i1 & e1 & k1 & -> & He1 & _ & Hep1 & Hmfa1 & Hbk1).
    destruct (in_table_mfa st c2 j2 p2 Hwf Hin2)
      as (b2 & i2 & e2 & k2 & -> & He2 & _ & Hep2 & Hmfa2 & Hbk2).
    assert (b1 = b2) as <-.
    { apply (inv_one_blob _ Hinv); [|congruence].
      destruct He1 as (bl & ? & _). eauto. }
    exists b1, e1, e2. unfold entry_to_blob.
    rewrite (proj2 (load_entry_at _ _ _ _) He1), (proj2 (load_entry_at _ _ _ _) He2).
    rstep. by rewrite Hep1, Hep2.
  - apply (inv_all_held _ Hinv).
  - intros c st' _ Hstep. pose proof (step_keys st st' c Hinv Hstep) as Hkeys.
    split; [intros b Hb; by apply Hkeys|].
    intros b bl' Hnone Hnew c' j p Hin Hp.
    destruct (in_table_mfa st c' j p Hwf Hin)
      as (b' & i' & e' & k' & -> & (bl & Hbl & _) & _ & _ & Hmfa & Hbk).
    pose proof (inv_step_ok st st' c Hinv Hstep) as Hinv'.
    destruct (Hkeys b') as [Hlive' Hk']; [eauto|].
    assert (b' = b); [|congruence].
    apply (inv_one_blob _ Hinv'); [done|].
    rewrite Hk', Hbk. unfold blob_mfa. rewrite Hnew. simpl. congruence.
  - intros fuel sched m f a p st' Hseen Hcall.
    assert (Hreach' : reachable st') by by eapply stub_conc_reachable.
    split; [done|]. apply Huniq. by apply reachable_inv.
Qed.

(** ** Stubs with other threads around *)






(** ** Loaded functions *)

Lemma erts_find_function_spec (st : state) (m f a : Z) (c : nat) (t : list entry_ptr) :
  wf st → export_tables st !! c = Some t →
  (erts_find_export_entry st m f a c = Ok NULL
   ∧ erts_find_function st m f a c = Ok NULL
   ∧ ∀ b, holds st c b → blob_mfa st b ≠ Some (MkMFA m f a))
  ∨ ∃ b bl addr,
      erts_find_export_entry st m f a c = Ok (in_blob b)
      ∧ holds st c b ∧ heap st !! b = Some bl ∧ info_mfa (exp bl) = MkMFA m f a
      ∧ addresses (exp bl) !! c = Some addr
      ∧ erts_find_function st m f a c =
          Ok (if (addr =? trampoline_address (in_blob b))
                 && negb (BeamIsOpCode (trampoline_op (exp bl)) op_i_generic_breakpoint)
              then NULL else in_blob b).
Proof.
  intros Hwf Ht.
  assert (Hc : (c < ERTS_NUM_CODE_IX)%nat).
  { rewrite <- (wf_tables _ Hwf). by eapply lookup_lt_Some. }
  destruct (hash_get_spec st c t (init_template m f a) (MkMFA m f a) Hwf Ht)
    as (r & Hr & Hspec); [done|].
  unfold erts_find_export_entry, erts_find_function, hash_fetch. rewrite Hr. rstep.
  destruct r as [q|].
  - destruct Hspec as (j & b & i & e & -> & Hin & He & Hs & Hep & Hbk).
    right. assert (He' := He). destruct He' as (bl & Hb & _).
    destruct (wf_blob _ Hwf _ _ Hb) as [_ Hlen].
    pose proof ERTS_ADDRESSV_SIZE_ge as Hge.
    destruct (lookup_lt_is_Some_2 (addresses (exp bl)) c) as [addr Haddr]; [lia|].
    exists b, bl, addr. rewrite (proj2 (load_entry_at _ _ _ _) He). rstep.
    rewrite Hep. split; [done|]. split; [by exists j, i|]. split; [done|].
    split; [unfold blob_mfa in Hbk; rewrite Hb in Hbk; by injection Hbk|].
    split; [done|].
    unfold erts_is_export_trampoline_active, load_export, load_blob.
    rewrite Hb. rstep. rewrite Haddr. rstep.
    destruct (addr =? trampoline_address (in_blob b)); [|done].
    by destruct (BeamIsOpCode _ _).
  - left. split; [done|]. split; [done|]. intros b (j & i & Hin). by eapply Hspec.
Qed.

Lemma erts_find_function_held (st : state) (m f a : Z) (c b : nat) (bl : export_blob)
    (addr : Z) :
  wf st → holds st c b → heap st !! b = Some bl → info_mfa (exp bl) = MkMFA m f a →
  addresses (exp bl) !! c = Some addr →
  erts_find_export_entry st m f a c = Ok (in_blob b)
  ∧ erts_find_function st m f a c =
      Ok (if (addr =? trampoline_address (in_blob b))
             && negb (BeamIsOpCode (trampoline_op (exp bl)) op_i_generic_breakpoint)
          then NULL else in_blob b).
Proof.
  intros Hwf Hheld Hb Hk Haddr.
  assert (Hbk : blob_mfa st b = Some (MkMFA m f a)).
  { unfold blob_mfa. rewrite Hb. simpl. by rewrite Hk. }
  assert (∃ t, export_tables st !! c = Some t) as [t Ht].
  { destruct Hheld as (j & i & t & Ht & _). eauto. }
  destruct (erts_find_function_spec st m f a c t Hwf Ht)
    as [(_ & _ & Hmiss)|(b' & bl' & addr' & Hfind & Hheld' & Hb' & Hk' & Haddr' & Hfun)].
  - by destruct (Hmiss b Hheld).
  - assert (b' = b) as ->.
    { apply (holds_one_key st c); [done..|]. rewrite Hbk. unfold blob_mfa.
      rewrite Hb'. simpl. by rewrite Hk'. }
    by simplify_eq.
Qed.

(** C4: [erts_find_function] returns null exactly when the table of the
    given code index has no entry for the key, or has one whose record
    has, for that code index, the trampoline's address as dispatch
    address while the trampoline's instruction is not
    [op_i_generic_breakpoint]; otherwise it returns what
    [erts_find_export_entry] returns.  In particular, for a key that no
    blob has and a staging table with fewer than [EXPORT_LIMIT] entries:
    after [erts_export_get_or_make_stub] the function is found
    loaded in no generation, and once the record's dispatch address for
    the staging code index, where the stub is, is set to an address
    other than the trampoline's, it is found loaded there. *)
Theorem erts_find_function_filters_stubs (st : state) (m f a : Z) (c : nat) :
  wf st → (c < ERTS_NUM_CODE_IX)%nat →
  (∃ r, erts_find_function st m f a c = Ok r
     ∧ (r = NULL ↔
          (∀ j p, in_table st c j p → entry_mfa st p ≠ Ok (MkMFA m f a))
          ∨ ∃ b bl, erts_find_export_entry st m f a c = Ok (in_blob b)
              ∧ heap st !! b = Some bl
              ∧ addresses (exp bl) !! c = Some (trampoline_address (in_blob b))
              ∧ trampoline_op (exp bl) ≠ op_i_generic_breakpoint)
     ∧ (r ≠ NULL → erts_find_export_entry st m f a c = Ok r))
  ∧ (inv st → (∀ b, blob_mfa st b ≠ Some (MkMFA m f a)) →
     op_call_error_handler ≠ op_i_generic_breakpoint →
     (BeamOpsAreInitialized = false → op_i_generic_breakpoint ≠ 0) →
     table_room st (erts_staging_code_ix st) →
     ∃ b st1, erts_export_get_or_make_stub 1 st m f a = Ok (in_blob b, st1)
       ∧ (∀ c', (c' < ERTS_NUM_CODE_IX)%nat → erts_find_function st1 m f a c' = Ok NULL)
       ∧ ∀ addr, addr ≠ trampoline_address (in_blob b) →
           ∃ st2, store_address st1 (in_blob b) (erts_staging_code_ix st) addr = Ok st2
             ∧ erts_find_function st2 m f a (erts_staging_code_ix st) = Ok (in_blob b)).
Proof.
  intros Hwf Hc. split.
  - destruct (lookup_lt_is_Some_2 (export_tables st) c) as [t Ht];
      [by rewrite (wf_tables _ Hwf)|].
    destruct (erts_find_function_spec st m f a c t Hwf Ht)
      as [(Hfind & Hfun & Hmiss)|(b & bl & addr & Hfind & Hheld & Hb & Hk & Haddr & Hfun)].
    + exists NULL. split; [done|]. split; [|done]. split; [|done]. intros _. left.
      intros j p Hin Hp.
      destruct (in_table_mfa st c j p Hwf Hin)
        as (b & i & e & k & -> & _ & _ & _ & Hmfa & Hbk).
      apply (Hmiss b); [by exists j, i | congruence].
    + eexists. split; [done|].
      assert (Hpresent : ¬ ∀ j p, in_table st c j p → entry_mfa st p ≠ Ok (MkMFA m f a)).
      { intros Habs. destruct Hheld as (j & i & Hin).
        destruct (in_table_mfa st c j _ Hwf Hin)
          as (b' & i' & e & k & [= <- <-] & _ & _ & _ & Hmfa & Hbk).
        apply (Habs _ _ Hin). rewrite Hmfa. f_equal. unfold blob_mfa in Hbk.
        rewrite Hb in Hbk. simpl in Hbk. congruence. }
      unfold BeamIsOpCode.
      destruct (Z.eqb_spec addr (trampoline_address (in_blob b))) as [->|Haddr'];
        destruct (Z.eqb_spec (trampoline_op (exp bl)) op_i_generic_breakpoint)
          as [Hop|Hop]; simpl.
      * split; [|done]. split; [done|].
        intros [?|(b' & bl' & Hfind' & Hb' & _ & Hop')]; [done|].
        rewrite Hfind in Hfind'. injection Hfind' as <-. by simplify_eq.
      * split; [|done]. split; [|done]. intros _. right. by exists b, bl.
      * split; [|done]. split; [done|].
        intros [?|(b' & bl' & Hfind' & Hb' & Haddr'' & _)]; [done|].
        rewrite Hfind in Hfind'. injection Hfind' as <-. by simplify_eq.
      * split; [|done]. split; [done|].
        intros [?|(b' & bl' & Hfind' & Hb' & Haddr'' & _)]; [done|].
        rewrite Hfind in Hfind'. injection Hfind' as <-. by simplify_eq.
  - intros Hinv Hnew Hops Hzero Hroom.
    destruct (erts_export_get_or_make_stub_spec st m f a (inv_ok _ Hinv))
      as [(_ & Hfull & _)|(b & st1 & Hstub & [(_ & _ & Hk)|(_ & Hpost & Hok1)])];
      [by destruct (table_room_not_full _ _ Hroom)|by destruct (Hnew b)|].
    exists b, st1. split; [done|].
    destruct Hpost as [P1 P2 P3 P4 P5 P6 P7 P8 P9 P10 P11 P12 P13 P14 P15].
    assert (Hnone : heap st !! b = None).
    { destruct (heap st !! b) as [bl|] eqn:Hb; [|done].
      destruct (Hnew b). rewrite <- P8 by eauto. done. }
    destruct (P11 Hnone) as [_ (bl1 & Hb1 & Hexp1)].
    assert (Hk1 : info_mfa (exp bl1) = MkMFA m f a).
    { rewrite Hexp1. by rewrite save_calls_exp_mfa. }
    assert (Haddrs : ∀ c', (c' < ERTS_NUM_CODE_IX)%nat →
              addresses (exp bl1) !! c' = Some (trampoline_address (in_blob b))).
    { intros c' Hc'. rewrite Hexp1. unfold save_calls_exp.
      assert (Hstub_addr : addresses (exp (stub_blob b (MkMFA m f a))) !! c' =
                Some (trampoline_address (in_blob b))).
      { simpl. rewrite lookup_app_l by (rewrite length_replicate; lia).
        by apply lookup_replicate_2. }
      destruct BEAMASM; [|done]. simpl addresses.
      rewrite list_lookup_insert_ne; [done|]. unfold ERTS_SAVE_CALLS_CODE_IX. lia. }
    assert (Hop1 : BeamIsOpCode (trampoline_op (exp bl1)) op_i_generic_breakpoint = false).
    { rewrite Hexp1. unfold BeamIsOpCode.
      assert (trampoline_op (save_calls_exp (exp (stub_blob b (MkMFA m f a)))) =
                if BeamOpsAreInitialized then op_call_error_handler else 0) as ->.
      { unfold save_calls_exp. by destruct BEAMASM. }
      apply Z.eqb_neq. destruct BeamOpsAreInitialized; [done|].
      intros Heq. by apply Hzero. }
    split.
    + intros c' Hc'.
      destruct (lookup_lt_is_Some_2 (export_tables st1) c') as [t' Ht'];
        [by rewrite (wf_tables _ P1)|].
      destruct (erts_find_function_spec st1 m f a c' t' P1 Ht')
        as [(_ & Hfun & _)|(b' & bl' & addr & _ & Hheld' & Hb' & Hk' & Haddr' & Hfun)];
        [done|].
      assert (b' = b) as ->.
      { destruct (decide (b' = b)) as [|Hne]; [done|].
        destruct (Hnew b'). rewrite P12 in Hb' by done. unfold blob_mfa.
        rewrite Hb'. simpl. by rewrite Hk'. }
      rewrite Hfun. rewrite Hb1 in Hb'. injection Hb' as <-.
      rewrite (Haddrs c' Hc') in Haddr'. injection Haddr' as <-.
      by rewrite Z.eqb_refl, Hop1.
    + intros addr Haddr.
      destruct (wf_blob _ P1 _ _ Hb1) as [_ Hlen].
      pose proof ERTS_ADDRESSV_SIZE_ge as Hge.
      pose proof (ok_staging _ (inv_ok _ Hinv)) as Hs.
      eexists. split.
      { apply store_address_blob; [done | lia]. }
      set (x := set_addresses _ _). set (st2 := set_heap _ _).
      assert (Hwf2 : wf st2).
      { apply wf_set_exp; [done|done| |done]. unfold x. simpl. by rewrite length_insert. }
      destruct (erts_find_function_held st2 m f a (erts_staging_code_ix st) b
                  (set_exp x bl1) addr Hwf2) as [_ Hfun].
      * exact P3.
      * unfold st2. simpl. by rewrite lookup_insert_eq.
      * done.
      * unfold x. simpl. apply list_lookup_insert_eq. lia.
      * rewrite Hfun. by rewrite (proj2 (Z.eqb_neq _ _) Haddr).
Qed.

(** * More of export.c *)

(** ** Exact lookups and the enumeration *)

Lemma erts_find_export_entry_held (st : state) (m f a : Z) (c b : nat) :
  wf st → holds st c b → blob_mfa st b = Some (MkMFA m f a) →
  erts_find_export_entry st m f a c = Ok (in_blob b).
Proof.
  intros Hwf Hheld Hk.
  assert (∃ t, export_tables st !! c = Some t) as [t Ht].
  { destruct Hheld as (j & i & t & Ht & _). eauto. }
  destruct (erts_find_export_entry_spec st m f a c t Hwf Ht)
    as [[_ Hmiss]|(b' & Hfind & Hheld' & Hk')].
  - by destruct (Hmiss b Hheld).
  - rewrite Hfind. f_equal. f_equal. apply (holds_one_key st c); [done..|]. congruence.
Qed.

(** X1: [erts_find_export_entry] returns null when, and only when, no
    entry of the table of the code index is for the given module,
    function and arity; otherwise it returns the record of the entry
    that is, which is live and has that key.  A code index that is not
    one of the tables' is a read outside [export_tables]. *)
Theorem erts_find_export_entry_lookup (st : state) (m f a : Z) (c : nat) :
  wf st →
  ((c < ERTS_NUM_CODE_IX)%nat →
     (erts_find_export_entry st m f a c = Ok NULL
      ∧ ∀ j p, in_table st c j p → entry_mfa st p ≠ Ok (MkMFA m f a))
     ∨ ∃ b j i bl, erts_find_export_entry st m f a c = Ok (in_blob b)
         ∧ in_table st c j (blob_entry b i)
         ∧ entry_mfa st (blob_entry b i) = Ok (MkMFA m f a)
         ∧ heap st !! b = Some bl ∧ info_mfa (exp bl) = MkMFA m f a)
  ∧ ((ERTS_NUM_CODE_IX ≤ c)%nat →
     erts_find_export_entry st m f a c = Fault OutOfBounds).
Proof.
  intros Hwf. split.
  - intros Hc.
    destruct (lookup_lt_is_Some_2 (export_tables st) c) as [t Ht];
      [by rewrite (wf_tables _ Hwf)|].
    destruct (erts_find_export_entry_spec st m f a c t Hwf Ht)
      as [[Hfind Hmiss]|(b & Hfind & (j & i & Hin) & Hk)].
    + left. split; [done|]. intros j p Hin Hp.
      destruct (in_table_mfa st c j p Hwf Hin)
        as (b & i & e & k & -> & _ & _ & _ & Hmfa & Hbk).
      apply (Hmiss b); [by exists j, i | congruence].
    + right.
      destruct (in_table_mfa st c j _ Hwf Hin)
        as (b' & i' & e & k & [= <- <-] & (bl & Hb & _) & _ & _ & Hmfa & Hbk).
      exists b, j, i, bl. split; [done|]. split; [done|].
      split; [congruence|]. split; [done|].
      unfold blob_mfa in Hk. rewrite Hb in Hk. by injection Hk.
  - intros Hc. unfold erts_find_export_entry, hash_fetch, hash_get, index_table.
    rewrite lookup_ge_None_2; [done|]. by rewrite (wf_tables _ Hwf).
Qed.

Lemma export_list_in_table (st : state) (c i : nat) (p : export_ptr) :
  wf st →
  export_list st i c = Ok p ↔ ∃ b i0, p = in_blob b ∧ in_table st c i (blob_entry b i0).
Proof.
  intros Hwf. unfold export_list, erts_index_lookup, index_table. split.
  - destruct (export_tables st !! c) as [t|] eqn:Ht; [|done]. rstep.
    destruct (t !! i) as [q|] eqn:Hq; [|done].
    destruct (in_table_mfa st c i q Hwf) as (b & i0 & e & k & -> & He & _ & Hep & _);
      [by exists t|].
    rstep.
    rewrite (proj2 (load_entry_at _ _ _ _) He). rstep. rewrite Hep.
    intros [= <-]. exists b, i0. split; [done|]. by exists t.
  - intros (b & i0 & -> & Hin).
    destruct (in_table_mfa st c i _ Hwf Hin)
      as (b' & i' & e & k & [= <- <-] & He & _ & Hep & _).
    destruct Hin as (t & Ht & Hi). rewrite Ht. rstep. rewrite Hi. rstep.
    rewrite (proj2 (load_entry_at _ _ _ _) He). rstep. by rewrite Hep.
Qed.

(** X2: with [n] the value of [export_list_size] for a code index,
    [export_list i] for [i] below [n] is a live record, whose key
    [erts_find_export_entry] finds in that code index as this very
    record; different [i] give different records; and [i] from [n] on is
    a read outside the table. *)
Theorem export_list_enumerates (st : state) (c : nat) :
  wf st → (c < ERTS_NUM_CODE_IX)%nat →
  ∃ n, export_list_size st c = Ok n
    ∧ (∀ i, (i < n)%nat →
         ∃ b bl, export_list st i c = Ok (in_blob b) ∧ heap st !! b = Some bl
           ∧ erts_find_export_entry st (mfa_module (info_mfa (exp bl)))
               (mfa_function (info_mfa (exp bl))) (mfa_arity (info_mfa (exp bl))) c
             = Ok (in_blob b))
    ∧ (∀ i j p, export_list st i c = Ok p → export_list st j c = Ok p → i = j)
    ∧ (∀ i, (n ≤ i)%nat → export_list st i c = Fault OutOfBounds).
Proof.
  intros Hwf Hc.
  destruct (lookup_lt_is_Some_2 (export_tables st) c) as [t Ht];
    [by rewrite (wf_tables _ Hwf)|].
  exists (length t). split.
  { unfold export_list_size, erts_index_num_entries, index_table. by rewrite Ht. }
  split; [|split].
  - intros i Hi. destruct (lookup_lt_is_Some_2 t i Hi) as [p Hp].
    destruct (in_table_mfa st c i p Hwf)
      as (b & i0 & e & k & -> & (bl & Hb & _) & _ & _ & _ & Hbk); [by exists t|].
    exists b, bl. split; [|split; [done|]].
    + apply export_list_in_table; [done|]. exists b, i0. split; [done|]. by exists t.
    + apply erts_find_export_entry_held; [done| |].
      * exists i, i0. by exists t.
      * unfold blob_mfa. rewrite Hb. simpl. by destruct (info_mfa (exp bl)).
  - intros i j p Hi Hj.
    apply export_list_in_table in Hi as (b & i0 & -> & Hi); [|done].
    apply export_list_in_table in Hj as (b' & j0 & [= <-] & Hj); [|done].
    by destruct (holds_once st c i j b i0 j0 Hwf Hi Hj).
  - intros i Hi. unfold export_list, erts_index_lookup, index_table.
    rewrite Ht. rstep. by rewrite lookup_ge_None_2.
Qed.


(** ** Calls that find what they look for *)

Lemma set_mtx_relock_id (st : state) :
  export_staging_mtx st = false →
  set_export_staging_mtx false (set_export_staging_mtx true st) = st.
Proof. destruct st. simpl. by intros ->. Qed.

Lemma index_put_entry_held (st : state) (c : nat) (m f a : Z) (b : nat) :
  wf st → holds st c b → blob_mfa st b = Some (MkMFA m f a) →
  ∃ i e, index_put_entry st c (init_template m f a) = Ok (blob_entry b i, st)
    ∧ load_entry st (blob_entry b i) = Ok e ∧ ep e = in_blob b.
Proof.
  intros Hwf Hheld Hk.
  assert (∃ t, export_tables st !! c = Some t) as [t Ht].
  { destruct Hheld as (j & i & t & Ht & _). eauto. }
  destruct (index_put_entry_spec st c t (init_template m f a) _ (MkMFA m f a) Hwf Ht
              eq_refl eq_refl) as [(_ & _ & Habs)|(b' & i & st' & Hput & Hcases & _)];
    [by left|by destruct (Habs b)|].
  destruct Hcases as [(-> & [j Hin] & Hk')|[(_ & _ & Hmiss & _)|(i0 & ? & ? & [=] & _)]].
  - assert (b' = b) as ->.
    { apply (holds_one_key st c); [done|by exists j, i|done|congruence]. }
    destruct (in_table_mfa st c j _ Hwf Hin)
      as (b' & i' & e & k' & [= <- <-] & He & _ & Hep & _).
    exists i, e. split; [done|]. split; [by apply load_entry_at|done].
  - destruct Hheld as (j & i' & Hin). by destruct (Hmiss j b i' Hin).
Qed.

Lemma set_save_calls_set (st : state) (b : nat) (bl : export_blob) :
  heap st !! b = Some bl → length (addresses (exp bl)) = ERTS_ADDRESSV_SIZE →
  (BEAMASM = true →
     addresses (exp bl) !! ERTS_SAVE_CALLS_CODE_IX = Some beam_save_calls_export) →
  set_save_calls st (in_blob b) = Ok st.
Proof.
  intros Hb Hlen Hset. rewrite (set_save_calls_blob st b bl Hb Hlen).
  unfold save_calls_exp. destruct BEAMASM; [|done].
  rewrite list_insert_id by auto.
  replace (set_addresses (addresses (exp bl)) (exp bl)) with (exp bl)
    by by destruct (exp bl).
  replace (set_exp (exp bl) bl) with bl by by destruct bl.
  rewrite insert_id by done. by destruct st.
Qed.

(** The record of a key a table holds, with its save-calls slot set, is
    what [erts_export_put] returns for the key, and nothing changes. *)
Lemma erts_export_put_held (st : state) (m f a : Z) (b : nat) (bl : export_blob) :
  wf st → export_staging_mtx st = false →
  holds st (erts_staging_code_ix st) b → heap st !! b = Some bl →
  info_mfa (exp bl) = MkMFA m f a →
  (BEAMASM = true →
     addresses (exp bl) !! ERTS_SAVE_CALLS_CODE_IX = Some beam_save_calls_export) →
  erts_export_put st m f a = Ok (in_blob b, st).
Proof.
  intros Hwf Hmtx Hheld Hb Hk Hset.
  destruct (index_put_entry_held (set_export_staging_mtx true st)
              (erts_staging_code_ix st) m f a b) as (i & e & Hput & He & Hep).
  { by apply wf_set_mtx. }
  { exact Hheld. }
  { unfold blob_mfa. simpl. by rewrite Hb, <- Hk. }
  unfold erts_export_put, export_staging_lock. rewrite Hmtx. rstep.
  rewrite Hput. rstep. unfold export_staging_unlock. simpl export_staging_mtx. rstep.
  rewrite (set_mtx_relock_id st Hmtx).
  rewrite load_entry_set_mtx in He. rewrite He. rstep. rewrite Hep.
  rewrite (set_save_calls_set st b bl); [done..| |done].
  by destruct (wf_blob st Hwf b bl Hb).
Qed.

(** What [stub_post] says of the save-calls slot of the record. *)
Lemma stub_post_save_calls (st : state) (c : nat) (k : ErtsCodeMFA) (b : nat)
    (st' : state) :
  stub_post st c k b st' →
  ∃ bl', heap st' !! b = Some bl' ∧ info_mfa (exp bl') = k
    ∧ (BEAMASM = true →
       addresses (exp bl') !! ERTS_SAVE_CALLS_CODE_IX = Some beam_save_calls_export).
Proof.
  intros Hpost.
  assert (∃ bl' x, heap st' !! b = Some bl' ∧ exp bl' = save_calls_exp x)
    as (bl' & x & Hb' & Hx).
  { destruct (heap st !! b) as [bl|] eqn:Hb.
    - destruct (sp_exp _ _ _ _ _ Hpost bl Hb) as (bl' & ? & ?). eauto.
    - destruct (sp_fresh _ _ _ _ _ Hpost Hb) as (_ & bl' & ? & ?). eauto. }
  exists bl'. split; [done|]. split.
  { pose proof (sp_mfa _ _ _ _ _ Hpost) as Hk. unfold blob_mfa in Hk.
    rewrite Hb' in Hk. by injection Hk. }
  intros Hjit.
  destruct (wf_blob st' (sp_wf _ _ _ _ _ Hpost) b bl' Hb') as [_ Hlen].
  rewrite Hx in Hlen |- *. revert Hlen. unfold save_calls_exp, ERTS_ADDRESSV_SIZE.
  rewrite Hjit. simpl. rewrite length_insert. intros Hlen.
  apply list_lookup_insert_eq. unfold ERTS_SAVE_CALLS_CODE_IX. lia.
Qed.

(** X3: [erts_export_put] is idempotent: called again for the same
    module, function and arity it returns the record it returned, and
    leaves the state, tables, blobs and byte counter, as it is. *)
Theorem erts_export_put_idempotent (st st1 : state) (m f a : Z) (p : export_ptr) :
  wf st → export_staging_mtx st = false →
  (erts_staging_code_ix st < ERTS_NUM_CODE_IX)%nat →
  erts_export_put st m f a = Ok (p, st1) →
  erts_export_put st1 m f a = Ok (p, st1).
Proof.
  intros Hwf Hmtx Hs Hput.
  destruct (erts_export_put_spec st m f a Hwf Hmtx Hs)
    as [[Hput' _]|(b & st' & Hput' & Hpost & Hmtx')]; rewrite Hput in Hput'; [done|].
  injection Hput' as -> ->.
  destruct (stub_post_save_calls _ _ _ _ _ Hpost) as (bl' & Hb' & Hk & Hset).
  apply (erts_export_put_held st' m f a b bl'); [apply Hpost|done| |done..].
  unfold erts_staging_code_ix. rewrite (sp_staging _ _ _ _ _ Hpost). apply Hpost.
Qed.

(** The record of a key the staging table holds, with its save-calls
    slot set, is what [erts_export_get_or_make_stub] returns for the key
    when the active table has no other record for it; nothing changes. *)
Lemma erts_export_get_or_make_stub_held (st : state) (m f a : Z) (b : nat)
    (bl : export_blob) :
  ok st → holds st (erts_staging_code_ix st) b → heap st !! b = Some bl →
  info_mfa (exp bl) = MkMFA m f a →
  (BEAMASM = true →
     addresses (exp bl) !! ERTS_SAVE_CALLS_CODE_IX = Some beam_save_calls_export) →
  (∀ b', holds st (erts_active_code_ix st) b' →
     blob_mfa st b' = Some (MkMFA m f a) → b' = b) →
  erts_export_get_or_make_stub 1 st m f a = Ok (in_blob b, st).
Proof.
  intros Hok Hheld Hb Hk Hset Huniq. destruct (Hok) as [Hwf Ha Hs Hmtx].
  destruct (lookup_lt_is_Some_2 (export_tables st) (erts_active_code_ix st))
    as [t Ht]; [by rewrite (wf_tables _ Hwf)|].
  destruct (erts_find_export_entry_spec st m f a _ t Hwf Ht)
    as [[Hfind _]|(b' & Hfind & Hh & Hk')].
  - destruct (index_put_entry_held (set_export_staging_mtx true st)
                (erts_staging_code_ix st) m f a b) as (i & e & Hput & He & Hep).
    { by apply wf_set_mtx. }
    { exact Hheld. }
    { unfold blob_mfa. simpl. by rewrite Hb, <- Hk. }
    unfold erts_export_get_or_make_stub.
    rewrite erts_export_get_or_make_stub_loop_unfold, Hfind. rstep.
    unfold stub_locked, export_staging_lock. rewrite Hmtx. rstep.
    rewrite decide_True by done. rstep.
    change (erts_staging_code_ix (set_export_staging_mtx true st))
      with (erts_staging_code_ix st).
    rewrite Hput. rstep. rewrite He. rstep. rewrite Hep.
    rewrite (set_save_calls_set _ b bl); [|done| |done].
    + rstep. unfold export_staging_unlock. simpl export_staging_mtx. rstep.
      by rewrite (set_mtx_relock_id st Hmtx).
    + by destruct (wf_blob st Hwf b bl Hb).
  - rewrite (Huniq b' Hh Hk') in Hfind. by apply stub_turn_found.
Qed.

(** X4: [erts_export_get_or_make_stub] is idempotent as well: the second
    call returns the record of the first, whether that was found in the
    active table or made in the staging one, and changes nothing. *)
Theorem erts_export_get_or_make_stub_idempotent (st st1 : state) (m f a : Z)
    (p : export_ptr) :
  ok st →
  erts_export_get_or_make_stub 1 st m f a = Ok (p, st1) →
  erts_export_get_or_make_stub 1 st1 m f a = Ok (p, st1).
Proof.
  intros Hok Hstub.
  destruct (erts_export_get_or_make_stub_spec st m f a Hok)
    as [[Hstub' _]|(b & st' & Hstub' & [(-> & _)|(Hmiss & Hpost & Hok')])];
    rewrite Hstub in Hstub'; [done|injection Hstub' as -> ->..]; [done|].
  destruct (stub_post_save_calls _ _ _ _ _ Hpost) as (bl' & Hb' & Hk & Hset).
  apply (erts_export_get_or_make_stub_held st' m f a b bl'); [done| |done..|].
  - unfold erts_staging_code_ix. rewrite (sp_staging _ _ _ _ _ Hpost). apply Hpost.
  - intros b' Hh Hk'.
    apply (sp_holds _ _ _ _ _ Hpost) in Hh as [Hh|[_ ->]]; [|done].
    unfold erts_active_code_ix in Hh. rewrite (sp_active _ _ _ _ _ Hpost) in Hh.
    rewrite (sp_keys _ _ _ _ _ Hpost) in Hk' by by eapply holds_live; [apply Hok|].
    by destruct (Hmiss b' Hh).
Qed.


(** ** What a staging session starts from *)

(** X5: with no more live blobs than [EXPORT_LIMIT], after
    [export_start_staging] a lookup in the staging generation finds what the lookup in the active generation found before, and,
    for a key the active generation does not have, what the staging
    generation had already; the lookups in the other generations are as
    they were, and no blob has been allocated or freed. *)
Theorem export_start_staging_lookup (st : state) (t : list entry_ptr) :
  ok st → one_blob st → erts_active_code_ix st ≠ erts_staging_code_ix st →
  export_tables st !! erts_active_code_ix st = Some t →
  Z.of_nat (size (heap st)) ≤ EXPORT_LIMIT →
  ∃ st', export_start_staging (S (length t)) st = Ok st'
    ∧ (∀ m f a,
         erts_find_export_entry st' m f a (erts_staging_code_ix st) =
           match erts_find_export_entry st m f a (erts_active_code_ix st) with
           | Ok NULL => erts_find_export_entry st m f a (erts_staging_code_ix st)
           | r => r
           end)
    ∧ (∀ c m f a, c ≠ erts_staging_code_ix st → (c < ERTS_NUM_CODE_IX)%nat →
         erts_find_export_entry st' m f a c = erts_find_export_entry st m f a c)
    ∧ (∀ b, is_Some (heap st' !! b) ↔ is_Some (heap st !! b)).
Proof.
  intros Hok Hone Hne Ht Hroom. destruct (Hok) as [Hwf Ha Hs Hmtx].
  destruct (export_start_staging_spec st t Hok Hone Hne Ht)
    as [[_ Hfull]|(st2 & Hcall & HJ)]; [lia|].
  eexists. split; [exact Hcall|].
  set (st' := set_debug_export_load_ix _ _).
  assert (Hwf' : wf st').
  { by apply (wf_same_heap_tables st2); [..|apply HJ]. }
  assert (Hkeys : ∀ b, blob_mfa st' b = blob_mfa st b) by apply (si_keys _ _ _ _ _ _ HJ).
  assert (Hin : ∀ c j p, in_table st c j p → in_table st' c j p)
    by apply (si_in_table _ _ _ _ _ _ HJ).
  split; [|split].
  - intros m f a.
    destruct (erts_find_export_entry_spec st m f a _ t Hwf Ht)
      as [[Hfa Hma]|(b & Hfa & Hha & Hka)]; rewrite Hfa.
    + destruct (lookup_lt_is_Some_2 (export_tables st) (erts_staging_code_ix st))
        as [ts Hts]; [by rewrite (wf_tables _ Hwf)|].
      destruct (erts_find_export_entry_spec st m f a _ ts Hwf Hts)
        as [[Hfs Hms]|(b & Hfs & (j & i & Hhs) & Hks)]; rewrite Hfs.
      * destruct (lookup_lt_is_Some_2 (export_tables st') (erts_staging_code_ix st))
          as [ts' Hts']; [by rewrite (wf_tables _ Hwf')|].
        destruct (erts_find_export_entry_spec st' m f a _ ts' Hwf' Hts')
          as [[Hfs' _]|(b & _ & Hhs' & Hks')]; [done|].
        rewrite Hkeys in Hks'.
        destruct (si_holds _ _ _ _ _ _ HJ _ _ Hhs') as [Hh|[_ Hh]].
        -- by destruct (Hms b Hh).
        -- by destruct (Hma b Hh).
      * apply erts_find_export_entry_held; [done| |by rewrite Hkeys].
        exists j, i. by apply Hin.
    + apply erts_find_export_entry_held; [done| |by rewrite Hkeys].
      destruct Hha as (j & i & t' & Ht' & Hj).
      assert (t' = t) as -> by congruence.
      apply (si_done _ _ _ _ _ _ HJ j b i); [by eapply lookup_lt_Some|done].
  - intros c m f a Hc Hlt.
    apply erts_find_export_entry_frame; [done..| |by intros b _].
    by apply (si_tables _ _ _ _ _ _ HJ).
  - apply (si_live _ _ _ _ _ _ HJ).
Qed.

Lemma table_holds_dec (t : list entry_ptr) (b : nat) :
  (∃ j i, t !! j = Some (blob_entry b i)) ∨ ¬ (∃ j i, t !! j = Some (blob_entry b i)).
Proof.
  induction t as [|p t IH].
  - right. by intros (j & i & ?).
  - destruct IH as [(j & i & Hj)|IH]; [left; by exists (S j), i|].
    destruct p as [b' i'|e].
    + destruct (decide (b' = b)) as [->|Hb]; [left; by exists 0%nat, i'|].
      right. intros ([|j] & i & Hj); simpl in Hj; [congruence|]. apply IH. eauto.
    + right. intros ([|j] & i & Hj); simpl in Hj; [congruence|]. apply IH. eauto.
Qed.

(** X6: with no more live blobs than [EXPORT_LIMIT], of a record
    [export_start_staging] changes the dispatch address of the staging
    generation and nothing else: its key, its trampoline
    and the addresses of the other generations are as they were; and a
    record the active generation does not hold is not changed at all. *)
Theorem export_start_staging_records (st : state) (t : list entry_ptr) :
  ok st → one_blob st → erts_active_code_ix st ≠ erts_staging_code_ix st →
  export_tables st !! erts_active_code_ix st = Some t →
  Z.of_nat (size (heap st)) ≤ EXPORT_LIMIT →
  ∃ st', export_start_staging (S (length t)) st = Ok st'
    ∧ ∀ b bl, heap st !! b = Some bl →
        ∃ bl', heap st' !! b = Some bl'
          ∧ exp bl' = set_addresses (addresses (exp bl')) (exp bl)
          ∧ length (addresses (exp bl')) = length (addresses (exp bl))
          ∧ (∀ c, c ≠ erts_staging_code_ix st →
               addresses (exp bl') !! c = addresses (exp bl) !! c)
          ∧ (¬ holds st (erts_active_code_ix st) b → exp bl' = exp bl).
Proof.
  intros Hok Hone Hne Ht Hroom. destruct (Hok) as [Hwf Ha Hs Hmtx].
  destruct (export_start_staging_spec st t Hok Hone Hne Ht)
    as [[_ Hfull]|(st2 & Hcall & HJ)]; [lia|].
  eexists. split; [exact Hcall|]. intros b bl Hb.
  destruct (table_holds_dec t b) as [(j & i & Hj)|Hnot].
  - destruct (si_exp_done _ _ _ _ _ _ HJ j b i bl) as (bl' & Hb' & Hx);
      [by eapply lookup_lt_Some|done..|].
    exists bl'. split; [exact Hb'|]. rewrite Hx. unfold staged_exp.
    destruct (addresses (exp bl) !! erts_active_code_ix st) as [addr|].
    + simpl. split; [done|]. split; [by rewrite length_insert|]. split.
      * intros c Hc. by apply list_lookup_insert_ne.
      * intros []. exists j, i, t. done.
    + split; [by destruct (exp bl)|]. done.
  - destruct (si_exp_todo _ _ _ _ _ _ HJ b bl Hb) as (bl' & Hb' & Hx).
    { intros j i Hj. destruct Hnot. by exists j, i. }
    exists bl'. split; [exact Hb'|]. rewrite Hx. split; [by destruct (exp bl)|]. done.
Qed.


(** ** What no request undoes *)

Lemma export_list_size_length (st : state) (c n : nat) :
  export_list_size st c = Ok n ↔ ∃ t, export_tables st !! c = Some t ∧ length t = n.
Proof.
  unfold export_list_size, erts_index_num_entries, index_table.
  destruct (export_tables st !! c) as [t|]; rstep.
  - split; [intros [= <-]; eauto | by intros (? & [= <-] & <-)].
  - split; [done | by intros (? & ? & _)].
Qed.

Lemma export_list_step (st st' : state) (c : api_call) (i ix : nat) (p : export_ptr) :
  inv st → step st c = Ok st' → inv st' →
  export_list st i ix = Ok p → export_list st' i ix = Ok p.
Proof.
  intros Hinv Hstep Hinv' Hlist.
  apply export_list_in_table in Hlist as (b & i0 & -> & Hin); [|apply Hinv].
  apply export_list_in_table; [apply Hinv'|]. exists b, i0. split; [done|].
  by apply (step_tables st st' c).
Qed.

(** X7: records stay where they are.  Whatever the loader, the stub
    makers and the code index manager do next, a live record stays live
    at its address and keeps its module, function and arity; an entry
    keeps its place in its table, so [export_list] returns for an index
    what it returned; and no table gets shorter. *)
Theorem export_records_stable (cs : list api_call) (st st' : state) :
  inv st → run st cs = Ok st' →
  (∀ b bl, heap st !! b = Some bl →
     ∃ bl', heap st' !! b = Some bl' ∧ info_mfa (exp bl') = info_mfa (exp bl))
  ∧ (∀ ix i p, export_list st i ix = Ok p → export_list st' i ix = Ok p)
  ∧ (∀ ix n, export_list_size st ix = Ok n →
       ∃ n', export_list_size st' ix = Ok n' ∧ (n ≤ n')%nat).
Proof.
  revert st. induction cs as [|c cs IH]; intros st Hinv Hrun; simpl in Hrun.
  - injection Hrun as <-. split; [eauto|]. split; [done|]. eauto.
  - apply rbind_Ok in Hrun as (st1 & Hstep & Hrun).
    pose proof (inv_step_ok st st1 c Hinv Hstep) as Hinv1.
    destruct (IH st1 Hinv1 Hrun) as (IHk & IHl & IHs).
    split; [|split].
    + intros b bl Hb.
      destruct (step_keys st st1 c Hinv Hstep b) as [[bl1 Hb1] Hk1]; [by eexists|].
      destruct (IHk b bl1 Hb1) as (bl' & Hb' & Hk'). exists bl'. split; [done|].
      unfold blob_mfa in Hk1. rewrite Hb, Hb1 in Hk1. simpl in Hk1. congruence.
    + intros ix i p Hl. apply IHl. by apply (export_list_step st st1 c).
    + intros ix n Hn. apply export_list_size_length in Hn as (t & Ht & Hlen).
      assert (Hix : (ix < ERTS_NUM_CODE_IX)%nat).
      { rewrite <- (wf_tables st (ok_wf _ (inv_ok _ Hinv))). by eapply lookup_lt_Some. }
      destruct (lookup_lt_is_Some_2 (export_tables st1) ix) as [t1 Ht1];
        [by rewrite (wf_tables _ (ok_wf _ (inv_ok _ Hinv1)))|].
      destruct (IHs ix (length t1)) as (n' & Hn' & Hle);
        [apply export_list_size_length; eauto|].
      exists n'. split; [done|]. etrans; [|exact Hle]. subst n.
      destruct (decide (length t ≤ length t1)%nat) as [|Hgt]; [done|].
      destruct (lookup_lt_is_Some_2 t (length t1)) as [q Hq]; [lia|].
      destruct (proj1 (step_tables st st1 c Hinv Hstep) ix (length t1) q)
        as (t1' & Ht1' & Hq1); [by exists t|].
      assert (t1' = t1) as -> by congruence.
      apply lookup_lt_Some in Hq1. lia.
Qed.

(** X8: only the staging generation is written.  Whatever request is
    served, the table of every other code index, the active one among
    them when it is not the staging one, has the entries it had, in the
    same places, and the lookups in it return what they returned. *)
Theorem staging_generation_only_written (st st' : state) (c : api_call) (ix : nat) :
  inv st → step st c = Ok st' → ix ≠ erts_staging_code_ix st →
  (ix < ERTS_NUM_CODE_IX)%nat →
  export_tables st' !! ix = export_tables st !! ix
  ∧ export_list_size st' ix = export_list_size st ix
  ∧ (∀ i, export_list st' i ix = export_list st i ix)
  ∧ (∀ m f a, erts_find_export_entry st' m f a ix = erts_find_export_entry st m f a ix).
Proof.
  intros Hinv Hstep Hix Hlt.
  pose proof (inv_step_ok st st' c Hinv Hstep) as Hinv'.
  destruct (step_tables st st' c Hinv Hstep) as [Hin Htab].
  pose proof (Htab ix Hix) as Hsame.
  split; [done|]. split; [|split].
  - unfold export_list_size, erts_index_num_entries, index_table. by rewrite Hsame.
  - intros i.
    destruct (export_list st i ix) as [p|e] eqn:Hl.
    + by apply (export_list_step st st' c).
    + revert Hl. unfold export_list, erts_index_lookup, index_table.
      rewrite Hsame. destruct (export_tables st !! ix) as [t|] eqn:Ht; [|done]. rstep.
      destruct (t !! i) as [q|] eqn:Hq; [|done].
      destruct (in_table_mfa st ix i q (ok_wf _ (inv_ok _ Hinv)))
        as (b & i0 & en & k & -> & He & _); [by exists t|].
      rstep. by rewrite (proj2 (load_entry_at _ _ _ _) He).
  - intros m f a. apply erts_find_export_entry_frame;
      [apply Hinv|apply Hinv'|done|done|].
    intros b Hb. by apply (step_keys st st' c).
Qed.


(** ** The byte counter *)

Lemma aint_wrap_add_l (x y : Z) : aint_wrap (aint_wrap x + y) = aint_wrap (x + y).
Proof.
  unfold aint_wrap. f_equal.
  replace ((x + 2 ^ 63) mod 2 ^ 64 - 2 ^ 63 + y + 2 ^ 63)
    with ((x + 2 ^ 63) mod 2 ^ 64 + y) by lia.
  rewrite Zplus_mod_idemp_l. f_equal. lia.
Qed.

Lemma aint_wrap_add_r (x y : Z) : aint_wrap (x + aint_wrap y) = aint_wrap (x + y).
Proof. by rewrite Z.add_comm, aint_wrap_add_l, Z.add_comm. Qed.

Lemma aint_wrap_Uint_wrap (z : Z) : aint_wrap (Uint_wrap z) = aint_wrap z.
Proof. unfold aint_wrap, Uint_wrap. by rewrite Zplus_mod_idemp_l. Qed.

Lemma store_export_bytes (st st' : state) (p : export_ptr) (x : Export) :
  store_export st p x = Ok st' → bytes_ok st → bytes_ok st'.
Proof.
  destruct p as [|b|]; [done| |done]. unfold store_export, load_blob, bytes_ok.
  destruct (heap st !! b) as [bl|] eqn:Hb; [|done]. rstep. intros [= <-].
  cbn [total_entries_bytes heap set_heap]. by rewrite map_size_insert_Some.
Qed.

Lemma store_address_bytes (st st' : state) (p : export_ptr) (ix : nat) (v : Z) :
  store_address st p ix v = Ok st' → bytes_ok st → bytes_ok st'.
Proof.
  unfold store_address. intros (x & _ & H)%rbind_Ok.
  case_decide; [|done]. exact (store_export_bytes _ _ _ _ H).
Qed.

Lemma store_entry_bytes (st st' : state) (p : entry_ptr) (e : export_entry) :
  store_entry st p e = Ok st' → bytes_ok st → bytes_ok st'.
Proof.
  destruct p as [b i|]; [|done]. unfold store_entry, load_blob, bytes_ok.
  destruct (heap st !! b) as [bl|] eqn:Hb; [|done]. rstep.
  case_decide; [|done]. intros [= <-].
  cbn [total_entries_bytes heap set_heap]. by rewrite map_size_insert_Some.
Qed.

Lemma set_save_calls_bytes (st st' : state) (p : export_ptr) :
  set_save_calls st p = Ok st' → bytes_ok st → bytes_ok st'.
Proof.
  unfold set_save_calls. destruct BEAMASM; [apply store_address_bytes|].
  by intros [= <-].
Qed.

Lemma export_alloc_bytes (st st' : state) (tmpl p : entry_ptr) :
  export_alloc st tmpl = Ok (p, st') → bytes_ok st → bytes_ok st'.
Proof.
  unfold export_alloc. intros (te & _ & H)%rbind_Ok Hb.
  destruct (slot_index te =? -1).
  - apply rbind_Ok in H as (tmpl' & _ & H). injection H as _ <-.
    unfold bytes_ok in *. cbn [total_entries_bytes heap set_heap set_total_entries_bytes].
    rewrite map_size_insert_None by apply erts_alloc_fresh.
    unfold erts_atomic_add_nob. rewrite Hb, aint_wrap_add_l, aint_wrap_add_r.
    f_equal. lia.
  - apply rbind_Ok in H as (b & _ & H). apply rbind_Ok in H as (blob & _ & H).
    apply rbind_Ok in H as (ix & _ & H). by injection H as _ <-.
Qed.

Lemma index_put_entry_bytes (st st' : state) (c : nat) (tmpl p : entry_ptr) :
  index_put_entry st c tmpl = Ok (p, st') → bytes_ok st → bytes_ok st'.
Proof.
  unfold index_put_entry. intros (t & _ & H)%rbind_Ok Hb.
  apply rbind_Ok in H as (found & _ & H).
  apply rbind_Ok in H as ([p1 st1] & Hal & H).
  apply rbind_Ok in H as (e & _ & H).
  assert (Hb1 : bytes_ok st1).
  { destruct found; [by injection Hal as _ <-|]. by eapply export_alloc_bytes. }
  destruct (0 <=? slot_index e); [by injection H as _ <-|].
  destruct (EXPORT_LIMIT <=? Z.of_nat (length t)); [done|].
  apply rbind_Ok in H as (st2 & Hst & H). injection H as _ <-.
  change (bytes_ok st2). by eapply store_entry_bytes.
Qed.

Lemma export_staging_lock_bytes (st st' : state) :
  export_staging_lock st = Ok st' → bytes_ok st → bytes_ok st'.
Proof.
  unfold export_staging_lock. destruct (export_staging_mtx st); [done|].
  by intros [= <-].
Qed.

Lemma export_staging_unlock_bytes (st st' : state) :
  export_staging_unlock st = Ok st' → bytes_ok st → bytes_ok st'.
Proof.
  unfold export_staging_unlock. destruct (export_staging_mtx st); [|done].
  by intros [= <-].
Qed.

Lemma erts_export_put_bytes (st st' : state) (m f a : Z) (p : export_ptr) :
  erts_export_put st m f a = Ok (p, st') → bytes_ok st → bytes_ok st'.
Proof.
  unfold erts_export_put. intros (st1 & H1 & H)%rbind_Ok Hb.
  apply rbind_Ok in H as ([ee st2] & H2 & H).
  apply rbind_Ok in H as (st3 & H3 & H).
  apply rbind_Ok in H as (e & _ & H).
  apply rbind_Ok in H as (st4 & H4 & H). injection H as _ <-.
  eapply set_save_calls_bytes; [done|].
  eapply export_staging_unlock_bytes; [done|].
  eapply index_put_entry_bytes; [done|].
  by eapply export_staging_lock_bytes.
Qed.

Lemma stub_locked_bytes (code_ix : nat) (st st' : state) (m f a : Z) (p : export_ptr) :
  stub_locked code_ix st m f a = Ok (p, st') → bytes_ok st → bytes_ok st'.
Proof.
  unfold stub_locked. intros (st1 & H1 & H)%rbind_Ok Hb.
  apply rbind_Ok in H as ([res st2] & H2 & H).
  apply rbind_Ok in H as (st3 & H3 & H). injection H as _ <-.
  eapply export_staging_unlock_bytes; [done|].
  apply export_staging_lock_bytes in H1; [|done].
  case_decide; [|by injection H2 as _ <-].
  apply rbind_Ok in H2 as ([entry st4] & H4 & H2).
  apply rbind_Ok in H2 as (e & _ & H2).
  apply rbind_Ok in H2 as (st5 & H5 & H2). injection H2 as _ <-.
  eapply set_save_calls_bytes; [done|]. by eapply index_put_entry_bytes.
Qed.

Lemma stub_loop_bytes {E : Type} (interfere : E → state → result state) (m f a : Z) :
  (∀ ev st st', interfere ev st = Ok st' → bytes_ok st → bytes_ok st') →
  ∀ fuel sched st p st',
    erts_export_get_or_make_stub_loop interfere fuel sched st m f a = Ok (p, st') →
    bytes_ok st → bytes_ok st'.
Proof.
  intros Hint. induction fuel as [|fuel IH]; [done|]. intros sched st p st' H Hb.
  rewrite erts_export_get_or_make_stub_loop_unfold in H.
  apply rbind_Ok in H as (found & _ & H).
  apply rbind_Ok in H as ([res st1] & H1 & H).
  assert (Hb1 : bytes_ok st1).
  { destruct found; [|by injection H1 as _ <-..].
    apply rbind_Ok in H1 as (st0 & H0 & H1).
    eapply stub_locked_bytes; [done|].
    destruct sched as [|ev sched']; [by injection H0 as <-|]. by eapply Hint. }
  destruct res; [by eapply IH|by injection H as _ <-..].
Qed.

Lemma export_start_staging_loop_bytes (src_ix dst_ix : nat) :
  ∀ fuel i st st',
    export_start_staging_loop fuel i src_ix dst_ix st = Ok st' →
    bytes_ok st → bytes_ok st'.
Proof.
  induction fuel as [|fuel IH]; [done|]. intros i st st' H Hb.
  rewrite export_start_staging_loop_unfold in H.
  apply rbind_Ok in H as (n & _ & H). case_decide; [|by injection H as <-].
  apply rbind_Ok in H as (st1 & H1 & H). eapply IH; [done|].
  unfold export_start_staging_turn in H1.
  apply rbind_Ok in H1 as (src_entry & _ & H1).
  apply rbind_Ok in H1 as (e & _ & H1).
  apply rbind_Ok in H1 as (x & _ & H1).
  apply rbind_Ok in H1 as (v & _ & H1).
  apply rbind_Ok in H1 as (st2 & H2 & H1).
  apply rbind_Ok in H1 as ([q st3] & H3 & H1). injection H1 as <-.
  eapply index_put_entry_bytes; [done|]. by eapply store_address_bytes.
Qed.

Lemma export_start_staging_bytes (fuel : nat) (st st' : state) :
  export_start_staging fuel st = Ok st' → bytes_ok st → bytes_ok st'.
Proof.
  unfold export_start_staging. intros (st1 & H1 & H)%rbind_Ok Hb.
  apply rbind_Ok in H as (st2 & H2 & H).
  apply rbind_Ok in H as (st3 & H3 & H). injection H as <-.
  change (bytes_ok st3).
  eapply export_staging_unlock_bytes; [done|].
  eapply export_start_staging_loop_bytes; [done|].
  by eapply export_staging_lock_bytes.
Qed.

Lemma step_bytes (st st' : state) (c : api_call) :
  step st c = Ok st' → bytes_ok st → bytes_ok st'.
Proof.
  destruct c as [m f a|m f a| |commit next]; simpl; intros H Hb.
  - destruct (debug_export_load_ix st); [|by injection H as <-].
    apply rbind_Ok in H as ([p st1] & H1 & H). injection H as <-.
    by eapply erts_export_put_bytes.
  - apply rbind_Ok in H as ([p st1] & H1 & H). injection H as <-.
    by eapply (stub_loop_bytes (λ (_ : Empty_set) st, Ok st)).
  - destruct (debug_export_load_ix st); [by injection H as <-|].
    case_decide; [by injection H as <-|].
    apply rbind_Ok in H as (n & _ & H). by eapply export_start_staging_bytes.
  - destruct (debug_export_load_ix st); [|by injection H as <-].
    destruct commit; [|by injection H as <-].
    case_decide; [|by injection H as <-].
    unfold erts_commit_staging_code_ix in H.
    apply rbind_Ok in H as (st1 & H1 & H).
    apply export_staging_unlock_bytes in H; [done|].
    change (bytes_ok st1). by eapply export_staging_lock_bytes.
Qed.

Lemma run_bytes (cs : list api_call) :
  ∀ st st', run st cs = Ok st' → bytes_ok st → bytes_ok st'.
Proof.
  induction cs as [|c cs IH]; intros st st' H Hb; simpl in H.
  - by injection H as <-.
  - apply rbind_Ok in H as (st1 & H1 & H). eapply IH; [done|]. by eapply step_bytes.
Qed.

Lemma int_wrap_aint_wrap (z : Z) : int_wrap (aint_wrap z) = int_wrap z.
Proof.
  unfold int_wrap, aint_wrap. f_equal.
  pose proof (Z.div_mod (z + 2 ^ 63) (2 ^ 64)) as Hdiv.
  replace ((z + 2 ^ 63) mod 2 ^ 64 - 2 ^ 63 + 2 ^ 31)
    with (z + 2 ^ 31 + (- (2 ^ 32 * ((z + 2 ^ 63) / 2 ^ 64))) * 2 ^ 32) by lia.
  by rewrite Z.mod_add.
Qed.

Lemma int_wrap_small (z : Z) : - 2 ^ 31 ≤ z < 2 ^ 31 → int_wrap z = z.
Proof. intros Hz. unfold int_wrap. rewrite Z.mod_small; lia. Qed.

Lemma reachable_bytes (st : state) : reachable st → bytes_ok st.
Proof.
  intros Hreach.
  induction Hreach as [|st c st' _ IH _ Hstep|st cs m f a p st' _ IH Hq Hcall].
  - unfold bytes_ok. simpl. rewrite map_size_empty. by rewrite Z.mul_0_r.
  - by eapply step_bytes.
  - eapply (stub_loop_bytes (λ cs st, run st cs)); [|exact Hcall|exact IH].
    intros ev s s'. apply run_bytes.
Qed.

(** X9: [export_entries_sz] is the size of a blob times the number of
    live blobs, cut to the 32 bits of the [int] it returns, in every
    state the requests lead to from the empty tables, and so the very
    product as long as that fits an [int]; and the stub call keeps this
    whatever requests are served while it waits for the lock. *)
Theorem export_entries_sz_counts_blobs (st : state) :
  reachable st →
  export_entries_sz st = int_wrap (sizeof_export_blob * Z.of_nat (size (heap st)))
  ∧ (- 2 ^ 31 ≤ sizeof_export_blob * Z.of_nat (size (heap st)) < 2 ^ 31 →
     export_entries_sz st = sizeof_export_blob * Z.of_nat (size (heap st)))
  ∧ ∀ fuel sched m f a p st',
      erts_export_get_or_make_stub_conc fuel sched st m f a = Ok (p, st') →
      export_entries_sz st'
      = int_wrap (sizeof_export_blob * Z.of_nat (size (heap st'))).
Proof.
  intros Hreach. pose proof (reachable_bytes st Hreach) as Hb.
  assert (Hsz : ∀ s, bytes_ok s →
            export_entries_sz s = int_wrap (sizeof_export_blob * Z.of_nat (size (heap s)))).
  { intros s Hs. unfold export_entries_sz. rewrite Hs. apply int_wrap_aint_wrap. }
  split; [by apply Hsz|]. split.
  - intros Hfit. rewrite (Hsz st Hb). by apply int_wrap_small.
  - intros fuel sched m f a p st' Hstub. apply Hsz.
    eapply (stub_loop_bytes (λ cs st, run st cs)); [|exact Hstub|exact Hb].
    intros ev s s'. apply run_bytes.
Qed.

(** X10: the two hooks of the tables keep the counter in step with the
    blobs: when the byte counter counts the live blobs before a call of
    [export_alloc] or of [export_free], it counts them after it, whether
    the call has allocated a blob or taken an entry of one, freed the
    blob or only released an entry of it. *)
Theorem export_alloc_free_count_blobs (st : state) :
  bytes_ok st →
  (∀ tmpl p st', export_alloc st tmpl = Ok (p, st') → bytes_ok st')
  ∧ (∀ obj st', export_free st obj = Ok st' → bytes_ok st').
Proof.
  intros Hb. split; [intros tmpl p st' H; by eapply export_alloc_bytes|].
  intros obj st' H. unfold export_free in H.
  apply rbind_Ok in H as (b & _ & H). apply rbind_Ok in H as (e & _ & H).
  apply rbind_Ok in H as (st1 & H1 & H). apply rbind_Ok in H as (blob & Hblob & H).
  apply rbind_Ok in H as (assigned & _ & H).
  apply store_entry_bytes in H1; [|done].
  destruct assigned; [by injection H as <-|].
  apply rbind_Ok in H as (st2 & H2 & H). injection H as <-.
  unfold erts_free in H2. apply rbind_Ok in H2 as (? & _ & H2). injection H2 as <-.
  unfold load_blob in Hblob. apply of_option_Ok in Hblob.
  unfold bytes_ok in *. cbn [total_entries_bytes heap set_heap set_total_entries_bytes].
  rewrite map_size_delete_Some by eauto.
  assert (size (heap st1) ≠ 0%nat).
  { intros Hz. apply map_size_empty_inv in Hz. by rewrite Hz in Hblob. }
  unfold erts_atomic_add_nob.
  rewrite H1, aint_wrap_add_l, aint_wrap_add_r, <- aint_wrap_add_r, aint_wrap_Uint_wrap,
    aint_wrap_add_r.
  destruct (size (heap st1)) as [|n]; [done|]. cbn [Init.Nat.pred]. f_equal. lia.
Qed.


(** ** Allocation undone, and what a put leaves in the record *)

(** X11: [export_free] undoes [export_alloc]: freeing the entry that
    [export_alloc] returned for a template gives back the state before
    the allocation, heap, tables and byte counter. *)
Theorem export_alloc_free_round_trip (st : state) (tmpl_e : entry_ptr)
    (te : export_entry) (tmpl : Export) :
  (0 < ERTS_NUM_CODE_IX)%nat →
  load_entry st tmpl_e = Ok te → slot_index te = -1 →
  load_export st (ep te) = Ok tmpl →
  - 2 ^ 63 ≤ total_entries_bytes st < 2 ^ 63 →
  ∃ p st1, export_alloc st tmpl_e = Ok (p, st1)
    ∧ heap st1 ≠ heap st
    ∧ export_free st1 p = Ok st.
Proof.
  intros Hnum Hte Hslot Htmpl Hrange.
  rewrite (export_alloc_template st tmpl_e te tmpl Hte Hslot Htmpl).
  set (b := erts_alloc st). set (k := info_mfa tmpl).
  set (st1 := set_total_entries_bytes _ _).
  exists (blob_entry b 0), st1. split; [done|].
  assert (Hb1 : heap st1 !! b = Some (stub_blob b k)) by apply lookup_insert_eq.
  split.
  { intros Heq. rewrite Heq in Hb1. unfold b in Hb1.
    by rewrite erts_alloc_fresh in Hb1. }
  destruct (export_free_step st1 b 0 (stub_blob b k) (MkEntry (-1) (in_blob b)) Hb1)
    as [_ Hlast].
  { apply length_replicate. }
  { by apply lookup_replicate_2. }
  { done. }
  rewrite Hlast.
  - f_equal. unfold st1, erts_atomic_add_nob.
    cbn [total_entries_bytes heap set_heap set_total_entries_bytes].
    rewrite aint_wrap_Uint_wrap, aint_wrap_add_r, aint_wrap_add_l.
    replace (total_entries_bytes st + aint_wrap sizeof_export_blob + - sizeof_export_blob)
      with (total_entries_bytes st + - sizeof_export_blob + aint_wrap sizeof_export_blob)
      by lia.
    rewrite aint_wrap_add_r.
    replace (total_entries_bytes st + - sizeof_export_blob + sizeof_export_blob)
      with (total_entries_bytes st) by lia.
    rewrite (aint_wrap_small _ Hrange).
    unfold set_total_entries_bytes, set_heap.
    cbn [heap export_tables total_entries_bytes export_staging_mtx the_active_code_index
         the_staging_code_index debug_export_load_ix].
    rewrite delete_insert_id by apply erts_alloc_fresh. by destruct st.
  - intros j e' _ [-> _]%lookup_replicate. simpl. lia.
Qed.

(** X12: what [erts_export_put], on a staging table with fewer than
    [EXPORT_LIMIT] entries, leaves in the record it returns.  With
    the JIT the save-calls slot of the dispatch array holds
    [beam_save_calls_export].  A record that was there keeps everything
    else: its code addresses of all generations, key, trampoline and
    BIF fields.  A record that was not dispatches to its trampoline in
    every generation.  No other blob is touched. *)
Theorem erts_export_put_dispatch (st : state) (m f a : Z) :
  wf st → export_staging_mtx st = false →
  (erts_staging_code_ix st < ERTS_NUM_CODE_IX)%nat →
  table_room st (erts_staging_code_ix st) →
  ∃ b st' bl', erts_export_put st m f a = Ok (in_blob b, st')
    ∧ heap st' !! b = Some bl'
    ∧ length (addresses (exp bl')) = ERTS_ADDRESSV_SIZE
    ∧ (BEAMASM = true →
       addresses (exp bl') !! ERTS_SAVE_CALLS_CODE_IX = Some beam_save_calls_export)
    ∧ (∀ bl, heap st !! b = Some bl →
         exp bl' = set_addresses (addresses (exp bl')) (exp bl)
         ∧ ∀ c, (c < ERTS_NUM_CODE_IX)%nat →
             addresses (exp bl') !! c = addresses (exp bl) !! c)
    ∧ (heap st !! b = None →
         ∀ c, (c < ERTS_NUM_CODE_IX)%nat →
           addresses (exp bl') !! c = Some (trampoline_address (in_blob b)))
    ∧ (∀ b', b' ≠ b → heap st' !! b' = heap st !! b').
Proof.
  intros Hwf Hmtx Hs Hroom.
  destruct (erts_export_put_spec st m f a Hwf Hmtx Hs)
    as [(_ & Hfull & _)|(b & st' & Hput & Hpost & _)];
    [by destruct (table_room_not_full _ _ Hroom)|].
  destruct (stub_post_save_calls _ _ _ _ _ Hpost) as (bl' & Hb' & _ & Hset).
  exists b, st', bl'. split; [done|]. split; [done|].
  split; [by destruct (wf_blob st' (sp_wf _ _ _ _ _ Hpost) b bl' Hb')|].
  split; [done|].
  assert (Hsave : ∀ x c, (c < ERTS_NUM_CODE_IX)%nat →
            addresses (save_calls_exp x) !! c = addresses x !! c).
  { intros x c Hc. unfold save_calls_exp. destruct BEAMASM; [|done]. simpl.
    apply list_lookup_insert_ne. unfold ERTS_SAVE_CALLS_CODE_IX. lia. }
  split; [|split].
  - intros bl Hb. destruct (sp_exp _ _ _ _ _ Hpost bl Hb) as (bl2 & Hb2 & Hx).
    assert (bl2 = bl') as -> by congruence. rewrite Hx. split.
    + unfold save_calls_exp. destruct BEAMASM; [done|]. by destruct (exp bl).
    + apply Hsave.
  - intros Hb c Hc.
    destruct (sp_fresh _ _ _ _ _ Hpost Hb) as (_ & bl2 & Hb2 & Hx).
    assert (bl2 = bl') as -> by congruence. rewrite Hx, Hsave by done. simpl.
    rewrite lookup_app_l by by rewrite length_replicate.
    by apply lookup_replicate_2.
  - apply (sp_other _ _ _ _ _ Hpost).
Qed.


(** ** The loader and the stub makers together *)

(** X13: in a staging session [erts_export_put] and
    [erts_export_get_or_make_stub] give one record for a key: the stub
    call after a put returns the record of the put and changes nothing,
    and the put after a stub call returns the record of the stub call. *)
Theorem erts_export_put_stub_agree (st : state) (m f a : Z) :
  inv st → is_Some (debug_export_load_ix st) →
  (∀ p st1, erts_export_put st m f a = Ok (p, st1) →
     erts_export_get_or_make_stub 1 st1 m f a = Ok (p, st1))
  ∧ (∀ p st1, erts_export_get_or_make_stub 1 st m f a = Ok (p, st1) →
     ∃ st2, erts_export_put st1 m f a = Ok (p, st2)).
Proof.
  intros Hinv Hsess. destruct (inv_ok _ Hinv) as [Hwf Ha Hs Hmtx]. split.
  - intros p st1 Hput. pose proof (inv_erts_export_put _ _ _ _ _ _ Hinv Hsess Hput) as Hinv1.
    destruct (erts_export_put_spec st m f a Hwf Hmtx Hs)
      as [[Hput' _]|(b & st' & Hput' & Hpost & _)]; rewrite Hput in Hput'; [done|].
    injection Hput' as -> ->.
    destruct (stub_post_save_calls _ _ _ _ _ Hpost) as (bl' & Hb' & Hk & Hset).
    apply (erts_export_get_or_make_stub_held st' m f a b bl'); [apply Hinv1| |done..|].
    + unfold erts_staging_code_ix. rewrite (sp_staging _ _ _ _ _ Hpost). apply Hpost.
    + intros b' Hh Hk'. apply (inv_one_blob _ Hinv1).
      * eapply holds_live; [apply Hinv1|done].
      * rewrite Hk'. symmetry. apply Hpost.
  - intros p st1 Hstub.
    pose proof (inv_erts_export_get_or_make_stub _ _ _ _ _ _ Hinv Hstub) as Hinv1.
    assert (∃ b, p = in_blob b ∧ blob_mfa st1 b = Some (MkMFA m f a)
                 ∧ debug_export_load_ix st1 = debug_export_load_ix st
                 ∧ holds st1 (erts_staging_code_ix st1) b)
      as (b & -> & Hk & Hdbg & Hheld).
    { destruct (erts_export_get_or_make_stub_spec st m f a (inv_ok _ Hinv))
        as [[Hstub' _]|(b & st' & Hstub' & [(-> & Hh & Hk)|(_ & Hpost & _)])];
        rewrite Hstub in Hstub'; [done|injection Hstub' as -> ->; exists b..].
      - split; [done|]. split; [done|]. split; [done|]. by apply (inv_session _ Hinv).
      - split; [done|]. split; [apply Hpost|]. split; [apply Hpost|].
        unfold erts_staging_code_ix. rewrite (sp_staging _ _ _ _ _ Hpost). apply Hpost. }
    destruct (inv_ok _ Hinv1) as [Hwf1 Ha1 Hs1 Hmtx1].
    destruct (erts_export_put_spec st1 m f a Hwf1 Hmtx1 Hs1)
      as [(_ & _ & Habs)|(b2 & st2 & Hput & Hpost & _)]; [by destruct (Habs b)|].
    exists st2. rewrite Hput. f_equal. f_equal. f_equal.
    assert (Hinv2 : inv st2).
    { eapply inv_erts_export_put; [exact Hinv1| |exact Hput]. by rewrite Hdbg. }
    assert (Hlive : is_Some (heap st1 !! b)).
    { unfold blob_mfa in Hk. destruct (heap st1 !! b); [by eexists|done]. }
    symmetry. apply (inv_one_blob _ Hinv2).
    + apply (sp_live _ _ _ _ _ Hpost). by left.
    + rewrite (sp_keys _ _ _ _ _ Hpost) by done. rewrite Hk. symmetry. apply Hpost.
Qed.

Lemma stub_post_table (st : state) (c : nat) (k : ErtsCodeMFA) (b : nat) (st' : state)
    (t : list entry_ptr) :
  wf st → stub_post st c k b st' → export_tables st !! c = Some t →
  ∃ t', export_tables st' !! c = Some t'
    ∧ ((holds st c b ∧ t' = t) ∨ (¬ holds st c b ∧ ∃ i, t' = t ++ [blob_entry b i])).
Proof.
  intros Hwf Hpost Ht. pose proof (sp_wf _ _ _ _ _ Hpost) as Hwf'.
  destruct (lookup_lt_is_Some_2 (export_tables st') c) as [t' Ht'].
  { rewrite (wf_tables _ Hwf'), <- (wf_tables _ Hwf). by eapply lookup_lt_Some. }
  exists t'. split; [done|].
  assert (Hpre : ∀ j p, t !! j = Some p → t' !! j = Some p).
  { intros j p Hj. destruct (sp_in_table _ _ _ _ _ Hpost c j p) as (t'' & Ht'' & Hj');
      [by exists t|]. congruence. }
  assert (Hnew : ∀ j p, t' !! j = Some p → (length t ≤ j)%nat →
            (∃ i, p = blob_entry b i) ∧ ¬ holds st c b).
  { intros j p Hj Hge.
    assert (Hin : in_table st' c j p) by by exists t'.
    assert (Hold : ∀ b' i', p = blob_entry b' i' → ¬ holds st c b').
    { intros b' i' -> (j0 & i0 & t0 & Ht0 & Hj0).
      assert (t0 = t) as -> by congruence.
      destruct (holds_once st' c j j0 b' i' i0 Hwf' Hin) as [-> _].
      - exists t'. split; [done|]. by apply Hpre.
      - apply lookup_lt_Some in Hj0. lia. }
    destruct (wf_table _ Hwf' c j p Hin) as (b' & i' & e & -> & _).
    assert (Hh : holds st' c b') by by exists j, i'.
    apply (sp_holds _ _ _ _ _ Hpost) in Hh as [Hh|[_ ->]].
    - by destruct (Hold b' i' eq_refl).
    - split; [by exists i'|]. by apply (Hold b i'). }
  assert (Htake : take (length t) t' = t).
  { apply list_eq. intros j. destruct (decide (j < length t)%nat) as [Hlt|Hge].
    - rewrite lookup_take_lt by done.
      destruct (lookup_lt_is_Some_2 t j Hlt) as [p Hp]. rewrite Hp. by apply Hpre.
    - rewrite lookup_take_ge by lia. symmetry. apply lookup_ge_None_2. lia. }
  assert (Hle : (length t ≤ length t')%nat).
  { destruct (decide (length t ≤ length t')%nat) as [|Hgt]; [done|].
    destruct (lookup_lt_is_Some_2 t (length t')) as [p Hp]; [lia|].
    apply Hpre, lookup_lt_Some in Hp. lia. }
  rewrite <- (take_drop (length t) t'), Htake in Ht' |- *.
  rewrite <- (take_drop (length t) t'), Htake in Hnew.
  destruct (drop (length t) t') as [|p [|q d]].
  - left. split; [|by rewrite app_nil_r].
    destruct (sp_held _ _ _ _ _ Hpost) as (j & i & t'' & Ht'' & Hj).
    rewrite app_nil_r in Ht'. assert (t'' = t) as -> by congruence.
    exists j, i, t. done.
  - right. destruct (Hnew (length t) p) as [[i ->] Hnot];
      [by apply list_lookup_middle|done|]. split; [done|]. by exists i.
  - exfalso.
    destruct (Hnew (length t) p) as [[i ->] _]; [by apply list_lookup_middle|done|].
    destruct (Hnew (S (length t)) q) as [[i' ->] _]; [|lia|].
    { rewrite lookup_app_r by lia. by replace (S (length t) - length t)%nat with 1%nat by lia. }
    destruct (holds_once st' c (length t) (S (length t)) b i i' Hwf') as [Hjj _].
    + eexists. split; [exact Ht'|]. by apply list_lookup_middle.
    + eexists. split; [exact Ht'|]. rewrite lookup_app_r by lia.
      by replace (S (length t) - length t)%nat with 1%nat by lia.
    + lia.
Qed.

(** X14: [erts_export_put] appends.  On a staging table with fewer than
    [EXPORT_LIMIT] entries: for a key the table has, the table is left
    as it is; for a key it does not have, the entry of the record
    returned becomes the last of the table, the index the table's size
    before the call, and nothing else is added: the size grows by
    one. *)
Theorem erts_export_put_appends (st : state) (m f a : Z) (t : list entry_ptr) :
  wf st → export_staging_mtx st = false →
  export_tables st !! erts_staging_code_ix st = Some t →
  Z.of_nat (length t) < EXPORT_LIMIT →
  ∃ b st', erts_export_put st m f a = Ok (in_blob b, st')
    ∧ ((erts_find_export_entry st m f a (erts_staging_code_ix st) = Ok (in_blob b)
        ∧ export_tables st' !! erts_staging_code_ix st = Some t)
       ∨ (erts_find_export_entry st m f a (erts_staging_code_ix st) = Ok NULL
          ∧ (∃ i, export_tables st' !! erts_staging_code_ix st
                  = Some (t ++ [blob_entry b i]))
          ∧ export_list_size st' (erts_staging_code_ix st) = Ok (S (length t))
          ∧ export_list st' (length t) (erts_staging_code_ix st) = Ok (in_blob b))).
Proof.
  intros Hwf Hmtx Ht Hroom.
  assert (Hs : (erts_staging_code_ix st < ERTS_NUM_CODE_IX)%nat).
  { rewrite <- (wf_tables _ Hwf). by eapply lookup_lt_Some. }
  destruct (erts_export_put_spec st m f a Hwf Hmtx Hs)
    as [(_ & Hfull & _)|(b & st' & Hput & Hpost & _)].
  { destruct (table_room_not_full st (erts_staging_code_ix st)); [by exists t|done]. }
  exists b, st'. split; [done|]. pose proof (sp_wf _ _ _ _ _ Hpost) as Hwf'.
  destruct (stub_post_table st _ _ b st' t Hwf Hpost Ht)
    as (t' & Ht' & [[Hh ->]|[Hnot [i ->]]]).
  - left. split; [|done]. apply erts_find_export_entry_held; [done..|].
    rewrite <- (sp_keys _ _ _ _ _ Hpost) by by eapply holds_live. apply Hpost.
  - right. split; [|split; [by exists i|split]].
    + destruct (erts_find_export_entry_spec st m f a _ t Hwf Ht)
        as [[Hfind _]|(b' & _ & Hh & Hk)]; [done|]. destruct Hnot.
      assert (b' = b) as <-; [|done].
      apply (holds_one_key st' (erts_staging_code_ix st)); [done| | |].
      * apply (sp_holds _ _ _ _ _ Hpost). by left.
      * apply Hpost.
      * rewrite (sp_keys _ _ _ _ _ Hpost) by by eapply holds_live.
        rewrite Hk. symmetry. apply Hpost.
    + apply export_list_size_length. eexists. split; [exact Ht'|].
      rewrite length_app. simpl. lia.
    + apply export_list_in_table; [done|]. exists b, i. split; [done|].
      eexists. split; [exact Ht'|]. by apply list_lookup_middle.
Qed.


(** ** Staging what is staged *)

(** A turn of the loop of [export_start_staging] for an entry whose
    record the destination table holds already, with the address of the
    source generation, changes nothing. *)
Lemma export_start_staging_turn_staged (st : state) (src_ix dst_ix i : nat)
    (t : list entry_ptr) (b i0 : nat) (bl : export_blob) (v : Z) :
  wf st → export_tables st !! src_ix = Some t → t !! i = Some (blob_entry b i0) →
  heap st !! b = Some bl → holds st dst_ix b →
  addresses (exp bl) !! src_ix = Some v → addresses (exp bl) !! dst_ix = Some v →
  export_start_staging_turn i src_ix dst_ix st = Ok st.
Proof.
  intros Hwf Ht Hi Hb Hheld Hsrc Hdst.
  assert (Hin : in_table st src_ix i (blob_entry b i0)) by by exists t.
  destruct (in_table_mfa st src_ix i _ Hwf Hin)
    as (b' & i' & e & k & [= <- <-] & He & _ & Hep & Hmfa & Hk).
  pose proof (proj2 (load_entry_at _ _ _ _) He) as Hload.
  unfold export_start_staging_turn, erts_index_lookup, index_table.
  rewrite Ht. rstep. rewrite Hi. rstep. rewrite Hload. rstep. rewrite Hep.
  unfold store_address, load_export, load_blob. rewrite Hb. rstep.
  rewrite Hsrc. rstep. rewrite decide_True by by eapply lookup_lt_Some.
  unfold store_export, load_blob. rewrite Hb. rstep.
  rewrite list_insert_id by done.
  replace (set_addresses (addresses (exp bl)) (exp bl)) with (exp bl)
    by by destruct (exp bl).
  replace (set_exp (exp bl) bl) with bl by by destruct bl.
  rewrite insert_id by done.
  replace (set_heap (heap st) st) with st by by destruct st.
  assert (∃ td, export_tables st !! dst_ix = Some td) as [td Htd].
  { destruct Hheld as (? & ? & td & ? & _). eauto. }
  destruct (index_put_entry_spec st dst_ix td (blob_entry b i0) e k Hwf Htd Hload Hmfa)
    as [(_ & _ & Habs)|(b' & i' & st' & Hput & Hcases & _)];
    [right; by exists src_ix, i|by destruct (Habs b)|].
  rewrite Hput. rstep. f_equal.
  destruct Hcases as [(-> & _)|[(_ & Hnot & _)|(? & ? & ? & [= <- _] & _ & Hnot & _)]].
  - done.
  - destruct Hnot. by exists src_ix, i.
  - by destruct Hnot.
Qed.

Lemma export_start_staging_loop_staged (st : state) (src_ix dst_ix : nat)
    (t : list entry_ptr) :
  wf st → export_tables st !! src_ix = Some t →
  (∀ j p, t !! j = Some p →
     ∃ b i0 bl v, p = blob_entry b i0 ∧ heap st !! b = Some bl ∧ holds st dst_ix b
       ∧ addresses (exp bl) !! src_ix = Some v ∧ addresses (exp bl) !! dst_ix = Some v) →
  ∀ n i, (i + n = length t)%nat →
    export_start_staging_loop (S n) i src_ix dst_ix st = Ok st.
Proof.
  intros Hwf Ht Hall. induction n as [|n IH]; intros i Hi;
    rewrite export_start_staging_loop_unfold;
    unfold erts_index_num_entries, index_table; rewrite Ht; rstep.
  - by rewrite decide_False by lia.
  - rewrite decide_True by lia.
    destruct (lookup_lt_is_Some_2 t i) as [p Hp]; [lia|].
    destruct (Hall i p Hp) as (b & i0 & bl & v & -> & Hb & Hheld & Hsrc & Hdst).
    rewrite (export_start_staging_turn_staged st src_ix dst_ix i t b i0 bl v) by done.
    rstep. apply IH. lia.
Qed.

(** X15: [export_start_staging] is idempotent: with no more live blobs
    than [EXPORT_LIMIT], run again on the state it has left, with
    nothing loaded in between, it goes through the active table once
    more and changes nothing. *)
Theorem export_start_staging_idempotent (st : state) (t : list entry_ptr) :
  ok st → one_blob st → erts_active_code_ix st ≠ erts_staging_code_ix st →
  export_tables st !! erts_active_code_ix st = Some t →
  Z.of_nat (size (heap st)) ≤ EXPORT_LIMIT →
  ∃ st', export_start_staging (S (length t)) st = Ok st'
    ∧ export_start_staging (S (length t)) st' = Ok st'.
Proof.
  intros Hok Hone Hne Ht Hcap. destruct (Hok) as [Hwf Ha Hs Hmtx].
  destruct (export_start_staging_spec st t Hok Hone Hne Ht)
    as [[_ Hfull]|(st2 & Hcall & HJ)]; [lia|].
  eexists. split; [exact Hcall|].
  set (st' := set_debug_export_load_ix _ _).
  assert (Hact : erts_active_code_ix st' = erts_active_code_ix st)
    by apply (si_active _ _ _ _ _ _ HJ).
  assert (Hstg : erts_staging_code_ix st' = erts_staging_code_ix st)
    by apply (si_staging _ _ _ _ _ _ HJ).
  assert (Hwf2 : wf (set_export_staging_mtx true st')).
  { by apply (wf_same_heap_tables st2); [..|apply HJ]. }
  unfold export_start_staging, export_staging_lock. simpl export_staging_mtx. rstep.
  rewrite Hact, Hstg.
  rewrite (export_start_staging_loop_staged _ _ _ t Hwf2).
  - reflexivity.
  - change (export_tables st2 !! erts_active_code_ix st = Some t).
    by rewrite (si_tables _ _ _ _ _ _ HJ).
  - intros j p Hp.
    destruct (wf_table _ Hwf (erts_active_code_ix st) j p) as (b & i0 & e & -> & He & _);
      [by exists t|].
    destruct He as (bl & Hb & _).
    destruct (si_exp_done _ _ _ _ _ _ HJ j b i0 bl) as (bl' & Hb' & Hx);
      [by eapply lookup_lt_Some|done..|].
    destruct (wf_blob _ Hwf b bl Hb) as [_ Hlen].
    pose proof ERTS_ADDRESSV_SIZE_ge as Hge.
    destruct (lookup_lt_is_Some_2 (addresses (exp bl)) (erts_active_code_ix st))
      as [v Hv]; [lia|].
    exists b, i0, bl', v. split; [done|]. split; [exact Hb'|]. split.
    { apply (si_done _ _ _ _ _ _ HJ j b i0); [by eapply lookup_lt_Some|done]. }
    rewrite Hx. unfold staged_exp. rewrite Hv. simpl. split.
    + by rewrite list_lookup_insert_ne.
    + apply list_lookup_insert_eq. lia.
  - lia.
Qed.


(** ** A full table *)




End proofs.

(** ** The theorems at work on the computed states *)

#[local] Existing Instance interpreter.

Lemma booted_reachable : reachable booted.
Proof.
  apply (run_reachable boot_calls init_export_table);
    [apply reachable_init | vm_compute; reflexivity].
Qed.

Lemma booted_inv : inv booted.
Proof. apply reachable_inv; [simpl; lia | apply booted_reachable]. Qed.

Lemma booted_jit_reachable : @reachable jit booted_jit.
Proof.
  apply (@run_reachable jit jit_calls (@init_export_table jit));
    [apply reachable_init | vm_compute; reflexivity].
Qed.

(** The tables of the booted system are far from full. *)
Lemma booted_room : table_room booted (erts_staging_code_ix booted).
Proof. exists [blob_entry 1 0]. split; vm_compute; reflexivity. Qed.

Lemma booted_heap_room : Z.of_nat (size (heap booted)) ≤ EXPORT_LIMIT.
Proof. vm_compute. discriminate. Qed.

(** The hash and the comparison of [m1:f2/1] and [m1:f2/2]. *)
Lemma export_hash_cmp_structural_witness :
  entry_mfa booted (init_template (make_atom 1) (make_atom 2) 1)
    = Ok (MkMFA (make_atom 1) (make_atom 2) 1)
  ∧ export_hash booted (init_template (make_atom 1) (make_atom 2) 1) = Ok 3
  ∧ ∃ c, export_cmp booted (init_template (make_atom 1) (make_atom 2) 1)
           (init_template (make_atom 1) (make_atom 2) 2) = Ok c
      ∧ c ≠ 0.
Proof.
  destruct (export_hash_cmp_structural booted booted
              (init_template (make_atom 1) (make_atom 2) 1)
              (init_template (make_atom 1) (make_atom 2) 2)
              (init_template (make_atom 1) (make_atom 2) 1)
              (MkMFA (make_atom 1) (make_atom 2) 1)
              (MkMFA (make_atom 1) (make_atom 2) 2)
              eq_refl eq_refl eq_refl) as (Hhash & _ & c & Hc & _ & Hne).
  split; [reflexivity|]. split; [exact Hhash|].
  exists c. split; [exact Hc|].
  apply Hne; [reflexivity | reflexivity | vm_compute; discriminate].
Defined.

(** The blob of [m1:f2/1], whose entry 0 is in table 0, asked for another
    entry. *)
Lemma export_alloc_reuse_scan_witness :
  load_entry booted (blob_entry 0 0) = Ok (MkEntry 0 (in_blob 0))
  ∧ heap booted !! 0%nat = Some (blob_of booted 0)
  ∧ export_alloc booted (blob_entry 0 0) = Ok (blob_entry 0 1, booted).
Proof.
  split; [vm_compute; reflexivity|]. split; [vm_compute; reflexivity|].
  destruct (export_alloc_reuse_scan booted (blob_entry 0 0) (MkEntry 0 (in_blob 0)) 0
              (blob_of booted 0)) as [Hfree _].
  - vm_compute; reflexivity.
  - simpl; lia.
  - reflexivity.
  - vm_compute; reflexivity.
  - vm_compute; reflexivity.
  - intros [|[|[|i]]] e He; vm_compute in He; try discriminate;
      injection He as <-; simpl; lia.
  - destruct Hfree as (ix & e & Halloc & Hix & He & Hs & Hlow).
    { exists 1%nat, (MkEntry (-1) (in_blob 0)).
      split; [vm_compute; reflexivity | reflexivity]. }
    assert (ix = 1%nat) as ->; [|exact Halloc].
    destruct ix as [|[|ix]].
    + vm_compute in He. injection He as <-. simpl in Hs. lia.
    + reflexivity.
    + exfalso. apply (Hlow 1%nat (MkEntry (-1) (in_blob 0)));
        [lia | vm_compute; reflexivity | reflexivity].
Defined.

(** A template for [m1:f2/1] on empty tables. *)
Lemma export_alloc_template_blob_witness :
  load_export init_export_table (ep (MkEntry (-1) (on_stack
      (MkExport [] (-1) 0 0 0 (MkMFA (make_atom 1) (make_atom 2) 1) 0 0))))
    = Ok (MkExport [] (-1) 0 0 0 (MkMFA (make_atom 1) (make_atom 2) 1) 0 0)
  ∧ ∃ b st' blob,
      export_alloc init_export_table
        (stack_entry (MkEntry (-1) (on_stack
           (MkExport [] (-1) 0 0 0 (MkMFA (make_atom 1) (make_atom 2) 1) 0 0))))
        = Ok (blob_entry b 0, st')
      ∧ heap st' = <[b := blob]> (heap init_export_table)
      ∧ info_mfa (exp blob) = MkMFA (make_atom 1) (make_atom 2) 1
      ∧ trampoline_op (exp blob) = 7001
      ∧ addresses (exp blob) !! 2%nat = Some (trampoline_address (in_blob b)).
Proof.
  split; [reflexivity|].
  destruct (export_alloc_template_blob init_export_table
              (stack_entry (MkEntry (-1) (on_stack
                 (MkExport [] (-1) 0 0 0 (MkMFA (make_atom 1) (make_atom 2) 1) 0 0))))
              (MkEntry (-1) (on_stack
                 (MkExport [] (-1) 0 0 0 (MkMFA (make_atom 1) (make_atom 2) 1) 0 0)))
              (MkExport [] (-1) 0 0 0 (MkMFA (make_atom 1) (make_atom 2) 1) 0 0)
              eq_refl eq_refl eq_refl)
    as (b & st' & blob & Halloc & _ & Hheap & _ & _ & Hm & Hf & Ha & _ & _ & _ & _
        & Hop & _ & _ & Haddr & _).
  exists b, st', blob. split; [exact Halloc|]. split; [exact Hheap|].
  split; [destruct (info_mfa (exp blob)); simpl in *; congruence|].
  split; [exact Hop|]. apply Haddr. simpl. lia.
Defined.

(** The same before the BEAM instructions are initialised: the
    trampoline of the new record does not point to
    [op_call_error_handler]. *)
Lemma export_alloc_template_blob_counterexample :
  ∃ st' blob,
    @export_alloc early_boot (@init_export_table early_boot)
      (@init_template early_boot (make_atom 1) (make_atom 2) 1)
      = Ok (blob_entry 0 0, st')
    ∧ heap st' !! 0%nat = Some blob
    ∧ trampoline_op (exp blob) = 0
    ∧ trampoline_op (exp blob) ≠ @op_call_error_handler early_boot.
Proof.
  eexists _, _. split; [vm_compute; reflexivity|].
  split; [vm_compute; reflexivity|]. split; [reflexivity|].
  vm_compute. discriminate.
Qed.

(** The blob of [m1:f2/1] with the JIT, held by tables 0 and 1: freed from
    one, it stays; freed from both, it is gone and 208 bytes with it. *)
Lemma export_free_last_reference_witness :
  heap booted_jit !! 0%nat = Some (blob_of booted_jit 0)
  ∧ total_entries_bytes booted_jit = 416
  ∧ (∃ st1, @export_free_all jit booted_jit 0 [0%nat] = Ok st1
       ∧ is_Some (heap st1 !! 0%nat) ∧ total_entries_bytes st1 = 416)
  ∧ ∃ st2, @export_free_all jit booted_jit 0 [0%nat; 1%nat] = Ok st2
      ∧ heap st2 !! 0%nat = None ∧ total_entries_bytes st2 = 208.
Proof.
  split; [vm_compute; reflexivity|]. split; [reflexivity|].
  destruct (@export_free_last_reference jit booted_jit 0 (blob_of booted_jit 0))
    as [_ Hall].
  - vm_compute; reflexivity.
  - vm_compute; reflexivity.
  - intros [|[|[|i]]] e He; vm_compute in He; try discriminate;
      injection He as <-; reflexivity.
  - simpl; lia.
  - vm_compute; split; [discriminate | reflexivity].
  - destruct (Hall [0%nat; 1%nat]) as [Hprefix Hlast].
    + discriminate.
    + apply (bool_decide_unpack _). vm_compute. exact I.
    + intros [|[|[|i]]]; split.
      * intros _. eexists. split; [vm_compute; reflexivity | simpl; lia].
      * intros _. repeat constructor.
      * intros _. eexists. split; [vm_compute; reflexivity | simpl; lia].
      * intros _. repeat constructor.
      * intros Hin. exfalso.
        repeat (apply elem_of_cons in Hin as [Hin|Hin]; [discriminate Hin|]).
        by apply elem_of_nil in Hin.
      * intros (e & He & Hs). vm_compute in He. injection He as <-. simpl in Hs. lia.
      * intros Hin. exfalso.
        repeat (apply elem_of_cons in Hin as [Hin|Hin]; [discriminate Hin|]).
        by apply elem_of_nil in Hin.
      * intros (e & He & _). vm_compute in He. discriminate.
    + split; [|exact Hlast]. apply (Hprefix [0%nat] [1%nat]); [reflexivity | discriminate].
Defined.

(** A put of [m4:f5/2] leaves table 0 alone. *)
Lemma erts_export_put_frame_witness :
  export_staging_mtx booted = false
  ∧ (erts_staging_code_ix booted < ERTS_NUM_CODE_IX)%nat
  ∧ ∃ b st', erts_export_put booted (make_atom 4) (make_atom 5) 2 = Ok (in_blob b, st')
      ∧ export_tables st' !! 0%nat = export_tables booted !! 0%nat
      ∧ holds st' 1 b.
Proof.
  split; [reflexivity|]. split; [vm_compute; lia|].
  destruct (erts_export_put_frame booted (make_atom 4) (make_atom 5) 2)
    as (b & st' & bl & Hput & _ & _ & Hheld & _ & _ & _ & _ & Hframe).
  - apply booted_inv.
  - reflexivity.
  - vm_compute; lia.
  - apply booted_room.
  - exists b, st'. split; [exact Hput|]. split; [|exact Hheld].
    apply (Hframe 0%nat). vm_compute. discriminate.
Defined.



(** A stub for [m1:f9/0] is not a loaded function, until patched. *)
Lemma erts_find_function_filters_stubs_witness :
  wf booted ∧ (1 < ERTS_NUM_CODE_IX)%nat
  ∧ ∃ b st1, erts_export_get_or_make_stub 1 booted (make_atom 1) (make_atom 9) 0
               = Ok (in_blob b, st1)
      ∧ erts_find_function st1 (make_atom 1) (make_atom 9) 0 1 = Ok NULL
      ∧ ∃ st2, store_address st1 (in_blob b) 1 123456 = Ok st2
          ∧ erts_find_function st2 (make_atom 1) (make_atom 9) 0 1 = Ok (in_blob b).
Proof.
  split; [apply booted_inv|]. split; [simpl; lia|].
  destruct (erts_find_function_filters_stubs booted (make_atom 1) (make_atom 9) 0 1)
    as [_ Hstub].
  - apply booted_inv.
  - simpl; lia.
  - destruct Hstub as (b & st1 & Hcall & Hnone & Hpatch).
    + apply booted_inv.
    + assert (Hall : map_Forall (λ _ bl, info_mfa (exp bl) ≠ MkMFA (make_atom 1) (make_atom 9) 0)
                       (heap booted)).
      { apply (bool_decide_unpack _). vm_compute. exact I. }
      intros b Hb. unfold blob_mfa in Hb.
      destruct (heap booted !! b) as [bl|] eqn:Hbl; [|discriminate].
      apply (Hall b bl Hbl). simpl in Hb. congruence.
    + vm_compute. discriminate.
    + vm_compute. discriminate.
    + apply booted_room.
    + exists b, st1. split; [exact Hcall|]. split; [apply Hnone; simpl; lia|].
      apply (Hpatch 123456).
      assert (b = 2%nat) as ->; [|vm_compute; discriminate].
      assert (Hres : erts_export_get_or_make_stub 1 booted (make_atom 1) (make_atom 9) 0
                     = Ok (in_blob 2, st1) ∨ True) by (right; exact I).
      clear Hres. vm_compute in Hcall. congruence.
Defined.

(** A stub for [m1:f9/0] asked for while the loader puts the same
    function and the session is committed: the call sees the commit,
    starts over and returns the loader's record, and no other blob has
    the key. *)
Lemma one_blob_per_key_witness :
  (0 < ERTS_NUM_CODE_IX)%nat ∧ reachable booted
  ∧ commits_seen [raced_wait] booted = true
  ∧ erts_export_get_or_make_stub_conc 1 [raced_wait] booted
      (make_atom 1) (make_atom 9) 0 = Fault OutOfFuel
  ∧ erts_export_get_or_make_stub_conc 2 [raced_wait] booted
      (make_atom 1) (make_atom 9) 0 = Ok (in_blob 2, raced)
  ∧ reachable raced
  ∧ ∀ b bl, heap raced !! b = Some bl →
      info_mfa (exp bl) = MkMFA (make_atom 1) (make_atom 9) 0 → b = 2%nat.
Proof.
  assert (Hseen : commits_seen [raced_wait] booted = true) by (vm_compute; reflexivity).
  assert (Hcall : erts_export_get_or_make_stub_conc 2 [raced_wait] booted
                    (make_atom 1) (make_atom 9) 0 = Ok (in_blob 2, raced))
    by (vm_compute; reflexivity).
  split; [simpl; lia|]. split; [apply booted_reachable|].
  split; [exact Hseen|]. split; [vm_compute; reflexivity|]. split; [exact Hcall|].
  destruct (one_blob_per_key booted) as (_ & _ & _ & _ & Hconc).
  - simpl; lia.
  - apply booted_reachable.
  - destruct (Hconc 2%nat [raced_wait] (make_atom 1) (make_atom 9) 0 (in_blob 2) raced
                Hseen Hcall) as [Hreach Huniq].
    split; [exact Hreach|]. intros b bl Hb Hk.
    apply (Huniq b 2%nat bl (blob_of raced 2) Hb); [vm_compute; reflexivity|].
    rewrite Hk. vm_compute. reflexivity.
Defined.

(** Without the discipline a key gets a second blob.  The booted system
    is reachable and every request of [aba_wait] keeps the callers'
    discipline where it is served, yet a stub call for [m1:f9/0] during
    whose wait they are served makes blob 3, held by the staging table,
    for the key of blob 2, which the loader has made and the active table
    holds.  And a put of [m1:f2/1] with no staging session open, when the
    active table holds the key and the staging table does not, makes
    blob 2 for the key of blob 0. *)
Lemma one_blob_per_key_counterexample :
  reachable booted
  ∧ disciplined_run booted aba_wait = true
  ∧ commits_seen [aba_wait] booted = false
  ∧ erts_export_get_or_make_stub_conc 1 [aba_wait] booted
      (make_atom 1) (make_atom 9) 0 = Ok (in_blob 3, aba_raced)
  ∧ blob_mfa aba_raced 2 = Some (MkMFA (make_atom 1) (make_atom 9) 0)
  ∧ blob_mfa aba_raced 3 = Some (MkMFA (make_atom 1) (make_atom 9) 0)
  ∧ holds aba_raced (erts_active_code_ix aba_raced) 2
  ∧ holds aba_raced (erts_staging_code_ix aba_raced) 3
  ∧ ¬ (∀ b1 b2 bl1 bl2,
         heap aba_raced !! b1 = Some bl1 → heap aba_raced !! b2 = Some bl2 →
         info_mfa (exp bl1) = info_mfa (exp bl2) → b1 = b2)
  ∧ debug_export_load_ix booted = None
  ∧ ∃ st', erts_export_put booted (make_atom 1) (make_atom 2) 1 = Ok (in_blob 2, st')
      ∧ blob_mfa st' 0 = Some (MkMFA (make_atom 1) (make_atom 2) 1)
      ∧ blob_mfa st' 2 = Some (MkMFA (make_atom 1) (make_atom 2) 1).
Proof.
  split; [apply booted_reachable|]. split; [vm_compute; reflexivity|].
  split; [vm_compute; reflexivity|].
  split; [vm_compute; reflexivity|]. split; [vm_compute; reflexivity|].
  split; [vm_compute; reflexivity|].
  split; [exists 2%nat, 1%nat, (table_of aba_raced 0); split; vm_compute; reflexivity|].
  split; [exists 2%nat, 0%nat, (table_of aba_raced 1); split; vm_compute; reflexivity|].
  split.
  { intros Huniq.
    assert (H : 2%nat = 3%nat); [|discriminate H].
    apply (Huniq 2%nat 3%nat (blob_of aba_raced 2) (blob_of aba_raced 3));
      vm_compute; reflexivity. }
  split; [reflexivity|]. eexists. split; [vm_compute; reflexivity|].
  split; vm_compute; reflexivity.
Qed.

(** The record of [m1:f2/1], which the active table holds. *)
Lemma export_get_lookup_witness :
  (erts_active_code_ix booted < ERTS_NUM_CODE_IX)%nat
  ∧ load_export booted (in_blob 0) = Ok (exp (blob_of booted 0))
  ∧ export_get booted (in_blob 0) = Ok (in_blob 0).
Proof.
  split; [vm_compute; lia|]. split; [vm_compute; reflexivity|].
  destruct (export_get_lookup booted (in_blob 0) (exp (blob_of booted 0)))
    as (_ & _ & _ & Hsame).
  - apply booted_inv.
  - vm_compute; lia.
  - vm_compute; reflexivity.
  - apply (Hsame 0%nat); [reflexivity|].
    exists 0%nat, 0%nat, (table_of booted 0). split; vm_compute; reflexivity.
Defined.

(** Staging the booted system: [m1:f2/1] gets an entry in table 1. *)
Lemma export_start_staging_migrates_witness :
  ok booted ∧ one_blob booted
  ∧ erts_active_code_ix booted ≠ erts_staging_code_ix booted
  ∧ export_tables booted !! erts_active_code_ix booted = Some [blob_entry 0 0]
  ∧ ∃ st', export_start_staging 2 booted = Ok st'
      ∧ ∃ j' i', in_table st' 1 j' (blob_entry 0 i').
Proof.
  split; [apply booted_inv|]. split; [apply booted_inv|].
  split; [vm_compute; discriminate|]. split; [vm_compute; reflexivity|].
  destruct (export_start_staging_migrates booted [blob_entry 0 0])
    as (st' & Hcall & _ & _ & _ & _ & Hall).
  - apply booted_inv.
  - apply booted_inv.
  - vm_compute; discriminate.
  - vm_compute; reflexivity.
  - apply booted_heap_room.
  - exists st'. split; [exact Hcall|].
    destruct (Hall 0%nat (blob_entry 0 0) eq_refl)
      as (b & i & bl & j' & i' & e' & bl' & a & Hp & _ & Hin & _).
    injection Hp as <- <-. exists j', i'. exact Hin.
Defined.

(** ** More of export.c at work *)

(** A lookup with a code index that no table has. *)
Lemma erts_find_export_entry_lookup_witness :
  wf booted
  ∧ erts_find_export_entry booted (make_atom 1) (make_atom 2) 1 5 = Fault OutOfBounds.
Proof.
  split; [apply booted_inv|].
  destruct (erts_find_export_entry_lookup booted (make_atom 1) (make_atom 2) 1 5)
    as [_ Hout].
  - apply booted_inv.
  - apply Hout. simpl; lia.
Defined.

(** The table of code index 1 read to its end and past it. *)
Lemma export_list_enumerates_witness :
  wf booted ∧ (1 < ERTS_NUM_CODE_IX)%nat
  ∧ ∃ n, export_list_size booted 1 = Ok n
      ∧ export_list booted n 1 = Fault OutOfBounds.
Proof.
  split; [apply booted_inv|]. split; [simpl; lia|].
  destruct (export_list_enumerates booted 1) as (n & Hn & _ & _ & Hout).
  - apply booted_inv.
  - simpl; lia.
  - exists n. split; [exact Hn|]. apply Hout. lia.
Defined.

(** [m4:f5/2] put twice. *)
Lemma erts_export_put_idempotent_witness :
  wf booted ∧ export_staging_mtx booted = false
  ∧ (erts_staging_code_ix booted < ERTS_NUM_CODE_IX)%nat
  ∧ ∃ p st1, erts_export_put booted (make_atom 4) (make_atom 5) 2 = Ok (p, st1)
      ∧ erts_export_put st1 (make_atom 4) (make_atom 5) 2 = Ok (p, st1).
Proof.
  split; [apply booted_inv|]. split; [reflexivity|]. split; [vm_compute; lia|].
  destruct (erts_export_put booted (make_atom 4) (make_atom 5) 2) as [[p st1]|e] eqn:Hput;
    [|vm_compute in Hput; discriminate].
  exists p, st1. split; [reflexivity|].
  apply (erts_export_put_idempotent booted st1 (make_atom 4) (make_atom 5) 2 p).
  - apply booted_inv.
  - reflexivity.
  - vm_compute; lia.
  - exact Hput.
Defined.

(** A stub for [m1:f9/0] asked for twice. *)
Lemma erts_export_get_or_make_stub_idempotent_witness :
  ok booted
  ∧ ∃ p st1,
      erts_export_get_or_make_stub 1 booted (make_atom 1) (make_atom 9) 0 = Ok (p, st1)
      ∧ erts_export_get_or_make_stub 1 st1 (make_atom 1) (make_atom 9) 0 = Ok (p, st1).
Proof.
  split; [apply booted_inv|].
  destruct (erts_export_get_or_make_stub 1 booted (make_atom 1) (make_atom 9) 0)
    as [[p st1]|e] eqn:Hstub; [|vm_compute in Hstub; discriminate].
  exists p, st1. split; [reflexivity|].
  apply (erts_export_get_or_make_stub_idempotent booted st1 (make_atom 1) (make_atom 9) 0 p).
  - apply booted_inv.
  - exact Hstub.
Defined.

(** Staging the booted system: [m1:f2/1], which table 0 holds, is found
    in table 1. *)
Lemma export_start_staging_lookup_witness :
  ok booted ∧ one_blob booted
  ∧ erts_active_code_ix booted ≠ erts_staging_code_ix booted
  ∧ export_tables booted !! erts_active_code_ix booted = Some [blob_entry 0 0]
  ∧ ∃ st', export_start_staging 2 booted = Ok st'
      ∧ erts_find_export_entry st' (make_atom 1) (make_atom 2) 1 1 = Ok (in_blob 0).
Proof.
  split; [apply booted_inv|]. split; [apply booted_inv|].
  split; [vm_compute; discriminate|]. split; [vm_compute; reflexivity|].
  destruct (export_start_staging_lookup booted [blob_entry 0 0])
    as (st' & Hcall & Hfind & _).
  - apply booted_inv.
  - apply booted_inv.
  - vm_compute; discriminate.
  - vm_compute; reflexivity.
  - apply booted_heap_room.
  - exists st'. split; [exact Hcall|].
    exact (Hfind (make_atom 1) (make_atom 2) 1).
Defined.

(** Staging the booted system: the stub of [m1:f3/0], which table 0 does
    not hold, is as it was. *)
Lemma export_start_staging_records_witness :
  ok booted ∧ one_blob booted
  ∧ erts_active_code_ix booted ≠ erts_staging_code_ix booted
  ∧ export_tables booted !! erts_active_code_ix booted = Some [blob_entry 0 0]
  ∧ heap booted !! 1%nat = Some (blob_of booted 1)
  ∧ ∃ st' bl', export_start_staging 2 booted = Ok st'
      ∧ heap st' !! 1%nat = Some bl' ∧ exp bl' = exp (blob_of booted 1).
Proof.
  split; [apply booted_inv|]. split; [apply booted_inv|].
  split; [vm_compute; discriminate|]. split; [vm_compute; reflexivity|].
  split; [vm_compute; reflexivity|].
  destruct (export_start_staging_records booted [blob_entry 0 0])
    as (st' & Hcall & Hrec).
  - apply booted_inv.
  - apply booted_inv.
  - vm_compute; discriminate.
  - vm_compute; reflexivity.
  - apply booted_heap_room.
  - destruct (Hrec 1%nat (blob_of booted 1)) as (bl' & Hb' & _ & _ & _ & Hsame).
    + vm_compute; reflexivity.
    + exists st', bl'. split; [exact Hcall|]. split; [exact Hb'|].
      apply Hsame. intros (j & i & t & Ht & Hj).
      vm_compute in Ht. injection Ht as <-.
      destruct j as [|[|j]]; discriminate Hj.
Defined.

(** The record of [m1:f2/1] is entry 0 of table 0 after a staging
    session that is committed, as it was before. *)
Lemma export_records_stable_witness :
  inv booted
  ∧ run booted [call_start_staging; call_export_put (make_atom 4) (make_atom 5) 2;
                call_end_staging true 2]
    = Ok (state_of (run booted
            [call_start_staging; call_export_put (make_atom 4) (make_atom 5) 2;
             call_end_staging true 2]))
  ∧ export_list
      (state_of (run booted
         [call_start_staging; call_export_put (make_atom 4) (make_atom 5) 2;
          call_end_staging true 2])) 0 0
    = Ok (in_blob 0).
Proof.
  split; [apply booted_inv|]. split; [vm_compute; reflexivity|].
  destruct (export_records_stable
              [call_start_staging; call_export_put (make_atom 4) (make_atom 5) 2;
               call_end_staging true 2]
              booted
              (state_of (run booted
                 [call_start_staging; call_export_put (make_atom 4) (make_atom 5) 2;
                  call_end_staging true 2])))
    as (_ & Hlist & _).
  - apply booted_inv.
  - vm_compute; reflexivity.
  - apply Hlist. vm_compute; reflexivity.
Defined.

(** A stub made in the booted system leaves table 0, the active one,
    alone. *)
Lemma staging_generation_only_written_witness :
  inv booted
  ∧ 0%nat ≠ erts_staging_code_ix booted ∧ (0 < ERTS_NUM_CODE_IX)%nat
  ∧ ∃ st', step booted (call_get_or_make_stub (make_atom 1) (make_atom 9) 0) = Ok st'
      ∧ export_tables st' !! 0%nat = export_tables booted !! 0%nat.
Proof.
  split; [apply booted_inv|]. split; [vm_compute; discriminate|]. split; [simpl; lia|].
  destruct (step booted (call_get_or_make_stub (make_atom 1) (make_atom 9) 0))
    as [st'|e] eqn:Hstep; [|vm_compute in Hstep; discriminate].
  exists st'. split; [reflexivity|].
  destruct (staging_generation_only_written booted st'
              (call_get_or_make_stub (make_atom 1) (make_atom 9) 0) 0) as [Htab _].
  - apply booted_inv.
  - exact Hstep.
  - vm_compute; discriminate.
  - simpl; lia.
  - exact Htab.
Defined.

(** The two blobs of the booted system are counted. *)
Lemma export_entries_sz_counts_blobs_witness :
  reachable booted ∧ size (heap booted) = 2%nat ∧ export_entries_sz booted = 200 * 2.
Proof.
  split; [apply booted_reachable|]. split; [vm_compute; reflexivity|].
  destruct (export_entries_sz_counts_blobs booted booted_reachable) as (_ & Hexact & _).
  apply Hexact. vm_compute. split; [discriminate | reflexivity].
Defined.

(** The blob of [m1:f2/1] freed from the one table that holds it. *)
Lemma export_alloc_free_count_blobs_witness :
  bytes_ok booted
  ∧ ∃ st', export_free booted (blob_entry 0 0) = Ok st' ∧ bytes_ok st'.
Proof.
  split; [vm_compute; reflexivity|].
  destruct (export_free booted (blob_entry 0 0)) as [st'|e] eqn:Hfree;
    [|vm_compute in Hfree; discriminate].
  exists st'. split; [reflexivity|].
  destruct (export_alloc_free_count_blobs booted) as [_ Hfrees].
  - vm_compute; reflexivity.
  - exact (Hfrees (blob_entry 0 0) st' Hfree).
Defined.

(** A blob for [m4:f5/2] allocated in the booted system and freed. *)
Lemma export_alloc_free_round_trip_witness :
  (0 < ERTS_NUM_CODE_IX)%nat
  ∧ - 2 ^ 63 ≤ total_entries_bytes booted < 2 ^ 63
  ∧ ∃ p st1, export_alloc booted (init_template (make_atom 4) (make_atom 5) 2) = Ok (p, st1)
      ∧ export_free st1 p = Ok booted.
Proof.
  split; [simpl; lia|]. split; [vm_compute; split; [discriminate | reflexivity]|].
  destruct (export_alloc_free_round_trip booted
              (init_template (make_atom 4) (make_atom 5) 2)
              (MkEntry (-1)
                 (on_stack (MkExport (replicate ERTS_ADDRESSV_SIZE uninitialized) (-1) 0
                              uninitialized uninitialized
                              (MkMFA (make_atom 4) (make_atom 5) 2)
                              uninitialized uninitialized)))
              (MkExport (replicate ERTS_ADDRESSV_SIZE uninitialized) (-1) 0
                 uninitialized uninitialized (MkMFA (make_atom 4) (make_atom 5) 2)
                 uninitialized uninitialized))
    as (p & st1 & Halloc & _ & Hfree).
  - simpl; lia.
  - reflexivity.
  - reflexivity.
  - reflexivity.
  - vm_compute; split; [discriminate | reflexivity].
  - exists p, st1. split; [exact Halloc | exact Hfree].
Defined.

(** With the JIT, the record a put of [m4:f5/2] returns has its
    save-calls slot set. *)
Lemma erts_export_put_dispatch_witness :
  @wf jit booted_jit ∧ export_staging_mtx booted_jit = false
  ∧ (erts_staging_code_ix booted_jit < @ERTS_NUM_CODE_IX jit)%nat
  ∧ ∃ b st' bl',
      @erts_export_put jit booted_jit (make_atom 4) (make_atom 5) 2 = Ok (in_blob b, st')
      ∧ heap st' !! b = Some bl'
      ∧ addresses (exp bl') !! 3%nat = Some 9000.
Proof.
  assert (Hinv : @inv jit booted_jit).
  { apply (@reachable_inv jit); [simpl; lia | apply booted_jit_reachable]. }
  split; [apply Hinv|]. split; [reflexivity|]. split; [vm_compute; lia|].
  destruct (@erts_export_put_dispatch jit booted_jit (make_atom 4) (make_atom 5) 2)
    as (b & st' & bl' & Hput & Hb' & _ & Hsave & _).
  - apply Hinv.
  - reflexivity.
  - vm_compute; lia.
  - exists [blob_entry 1 0; blob_entry 0 1]. split; vm_compute; reflexivity.
  - exists b, st', bl'. split; [exact Hput|]. split; [exact Hb'|].
    apply Hsave. reflexivity.
Defined.

(** [m1:f2/1] put in the boot session, and a stub asked for then. *)
Lemma erts_export_put_stub_agree_witness :
  inv init_export_table ∧ is_Some (debug_export_load_ix init_export_table)
  ∧ ∃ p st1,
      erts_export_put init_export_table (make_atom 1) (make_atom 2) 1 = Ok (p, st1)
      ∧ erts_export_get_or_make_stub 1 st1 (make_atom 1) (make_atom 2) 1 = Ok (p, st1).
Proof.
  assert (Hinv : inv init_export_table) by (apply init_export_table_inv; simpl; lia).
  split; [exact Hinv|]. split; [by eexists|].
  destruct (erts_export_put init_export_table (make_atom 1) (make_atom 2) 1)
    as [[p st1]|e] eqn:Hput; [|vm_compute in Hput; discriminate].
  exists p, st1. split; [reflexivity|].
  destruct (erts_export_put_stub_agree init_export_table (make_atom 1) (make_atom 2) 1)
    as [Hagree _].
  - exact Hinv.
  - by eexists.
  - exact (Hagree p st1 Hput).
Defined.

(** A put of [m4:f5/2] in the booted system: the record is entry 1 of
    table 1. *)
Lemma erts_export_put_appends_witness :
  wf booted ∧ export_staging_mtx booted = false
  ∧ export_tables booted !! erts_staging_code_ix booted = Some [blob_entry 1 0]
  ∧ ∃ b st', erts_export_put booted (make_atom 4) (make_atom 5) 2 = Ok (in_blob b, st')
      ∧ export_list st' 1 1 = Ok (in_blob b).
Proof.
  split; [apply booted_inv|]. split; [reflexivity|]. split; [vm_compute; reflexivity|].
  destruct (erts_export_put_appends booted (make_atom 4) (make_atom 5) 2 [blob_entry 1 0])
    as (b & st' & Hput & [[Hfind _]|(_ & _ & _ & Hlist)]).
  - apply booted_inv.
  - reflexivity.
  - vm_compute; reflexivity.
  - vm_compute; reflexivity.
  - vm_compute in Hfind. discriminate.
  - exists b, st'. split; [exact Hput | exact Hlist].
Defined.

(** The booted system staged twice. *)
Lemma export_start_staging_idempotent_witness :
  ok booted ∧ one_blob booted
  ∧ erts_active_code_ix booted ≠ erts_staging_code_ix booted
  ∧ export_tables booted !! erts_active_code_ix booted = Some [blob_entry 0 0]
  ∧ ∃ st', export_start_staging 2 booted = Ok st'
      ∧ export_start_staging 2 st' = Ok st'.
Proof.
  split; [apply booted_inv|]. split; [apply booted_inv|].
  split; [vm_compute; discriminate|]. split; [vm_compute; reflexivity|].
  destruct (export_start_staging_idempotent booted [blob_entry 0 0])
    as (st' & Hcall & Hagain).
  - apply booted_inv.
  - apply booted_inv.
  - vm_compute; discriminate.
  - vm_compute; reflexivity.
  - apply booted_heap_room.
  - exists st'. split; [exact Hcall | exact Hagain].
Defined.
